(** * mastering-scrapping: the chapter/code/image pipeline of [main.js]

    A shallow embedding of [src/main.js] and the properties of its
    pipeline: listing selection, download, image-path rewriting, merging,
    staging, PDF export and the top-level error handler.

    - JavaScript strings are sequences of UTF-16 code units ([list N]).
    - The two regular expressions of [mergeFiles] are run by a small
      backtracking matcher written in the continuation style of the
      ECMAScript specification.
    - Asynchronous code is a function of its launch instant: it yields
      the calls it makes to the outside world (program order, each with
      its launch and settle instants) and a promise, i.e. a settle
      instant with an outcome.  The outside world (network, filesystem,
      asciidoctor, puppeteer) is an oracle passed as a section variable.
    - A promise rejected while no handler is attached to it ends the
      process, as Node does by default: the event [UnhandledRejection]
      records it, and no call is made after its instant. *)

From Stdlib Require Import String Ascii.
From Stdlib Require Import List NArith Arith Bool Lia.
Import ListNotations.
Local Open Scope list_scope.

(* ================================================================== *)
(** * JavaScript strings *)
(* ================================================================== *)

Module JsString.

Definition code_unit := N.
Definition jsstring := list code_unit.

(** An ASCII literal of the source as a sequence of code units. *)
Definition lit (s : string) : jsstring :=
  List.map N_of_ascii (list_ascii_of_string s).
Arguments lit s%_string.

(** LineTerminator :: <LF> | <CR> | <LS> | <PS> *)
Definition is_line_terminator (c : code_unit) : bool :=
  (c =? 10)%N || (c =? 13)%N || (c =? 8232)%N || (c =? 8233)%N.

Fixpoint eqb (s t : jsstring) : bool :=
  match s, t with
  | [], [] => true
  | c :: s', d :: t' => (c =? d)%N && eqb s' t'
  | _, _ => false
  end.

(** [String.prototype.startsWith(search)] with the default position 0. *)
Fixpoint startsWith (s search : jsstring) {struct search} : bool :=
  match search with
  | [] => true
  | c :: search' =>
      match s with
      | [] => false
      | d :: s' => (d =? c)%N && startsWith s' search'
      end
  end.

(** [String.prototype.endsWith(search)] with the default end position:
    [start = len - searchLength]; false when negative, else the code units
    from [start] are compared with [search]. *)
Definition endsWith (s search : jsstring) : bool :=
  if length s <? length search then false
  else eqb (skipn (length s - length search) s) search.

(** [Array.prototype.join(sep)] on an array of strings:
    R = ""; for each k: if k > 0 then R = R + sep; R = R + element. *)
Fixpoint join_loop (sep : jsstring) (k : nat) (R : jsstring)
         (elems : list jsstring) : jsstring :=
  match elems with
  | [] => R
  | e :: elems' =>
      let R := if (0 <? k) then R ++ sep else R in
      join_loop sep (S k) (R ++ e) elems'
  end.

Definition join (sep : jsstring) (elems : list jsstring) : jsstring :=
  join_loop sep 0 [] elems.

(** [sub] occurs in [s] as a contiguous substring. *)
Definition occurs (sub s : jsstring) : Prop :=
  exists pre post, s = pre ++ sub ++ post.

End JsString.
Import JsString.

(* ================================================================== *)
(** * Regular expressions of the source *)
(* ================================================================== *)

Module RegExp.

(** The pattern terms that occur in [main.js]:
    a pattern character (plain or escaped), the assertion [^] (no
    multiline flag), and the capturing group [(.*?)]. *)
Inductive term :=
| Char (c : code_unit)
| Start
| CaptureLazyAny.

Definition pattern := list term.

(** What a successful match hands to its caller: the captures, in
    order, and the input that follows the match. *)
Definition match_state := (list jsstring * jsstring)%type.

(** [.*?] followed by the continuation [k]: the continuation is tried
    first; only when it fails is one more code unit consumed, and [.]
    never consumes a line terminator. [i] is the index of [s] in the
    whole input and [acc] what the group has captured so far. *)
Fixpoint lazy_any (k : nat -> jsstring -> jsstring -> option match_state)
         (i : nat) (s : jsstring) (acc : jsstring) : option match_state :=
  match k i s acc with
  | Some r => Some r
  | None =>
      match s with
      | [] => None
      | d :: s' =>
          if is_line_terminator d then None
          else lazy_any k (S i) s' (acc ++ [d])
      end
  end.

(** Match [p] against [s], which starts at index [i] of the input;
    [caps] holds the captures so far, latest first. *)
Fixpoint match_here (p : pattern) (i : nat) (s : jsstring)
         (caps : list jsstring) {struct p} : option match_state :=
  match p with
  | [] => Some (rev caps, s)
  | Char c :: p' =>
      match s with
      | [] => None
      | d :: s' => if (d =? c)%N then match_here p' (S i) s' caps else None
      end
  | Start :: p' =>
      match i with
      | O => match_here p' i s caps
      | S _ => None
      end
  | CaptureLazyAny :: p' =>
      lazy_any (fun i' s' acc => match_here p' i' s' (acc :: caps)) i s []
  end.

(** RegExpBuiltinExec without the sticky flag: the first index at or
    after [i] where the pattern matches.  Returns the text skipped
    before the match, the captures and the text after the match. *)
Fixpoint exec_from (p : pattern) (i : nat) (s : jsstring)
  : option (jsstring * list jsstring * jsstring) :=
  match match_here p i s [] with
  | Some (caps, rest) => Some ([], caps, rest)
  | None =>
      match s with
      | [] => None
      | c :: s' =>
          match exec_from p (S i) s' with
          | Some (pre, caps, rest) => Some (c :: pre, caps, rest)
          | None => None
          end
      end
  end.

(** The matched substring, given what precedes and follows it. *)
Definition matched (s pre rest : jsstring) : jsstring :=
  firstn (length s - length pre - length rest) (skipn (length pre) s).

(** A replacer function receives the matched substring and the captures. *)
Definition replacer := jsstring -> list jsstring -> jsstring.

(** [String.prototype.replace] with a pattern that has no [g] flag:
    only the first match is replaced. *)
Definition replace_first (p : pattern) (f : replacer) (s : jsstring)
  : jsstring :=
  match exec_from p 0 s with
  | None => s
  | Some (pre, caps, rest) => pre ++ f (matched s pre rest) caps ++ rest
  end.

(** [String.prototype.replace] with a [g] pattern: exec is repeated from
    the end of the previous match; after an empty match the index is
    advanced by one code unit, which is copied through.  [fuel] bounds
    the number of matches; [S (length s)] always suffices. *)
Fixpoint replace_loop (fuel : nat) (p : pattern) (f : replacer)
         (i : nat) (s : jsstring) : jsstring :=
  match fuel with
  | O => s
  | S fuel' =>
      match exec_from p i s with
      | None => s
      | Some (pre, caps, rest) =>
          let m := matched s pre rest in
          let i' := i + length pre + length m in
          pre ++ f m caps ++
            match m, rest with
            | [], [] => []
            | [], c :: rest' => c :: replace_loop fuel' p f (S i') rest'
            | _ :: _, _ => replace_loop fuel' p f i' rest
            end
      end
  end.

Definition replace_all (p : pattern) (f : replacer) (s : jsstring)
  : jsstring :=
  replace_loop (S (length s)) p f 0 s.

End RegExp.
Import RegExp.

(* ================================================================== *)
(** * The image-path rewriting of [mergeFiles] (main.js 95-101) *)
(* ================================================================== *)

(** [/image::(.*?)\[(.*?)\]/g] *)
Definition re_image : pattern :=
  List.map Char (lit "image::") ++ [CaptureLazyAny] ++
  List.map Char (lit "[") ++ [CaptureLazyAny] ++ List.map Char (lit "]").

(** [/^images\//] *)
Definition re_images_prefix : pattern :=
  Start :: List.map Char (lit "images/").

(** [imagePath.replace(/^images\//, '')] *)
Definition cleanImagePath (imagePath : jsstring) : jsstring :=
  replace_first re_images_prefix (fun _ _ => []) imagePath.

(** The replacer [(match, imagePath, alt) => `image::${cleanImagePath}[${alt}]`].
    Both groups of [re_image] take part in every match, so neither
    argument is ever undefined. *)
Definition image_replacer : replacer :=
  fun _match caps =>
    let imagePath := nth 0 caps [] in
    let alt := nth 1 caps [] in
    lit "image::" ++ cleanImagePath imagePath ++ lit "[" ++ alt ++ lit "]".

(** The callback of [contents.map] in [mergeFiles]. *)
Definition rewrite_images (content : jsstring) : jsstring :=
  replace_all re_image image_replacer content.

(** ** Reading a directive the way the pattern does

    [until c s] is the text before the first [c] of [s], provided no line
    terminator comes before it, and the text after that [c]. *)
Fixpoint until (c : code_unit) (s : jsstring)
  : option (jsstring * jsstring) :=
  match s with
  | [] => None
  | d :: s' =>
      if (d =? c)%N then Some ([], s')
      else if is_line_terminator d then None
      else match until c s' with
           | Some (a, rest) => Some (d :: a, rest)
           | None => None
           end
  end.

Definition open_bracket : code_unit := 91%N.
Definition close_bracket : code_unit := 93%N.

(** [image::<path>[<alt>]] at the head of [s]: its path, its alt text
    and what follows the closing bracket. *)
Definition parse_directive (s : jsstring)
  : option (jsstring * jsstring * jsstring) :=
  if startsWith s (lit "image::") then
    match until open_bracket (skipn 7 s) with
    | Some (p, s1) =>
        match until close_bracket s1 with
        | Some (a, rest) => Some (p, a, rest)
        | None => None
        end
    | None => None
    end
  else None.

(** The text [image::<path>[<alt>]]. *)
Definition directive (path alt : jsstring) : jsstring :=
  lit "image::" ++ path ++ lit "[" ++ alt ++ lit "]".

Definition no_line_terminator (s : jsstring) : Prop :=
  Forall (fun d => is_line_terminator d = false) s.

(** One leading [images/] segment removed, if there is one. *)
Definition strip_images (path : jsstring) : jsstring :=
  if startsWith path (lit "images/") then skipn 7 path else path.

(** [t] is [s] with some directives [image::<path>[<alt>]] replaced by
    [image::<path'>[<alt>]], [path'] being [path] without a leading
    [images/]; everything else is copied. *)
Inductive Rewritten : jsstring -> jsstring -> Prop :=
| Rewritten_copy (s : jsstring) : Rewritten s s
| Rewritten_directive (pre path alt s t : jsstring) :
    Rewritten s t ->
    Rewritten (pre ++ directive path alt ++ s)
              (pre ++ directive (strip_images path) alt ++ t).

(* ================================================================== *)
(** * Promises and asynchronous functions *)
(* ================================================================== *)

Module Async.

Definition instant := nat.

(** Values thrown: an [Error] raised inside a library (axios, fs-extra,
    asciidoctor, puppeteer), told apart by a code, or a [TypeError]
    raised by the language. *)
Inductive error :=
| LibraryError (code : N)
| TypeError (message : jsstring).

Inductive outcome (A : Type) :=
| Fulfilled (a : A)
| Rejected (e : error).
Arguments Fulfilled {A} a.
Arguments Rejected {A} e.

Definition is_fulfilled {A} (o : outcome A) : bool :=
  match o with Fulfilled _ => true | Rejected _ => false end.

(** A settled promise: when it settles and how. *)
Record promise (A : Type) := Promise {
  settles : instant;
  state : outcome A
}.
Arguments Promise {A} settles state.
Arguments settles {A} p.
Arguments state {A} p.

Definition promise_map {A B} (f : A -> B) (p : promise A) : promise B :=
  Promise (settles p)
          (match state p with
           | Fulfilled a => Fulfilled (f a)
           | Rejected e => Rejected e
           end).

(** [Promise.all] of two promises: fulfilled when both are, at the later
    instant; rejected as soon as one is, with its reason (the first of
    the array when both reject at the same instant). *)
Definition all2 {A B} (p : promise A) (q : promise B) : promise (A * B) :=
  match state p, state q with
  | Fulfilled a, Fulfilled b =>
      Promise (Nat.max (settles p) (settles q)) (Fulfilled (a, b))
  | Rejected e, Fulfilled _ => Promise (settles p) (Rejected e)
  | Fulfilled _, Rejected e => Promise (settles q) (Rejected e)
  | Rejected e, Rejected e' =>
      if settles p <=? settles q then Promise (settles p) (Rejected e)
      else Promise (settles q) (Rejected e')
  end.

(** [Promise.all] of an array: the values come in array order. *)
Fixpoint promise_all {A} (ps : list (promise A)) : promise (list A) :=
  match ps with
  | [] => Promise 0 (Fulfilled [])
  | p :: ps' => promise_map (fun al => fst al :: snd al)
                            (all2 p (promise_all ps'))
  end.

(** [Promise.all([a, b, c])], destructured as [[x, y, z]]. *)
Definition promise_all3 {A B C} (a : promise A) (b : promise B)
           (c : promise C) : promise (A * (B * C)) :=
  all2 a (all2 b c).

End Async.
Import Async.

(* ================================================================== *)
(** * The outside world *)
(* ================================================================== *)

Module Outside.

(** An entry of the listing; of its fields the code reads [name] and
    [download_url]. *)
Record entry := Entry {
  entry_name : jsstring;
  download_url : jsstring
}.

(** [response.data] of a file download: a string, or a Buffer when the
    response type is ['arraybuffer']. *)
Inductive data :=
| Text (s : jsstring)
| Bytes (b : list N).

(** The options object [{ responseType, family, timeout }]. *)
Record request_config := RequestConfig {
  responseType : jsstring;
  family : N;
  timeout : N
}.

Inductive fs_op :=
| EnsureDir (dir : jsstring)
| OutputFile (file : jsstring) (content : option data) (encoding : jsstring)
| WriteFile (file : jsstring) (content : option data)
| Remove (path : jsstring).

Inductive attribute :=
| AttrString (s : jsstring)
| AttrBool (b : bool).

Record convert_options := ConvertOptions {
  safe : jsstring;
  to_file : bool;
  base_dir : jsstring;
  attributes : list (jsstring * attribute)
}.

Record pdf_options := PdfOptions {
  pdf_path : jsstring;
  format : jsstring;
  printBackground : bool;
  margin_top : jsstring;
  margin_right : jsstring;
  margin_bottom : jsstring;
  margin_left : jsstring;
  displayHeaderFooter : bool;
  headerTemplate : jsstring;
  footerTemplate : jsstring
}.

Inductive page_script :=
| TypesetPromise        (* () => MathJax.typesetPromise() *)
| AllImagesSettled.     (* the promise over document.images *)

Inductive browser_op :=
| Launch (args : list jsstring)
| NewPage
| On (event_name : jsstring)
| SetViewport (width height : N)
| SetJavaScriptEnabled (enabled : bool)
| SetContent (html : jsstring)
| WaitForFunction (expression : jsstring)
| Evaluate (script : page_script)
| Pdf (options : pdf_options)
| Close.

(** A call that leaves the program. *)
Inductive call :=
| AxiosGet (url : jsstring) (config : option request_config)
| Fs (op : fs_op)
| AsciidoctorConvertFile (file : jsstring) (options : convert_options)
| Puppeteer (op : browser_op)
| ConsoleLog (args : list jsstring)
| ConsoleError (label : jsstring) (e : error)
| UnhandledRejection (reason : error).

(** [UnhandledRejection] is not a call of the program but what Node does,
    by default, when a promise is rejected and no handler is attached to
    it: it prints the reason and ends the process with exit code 1.

    One call as it happened: when it was made, when it settled, and
    whether it succeeded. *)
Record event := Event {
  launched : instant;
  settled : instant;
  what : call;
  succeeded : bool
}.

(** The libraries and services behind the calls.  An asynchronous call
    made at some instant answers with the time it takes and its
    outcome; the pure helpers of [path] and [Buffer] are functions. *)
Record World := {
  axios_get_listing : instant -> jsstring -> nat * outcome (list entry);
  axios_get_file : instant -> jsstring -> request_config -> nat * outcome data;
  fs : instant -> fs_op -> nat * outcome unit;
  asciidoctor_convertFile :
    instant -> jsstring -> convert_options -> outcome jsstring;
  puppeteer : instant -> browser_op -> nat * outcome unit;
  path_join : list jsstring -> jsstring;
  path_resolve : list jsstring -> jsstring;
  buffer_toString : list N -> jsstring
}.

End Outside.
Import Outside.

(* ================================================================== *)
(** * Asynchronous functions *)
(* ================================================================== *)

Module Task.

(** What running an asynchronous function from some instant gives: the
    calls it makes, in the order the program makes them, and its promise.

    When Node ends the process during the run, the run stops there: the
    calls made until then are followed by the [UnhandledRejection],
    [finish] is the instant of the end, and [result] holds the reason
    the process ended with, which no handler receives; [ended] tells
    such a run from one whose promise is rejected. *)
Record run (A : Type) := Run {
  events : list event;
  finish : instant;
  result : outcome A
}.
Arguments Run {A} events finish result.
Arguments events {A} r.
Arguments finish {A} r.
Arguments result {A} r.

Definition async (A : Type) := instant -> run A.

Definition ret {A} (a : A) : async A :=
  fun t => Run [] t (Fulfilled a).

Definition throw {A} (e : error) : async A :=
  fun t => Run [] t (Rejected e).

(** [const x = await m; k x]: the rest runs when [m] has settled, and
    not at all when [m] is rejected. *)
Definition bind {A B} (m : async A) (k : A -> async B) : async B :=
  fun t =>
    let r := m t in
    match result r with
    | Fulfilled a =>
        let r' := k a (finish r) in
        Run (events r ++ events r') (finish r') (result r')
    | Rejected e => Run (events r) (finish r) (Rejected e)
    end.

(** The end of the process at [s], for the rejection [e] that nothing
    handles. *)
Definition exit_event (s : instant) (e : error) : event :=
  Event s s (UnhandledRejection e) true.

Definition is_exit (ev : event) : bool :=
  match what ev with UnhandledRejection _ => true | _ => false end.

(** The process has ended by the time the run is over. *)
Definition ended {A} (r : run A) : bool :=
  existsb (fun ev => is_exit ev && (launched ev <=? finish r)) (events r).

(** [try { m } catch (error) { h error }]: the handler runs when [m] is
    rejected, in a process that is still there. *)
Definition try_catch {A} (m : async A) (h : error -> async A) : async A :=
  fun t =>
    let r := m t in
    match result r with
    | Fulfilled _ => r
    | Rejected e =>
        if ended r then r
        else
          let r' := h e (finish r) in
          Run (events r ++ events r') (finish r') (result r')
    end.

(** Calling an asynchronous function without awaiting it: its calls are
    under way, the caller goes on at once with the promise. *)
Definition launch {A} (m : async A) : async (promise A) :=
  fun t =>
    let r := m t in
    Run (events r) t (Fulfilled (Promise (finish r) (result r))).

(** [await p] *)
Definition await {A} (p : promise A) : async A :=
  fun t => Run [] (Nat.max t (settles p)) (state p).

(** [p.catch(h)], awaited: a rejection is handled by [h]. *)
Definition catch {A} (m : async A) (h : error -> async A) : async A :=
  try_catch m h.

(** ** A promise left without a handler

    In [g(f(x), await m)] the call [f(x)] is made, its promise is kept,
    and [m] is awaited before anything is attached to that promise.  A
    promise that is rejected while no handler is attached to it is an
    unhandled rejection, on which Node ends the process (the mode
    [--unhandled-rejections=throw], the default since Node 15).  So:

    - when the promise of [f] is rejected before [m] has settled, the
      process ends at that instant, while [m] is awaited; of two
      settlements at one instant the rejection counts as the first, the
      call of [f] having been made first;
    - when [m] is rejected, the caller leaves without the promise; if
      the promise is rejected later the process ends then, after
      whatever the caller does about the rejection of [m];
    - otherwise the caller goes on with the promise and the value of
      [m], and attaches its handler in the same turn.

    The calls made by the instant the process ends are kept as the world
    answers them; the calls that would have been made later are not
    made. *)
Definition made_by (s : instant) (evs : list event) : list event :=
  List.filter (fun ev => launched ev <=? s) evs.

(** The reason for which the process ends while [r] is awaited, if it
    does: [kept] is rejected by the time [r] settles. *)
Definition unobserved {A B} (kept : run A) (r : run B) : option error :=
  match result kept with
  | Rejected e => if finish kept <=? finish r then Some e else None
  | Fulfilled _ => None
  end.

(** The calls of a run whose promise is never looked at, followed by
    [evs]: when it is rejected, the process ends. *)
Definition never_observed {A} (kept : run A) (evs : list event) : list event :=
  match result kept with
  | Fulfilled _ => events kept ++ evs
  | Rejected e =>
      made_by (finish kept) (events kept) ++ evs
        ++ [exit_event (finish kept) e]
  end.

Definition unattended {A B} (f : async A) (m : async B)
  : async (promise A * B) :=
  fun t =>
    let kept := f t in
    let r := m t in
    match unobserved kept r with
    | Some e =>
        Run (made_by (finish kept) (events kept ++ events r)
               ++ [exit_event (finish kept) e])
            (finish kept) (Rejected e)
    | None =>
        match result r with
        | Fulfilled b =>
            Run (events kept ++ events r) (finish r)
                (Fulfilled (Promise (finish kept) (result kept), b))
        | Rejected e' =>
            Run (never_observed kept (events r)) (finish r) (Rejected e')
        end
    end.

(** [array.map(x => f(x))] where [f] is asynchronous: every call is made
    at the same instant, in array order. *)
Fixpoint launch_all {A} (ms : list (async A)) : async (list (promise A)) :=
  match ms with
  | [] => ret []
  | m :: ms' =>
      bind (launch m) (fun p =>
      bind (launch_all ms') (fun ps => ret (p :: ps)))
  end.

(** A value or a throw, computed on the spot. *)
Definition now {A} (o : outcome A) : async A :=
  fun t => Run [] t o.

(** [array.map(f)] where [f] may throw: the first throw ends the map. *)
Fixpoint map_throwing {A B} (f : A -> outcome B) (l : list A)
  : outcome (list B) :=
  match l with
  | [] => Fulfilled []
  | a :: l' =>
      match f a with
      | Rejected e => Rejected e
      | Fulfilled b =>
          match map_throwing f l' with
          | Rejected e => Rejected e
          | Fulfilled bs => Fulfilled (b :: bs)
          end
      end
  end.

(** [array.map((x, index) => f x index)] *)
Fixpoint mapi_from {A B} (f : A -> nat -> B) (index : nat) (l : list A)
  : list B :=
  match l with
  | [] => []
  | a :: l' => f a index :: mapi_from f (S index) l'
  end.

Definition mapi {A B} (f : A -> nat -> B) (l : list A) : list B :=
  mapi_from f 0 l.

End Task.
Import Task.

Declare Scope async_scope.
Delimit Scope async_scope with async.
Notation "x <- m ;; k" := (bind m (fun x => k))
  (at level 61, m at next level, right associativity) : async_scope.
Notation "m ;; k" := (bind m (fun _ => k))
  (at level 61, right associativity) : async_scope.

(* ================================================================== *)
(** * The program [main.js] *)
(* ================================================================== *)

Definition OUTPUT_FILE : jsstring := lit "mastering-bitcoin.pdf".
Definition TEMP_DIR : jsstring := lit "./temp_adoc_files".
Definition API_URL : jsstring :=
  lit "https://api.github.com/repos/bitcoinbook/bitcoinbook/contents".

(** The double quote and the two-line-feed separator, as code units. *)
Definition dq : jsstring := [34%N].
Definition blank_line : jsstring := [10%N; 10%N].

(** [{ name: file.name, downloadUrl: file.download_url }] *)
Record remote_file := RemoteFile {
  name : jsstring;
  downloadUrl : jsstring
}.

(** The page around the converted chapters: the template literal of
    [saveAsPDF] before and after [${html}]. *)
Definition page_head : jsstring :=
  lit "
        <!DOCTYPE html>
        <html>
        <head>
            <script>
                window.MathJax = {
                    tex: {
                        inlineMath: [['\\(', '\\)']],
                        displayMath: [['\\[', '\\]']],
                        processEscapes: true
                    },
                    svg: {
                        fontCache: 'global'
                    }
                };
            </script>
            <script id=" ++ dq ++
  lit "MathJax-script" ++ dq ++
  lit " async src=" ++ dq ++
  lit "https://cdn.jsdelivr.net/npm/mathjax@3/es5/tex-mml-svg.js" ++ dq ++
  lit "></script>
            <style>
                img { max-width: 100%; height: auto; }
                .imageblock { text-align: center; margin: 1em 0; }
                .imageblock img { margin: 0 auto; display: block; }
                .imageblock .title { margin-top: 0.5em; font-style: italic; }
            </style>
        </head>
        <body>
            ".

Definition page_tail : jsstring :=
  lit "
        </body>
        </html>
    ".

Definition mathjax_ready : jsstring :=
  lit "typeof MathJax !== " ++ dq ++
  lit "undefined" ++ dq ++
  lit " && MathJax.typesetPromise !== undefined".

Definition footer_template : jsstring :=
  lit "<div style=" ++ dq ++
  lit "font-size: 10px; text-align: center; width: 100%;" ++ dq ++
  lit "><span class=" ++ dq ++
  lit "pageNumber" ++ dq ++
  lit "></span></div>".

Section Program.

Variable w : World.

Local Open Scope async_scope.

(** ** Calls to the libraries *)

Definition external {A} (c : call) (answer : instant -> nat * outcome A)
  : async A :=
  fun t =>
    let (d, o) := answer t in
    Run [Event t (t + d) c (is_fulfilled o)] (t + d) o.

(** A call that returns (or throws) at once. *)
Definition immediate {A} (c : call) (answer : instant -> outcome A)
  : async A :=
  fun t =>
    let o := answer t in
    Run [Event t t c (is_fulfilled o)] t o.

(** [axios.get(url)] *)
Definition axios_get (url : jsstring) : async (list entry) :=
  external (AxiosGet url None) (fun t => axios_get_listing w t url).

(** [axios.get(url, config)] *)
Definition axios_get_with (url : jsstring) (config : request_config)
  : async data :=
  external (AxiosGet url (Some config))
           (fun t => axios_get_file w t url config).

Definition fs_call (op : fs_op) : async unit :=
  external (Fs op) (fun t => fs w t op).

Definition puppeteer_call (op : browser_op) : async unit :=
  external (Puppeteer op) (fun t => puppeteer w t op).

(** [page.on(name, handler)] registers a handler and returns at once. *)
Definition page_on (event_name : jsstring) : async unit :=
  immediate (Puppeteer (On event_name)) (fun _ => Fulfilled tt).

(** [asciidoctor.convertFile] is synchronous. *)
Definition convertFile (file : jsstring) (options : convert_options)
  : async jsstring :=
  immediate (AsciidoctorConvertFile file options)
            (fun t => asciidoctor_convertFile w t file options).

Definition console_log (args : list jsstring) : async unit :=
  immediate (ConsoleLog args) (fun _ => Fulfilled tt).

Definition console_error (label : jsstring) (e : error) : async unit :=
  immediate (ConsoleError label e) (fun _ => Fulfilled tt).

(** [data.toString('utf8')]: a string is returned as it is, a Buffer is
    decoded. *)
Definition toString_utf8 (d : data) : jsstring :=
  match d with
  | Text s => s
  | Bytes b => buffer_toString w b
  end.

(** ** main.js 12-20 *)
Definition fetchRepoContents (folder : option jsstring)
  : async (list entry) :=
  let folder := match folder with Some f => f | None => lit "" end in
  try_catch
    (response_data <- axios_get (API_URL ++ lit "/" ++ folder) ;;
     ret response_data)
    (fun error =>
       console_error (lit "Error fetching repository contents:") error ;;
       throw error).

(** ** main.js 22-30 *)
Definition downloadFile (fileUrl : jsstring) (responseType : option jsstring)
  : async data :=
  let responseType :=
    match responseType with Some r => r | None => lit "utf8" end in
  try_catch
    (response_data <-
       axios_get_with fileUrl (RequestConfig responseType 4 10000) ;;
     ret (if JsString.eqb responseType (lit "arraybuffer")
          then response_data
          else Text (toString_utf8 response_data)))
    (fun error =>
       console_error (lit "Error downloading file:") error ;;
       throw error).

Definition to_remote_file (file : entry) : remote_file :=
  RemoteFile (entry_name file) (download_url file).

Definition is_chapter (file : entry) : bool :=
  startsWith (entry_name file) (lit "ch")
  && endsWith (entry_name file) (lit ".adoc").

(** ** main.js 32-40 *)
Definition getChapterFiles : async (list remote_file) :=
  repoContents <- fetchRepoContents None ;;
  ret (List.map to_remote_file (List.filter is_chapter repoContents)).

(** ** main.js 42-48 *)
Definition getCodeFiles : async (list remote_file) :=
  codeContents <- fetchRepoContents (Some (lit "code")) ;;
  ret (List.map to_remote_file codeContents).

(** ** main.js 50-62 *)
Definition createCodeFiles (files : list remote_file) : async unit :=
  downloadPromises <-
    launch_all (List.map (fun file => downloadFile (downloadUrl file) None)
                         files) ;;
  contents <- await (promise_all downloadPromises) ;;
  fs_call (EnsureDir (path_join w [TEMP_DIR; lit "code"])) ;;
  savePromises <-
    launch_all
      (mapi (fun file index =>
               let filePath := path_join w [TEMP_DIR; lit "code"; name file] in
               fs_call (OutputFile filePath (nth_error contents index)
                                   (lit "utf8")))
            files) ;;
  _ <- await (promise_all savePromises) ;;
  ret tt.

(** ** main.js 64-70 *)
Definition getImageFiles : async (list remote_file) :=
  imageContents <- fetchRepoContents (Some (lit "images")) ;;
  ret (List.map to_remote_file imageContents).

(** ** main.js 73-87 *)
Definition createImageFiles (files : list remote_file) : async unit :=
  downloadPromises <-
    launch_all
      (List.map (fun file =>
                   downloadFile (downloadUrl file) (Some (lit "arraybuffer")))
                files) ;;
  contents <- await (promise_all downloadPromises) ;;
  let imagesDir := path_join w [TEMP_DIR; lit "images"] in
  fs_call (EnsureDir imagesDir) ;;
  savePromises <-
    launch_all
      (mapi (fun file index =>
               let filePath := path_join w [imagesDir; name file] in
               fs_call (WriteFile filePath (nth_error contents index)))
            files) ;;
  _ <- await (promise_all savePromises) ;;
  console_log [lit "Images saved to " ++ imagesDir].

(** [content.replace(...)]: a string has the method, a Buffer has not. *)
Definition replace_in (content : data) : outcome jsstring :=
  match content with
  | Text s => Fulfilled (rewrite_images s)
  | Bytes _ => Rejected (TypeError (lit "content.replace is not a function"))
  end.

(** ** main.js 90-104 *)
Definition mergeFiles (files : list remote_file) : async jsstring :=
  downloadPromises <-
    launch_all (List.map (fun file => downloadFile (downloadUrl file) None)
                         files) ;;
  contents <- await (promise_all downloadPromises) ;;
  contents <- now (map_throwing replace_in contents) ;;
  ret (join blank_line contents).

Definition asciidoctor_options (imagesDir : jsstring) : convert_options :=
  ConvertOptions (lit "safe") false TEMP_DIR
    [ (lit "imagesdir", AttrString imagesDir);
      (lit "data-uri", AttrBool true);
      (lit "stem", AttrString (lit "latexmath"));
      (lit "mathematical-format", AttrString (lit "svg"));
      (lit "mathematical-inline", AttrString (lit "svg"));
      (lit "source-highlighter", AttrString (lit "highlight.js"));
      (lit "icons", AttrString (lit "font"));
      (lit "sectlinks", AttrBool true);
      (lit "experimental", AttrBool true);
      (lit "listing-caption", AttrString (lit "Listing")) ].

Definition page_pdf_options : pdf_options :=
  PdfOptions OUTPUT_FILE (lit "A4") true
             (lit "20mm") (lit "20mm") (lit "20mm") (lit "20mm")
             true (lit "<div></div>") footer_template.

(** ** main.js 106-239 *)
Definition saveAsPDF (mergedContent : jsstring) : async unit :=
  let tempAdocPath := path_join w [TEMP_DIR; lit "merged.adoc"] in
  fs_call (OutputFile tempAdocPath (Some (Text mergedContent)) (lit "utf8")) ;;
  let imagesDir := path_resolve w [TEMP_DIR; lit "images"] in
  console_log [lit "Images directory:"; imagesDir] ;;
  let options := asciidoctor_options imagesDir in
  console_log [lit "Converting AsciiDoc to HTML..."] ;;
  html <- convertFile tempAdocPath options ;;
  let htmlWithMathJax := page_head ++ html ++ page_tail in
  console_log [lit "Launching Puppeteer..."] ;;
  puppeteer_call
    (Launch [lit "--no-sandbox"; lit "--disable-setuid-sandbox"]) ;;
  puppeteer_call NewPage ;;
  page_on (lit "console") ;;
  page_on (lit "error") ;;
  page_on (lit "pageerror") ;;
  puppeteer_call (SetViewport 1200 800) ;;
  puppeteer_call (SetJavaScriptEnabled true) ;;
  console_log [lit "Setting page content..."] ;;
  puppeteer_call (SetContent htmlWithMathJax) ;;
  console_log [lit "Waiting for MathJax..."] ;;
  catch (puppeteer_call (WaitForFunction mathjax_ready))
        (fun err => console_error (lit "MathJax loading error:") err) ;;
  catch (puppeteer_call (Evaluate TypesetPromise))
        (fun err => console_error (lit "MathJax typesetting error:") err) ;;
  console_log [lit "Waiting for images to load..."] ;;
  puppeteer_call (Evaluate AllImagesSettled) ;;
  console_log [lit "Generating PDF..."] ;;
  puppeteer_call (Pdf page_pdf_options) ;;
  closing <- launch (puppeteer_call Close) ;;
  removing <- launch (fs_call (Remove TEMP_DIR)) ;;
  _ <- await (promise_all [closing; removing]) ;;
  console_log [lit "PDF saved as " ++ OUTPUT_FILE].

(** ** main.js 241-265: the [try] block

    The elements of the array given to [Promise.all] are evaluated from
    left to right: the listing of the code folder is awaited, then
    [createCodeFiles] is called (it runs on its own from there), then the
    listing of the images is awaited, then [createImageFiles] and
    [getChapterFiles] are called, and only then are the three joined.
    While the listing of the images is awaited the promise of
    [createCodeFiles] has no handler: if it is rejected by then, Node
    ends the process, and neither the rest of the block nor the handler
    of [main] runs.  A rejection of the image listing leaves the block
    before the join, for the handler of [main], which logs: the staging
    of the code files goes on, its promise is never handled, and if it
    is rejected the process ends then. *)
Definition main_try : async unit :=
  console_log [lit "Creating temporary directory..."] ;;
  fs_call (EnsureDir TEMP_DIR) ;;
  console_log [lit "Processing code files..."] ;;
  console_log [lit "Processing image files..."] ;;
  console_log [lit "Processing chapter files..."] ;;
  codeFiles <- getCodeFiles ;;
  under_way <- unattended (createCodeFiles codeFiles) getImageFiles ;;
  let staging_code := fst under_way in
  let imageFiles := snd under_way in
  staging_images <- launch (createImageFiles imageFiles) ;;
  listing_chapters <- launch getChapterFiles ;;
  joined <- await (promise_all3 staging_code staging_images listing_chapters) ;;
  let chapterFiles := snd (snd joined) in
  mergedContent <- mergeFiles chapterFiles ;;
  console_log [lit "Generating PDF..."] ;;
  saveAsPDF mergedContent ;;
  console_log [lit "Process completed successfully!"].

(** ** main.js 241-265 *)
Definition main : async unit :=
  try_catch main_try (fun error => console_error (lit "Error:") error).

End Program.

(* ================================================================== *)
(** * A small world to run the program in *)
(* ================================================================== *)

Module Demo.

Definition raw (file : string) : jsstring :=
  lit "https://raw.githubusercontent.com/bitcoinbook/bitcoinbook/develop/"
  ++ lit file.

Definition root_listing : list entry :=
  [ Entry (lit "README.md") (raw "README.md");
    Entry (lit "ch01.adoc") (raw "ch01.adoc");
    Entry (lit "ch02.adoc") (raw "ch02.adoc");
    Entry (lit "appdx-bips.adoc") (raw "appdx-bips.adoc") ].

Definition code_listing : list entry :=
  [ Entry (lit "hello.py") (raw "code/hello.py") ].

Definition images_listing : list entry :=
  [ Entry (lit "foo.png") (raw "images/foo.png") ].

Definition listing_of (chapters : list entry) (url : jsstring) : list entry :=
  if JsString.eqb url (API_URL ++ lit "/") then chapters
  else if JsString.eqb url (API_URL ++ lit "/code") then code_listing
  else if JsString.eqb url (API_URL ++ lit "/images") then images_listing
  else [].

Definition chapter_one : jsstring :=
  lit "= One" ++ blank_line ++
  lit "image::images/foo.png[Alt text]" ++ [10%N].

Definition chapter_two : jsstring :=
  lit "= Two" ++ blank_line ++ lit "No pictures here." ++ [10%N].

Definition file_of (url : jsstring) (config : request_config) : data :=
  if JsString.eqb (responseType config) (lit "arraybuffer")
  then Bytes [137%N; 80%N; 78%N; 71%N]
  else if JsString.eqb url (raw "ch01.adoc") then Text chapter_one
  else if JsString.eqb url (raw "ch02.adoc") then Text chapter_two
  else Text (lit "print('hello')").

(** Every call succeeds: listings take 3 ticks, filesystem and browser
    calls 1; [chapters] is the listing of the repository root and
    [download] answers the file requests. *)
Definition make (chapters : list entry)
           (download : jsstring -> request_config -> nat * outcome data)
  : World :=
  {| axios_get_listing := fun _ url => (3, Fulfilled (listing_of chapters url));
     axios_get_file := fun _ url config => download url config;
     fs := fun _ _ => (1, Fulfilled tt);
     asciidoctor_convertFile := fun _ _ _ => Fulfilled (lit "<p>book</p>");
     puppeteer := fun _ _ => (1, Fulfilled tt);
     path_join := join (lit "/");
     path_resolve := fun segments => lit "/work/" ++ join (lit "/") segments;
     buffer_toString := fun b => b |}.

(** Downloads take 2 ticks; the one of [broken], if any, is refused
    after 1. *)
Definition world_with (chapters : list entry) (broken : option jsstring)
  : World :=
  make chapters
       (fun url config =>
          match broken with
          | Some bad =>
              if JsString.eqb url bad then (1, Rejected (LibraryError 404))
              else (2, Fulfilled (file_of url config))
          | None => (2, Fulfilled (file_of url config))
          end).

Definition world : World := world_with root_listing None.

(** A repository with one chapter, whose text is [text]. *)
Definition one_chapter : list remote_file :=
  [RemoteFile (lit "ch01.adoc") (raw "ch01.adoc")].

Definition serving (text : jsstring) : World :=
  make [Entry (lit "ch01.adoc") (raw "ch01.adoc")]
       (fun _ _ => (2, Fulfilled (Text text))).

(** The chapter, code and image files of that repository. *)
Definition chapters : list remote_file :=
  [ RemoteFile (lit "ch01.adoc") (raw "ch01.adoc");
    RemoteFile (lit "ch02.adoc") (raw "ch02.adoc") ].

Definition code_files : list remote_file :=
  [ RemoteFile (lit "hello.py") (raw "code/hello.py") ].

Definition image_files : list remote_file :=
  [ RemoteFile (lit "foo.png") (raw "images/foo.png") ].

(** The world in which the download of [hello.py] is refused. *)
Definition world_without_hello : World :=
  world_with root_listing (Some (raw "code/hello.py")).

(** The world in which the download of [foo.png] is refused. *)
Definition world_without_foo : World :=
  world_with root_listing (Some (raw "images/foo.png")).

(** A repository without chapters. *)
Definition world_without_chapters : World := world_with [] None.

(** No network: every request fails after 5 ticks. *)
Definition offline : World :=
  {| axios_get_listing := fun _ _ => (5, Rejected (LibraryError 503));
     axios_get_file := fun _ _ _ => (5, Rejected (LibraryError 503));
     fs := fun _ _ => (1, Fulfilled tt);
     asciidoctor_convertFile := fun _ _ _ => Fulfilled (lit "<p>book</p>");
     puppeteer := fun _ _ => (1, Fulfilled tt);
     path_join := join (lit "/");
     path_resolve := fun segments => lit "/work/" ++ join (lit "/") segments;
     buffer_toString := fun b => b |}.

End Demo.

(* ================================================================== *)
(** * Notions used in the statements *)
(* ================================================================== *)

(** The URL a listing of [folder] is requested from. *)
Definition listing_url (folder : option jsstring) : jsstring :=
  API_URL ++ lit "/" ++ match folder with Some f => f | None => lit "" end.

(** The response type in force for a hint: ['utf8'] when none is given. *)
Definition hint_or_default (responseType : option jsstring) : jsstring :=
  match responseType with Some r => r | None => lit "utf8" end.

(** The options object a download is requested with. *)
Definition download_config (responseType : option jsstring) : request_config :=
  RequestConfig (hint_or_default responseType) 4 10000.

(** The one event of a listing that arrives. *)
Definition listing_request (w : World) (t : instant) (folder : option jsstring)
  : event :=
  Event t (t + fst (axios_get_listing w t (listing_url folder)))
        (AxiosGet (listing_url folder) None) true.

(** The request of a file, of anything. *)
Definition is_download (ev : event) : bool :=
  match what ev with AxiosGet _ (Some _) => true | _ => false end.

Definition is_request (ev : event) : bool :=
  match what ev with AxiosGet _ _ => true | _ => false end.

(** The world answers the download of [file], asked for at [t] with the
    hint [hint], with [body] / with a failure. *)
Definition serves (w : World) (t : instant) (hint : option jsstring)
           (file : remote_file) (body : data) : Prop :=
  snd (axios_get_file w t (downloadUrl file) (download_config hint))
  = Fulfilled body.

Definition refuses (w : World) (t : instant) (hint : option jsstring)
           (file : remote_file) : Prop :=
  is_fulfilled
    (snd (axios_get_file w t (downloadUrl file) (download_config hint)))
  = false.

(** The chapter names of the specification: the prefix [ch], the
    extension [.adoc]. *)
Definition chapter_name (n : jsstring) : Prop :=
  (exists stem, n = lit "ch" ++ stem) /\ (exists front, n = front ++ lit ".adoc").

(** Documents put one after the other with [sep] between each two. *)
Fixpoint concat_with (sep : jsstring) (docs : list jsstring) : jsstring :=
  match docs with
  | [] => []
  | [d] => d
  | d :: rest => d ++ sep ++ concat_with sep rest
  end.

(** What follows, inside the text [image::<path>[<alt>]], the match of
    the pattern that starts with it: the match ends at the first closing
    bracket after the first opening one, so nothing follows it when
    [path] has no opening bracket and [alt] no closing one. *)
Definition beyond_match (path alt : jsstring) : jsstring :=
  match parse_directive (directive path alt) with
  | Some (_, _, rest) => rest
  | None => []
  end.

(** A text at whose end the search for the next match starts afresh: no
    [image::] of its last line is still waiting for its brackets.  Such
    is a text without [image::]; any text followed by a line terminator
    and text without [image::]; and a text of that kind followed by a
    match of the pattern and text without [image::]. *)
Inductive Scanned : jsstring -> Prop :=
| Scanned_plain (plain : jsstring) :
    ~ occurs (lit "image::") plain -> Scanned plain
| Scanned_line (before : jsstring) (l : code_unit) (plain : jsstring) :
    is_line_terminator l = true -> ~ occurs (lit "image::") plain ->
    Scanned (before ++ l :: plain)
| Scanned_match (pre path alt plain : jsstring) :
    Scanned pre ->
    ~ In open_bracket path -> no_line_terminator path ->
    ~ In close_bracket alt -> no_line_terminator alt ->
    ~ occurs (lit "image::") plain ->
    Scanned (pre ++ directive path alt ++ plain).

(** [occurs], decided. *)
Fixpoint occursb (sub s : jsstring) : bool :=
  startsWith s sub ||
  match s with
  | [] => false
  | _ :: s' => occursb sub s'
  end.

(** The promise of a run. *)
Definition promise_of {A} (r : run A) : promise A :=
  Promise (finish r) (result r).

(** Every call made by [m], whenever it is started, satisfies [Q]. *)
Definition calls {A} (Q : call -> Prop) (m : async A) : Prop :=
  forall t, Forall (fun ev => Q (what ev)) (events (m t)).

(** An instant no event of the list starts before, and an instant by
    which all have settled. *)
Definition within (t t' : instant) (evs : list event) : Prop :=
  Forall (fun ev => t <= launched ev /\ settled ev <= t') evs.

(** [m] never goes back in time, and has nothing under way when it is
    over: every call it made has settled by then. *)
Definition sequential {A} (m : async A) : Prop :=
  forall t, t <= finish (m t) /\ within t (finish (m t)) (events (m t)).

(** The same, but only for the runs of [m] that are fulfilled: a
    rejected [Promise.all] leaves the other calls under way. *)
Definition joined {A} (m : async A) : Prop :=
  forall t, t <= finish (m t)
            /\ (is_fulfilled (result (m t)) = true ->
                within t (finish (m t)) (events (m t))).

(** The downloads of a batch, all started at [t]. *)
Definition download_runs (w : World) (hint : option jsstring)
           (files : list remote_file) (t : instant) : list (run data) :=
  List.map (fun file => downloadFile w (downloadUrl file) hint t) files.

Definition total_length (docs : list jsstring) : nat :=
  fold_right (fun d n => length d + n) 0 docs.

(** A run that comes after the calls [evs]. *)
Definition after {A} (evs : list event) (r : run A) : run A :=
  Run (evs ++ events r) (finish r) (result r).

(** ** The shape of a staging run

    Both staging functions download their files, make sure of their
    directory, write the files and are done; [done_events] is what the
    function does when all is written. *)
Definition stage_shape (w : World) (hint : option jsstring) (dir : jsstring)
           (write : list data -> remote_file -> nat -> fs_op)
           (done_events : instant -> list event)
           (files : list remote_file) (t : instant) : run unit :=
  let downloads := download_runs w hint files t in
  let all := promise_all (List.map promise_of downloads) in
  let t1 := Nat.max t (settles all) in
  match state all with
  | Rejected e => Run (flat_map events downloads) t1 (Rejected e)
  | Fulfilled contents =>
      match fs w t1 (EnsureDir dir) with
      | (d, Rejected e) =>
          Run (flat_map events downloads
                 ++ [Event t1 (t1 + d) (Fs (EnsureDir dir)) false])
              (t1 + d) (Rejected e)
      | (d, Fulfilled _) =>
          let t2 := t1 + d in
          let writes :=
            List.map (fun op => external (Fs op) (fun t => fs w t op) t2)
                     (mapi (write contents) files) in
          let saved := promise_all (List.map promise_of writes) in
          let t3 := Nat.max t2 (settles saved) in
          let staged :=
            flat_map events downloads
              ++ [Event t1 t2 (Fs (EnsureDir dir)) true]
              ++ flat_map events writes in
          match state saved with
          | Rejected e => Run staged t3 (Rejected e)
          | Fulfilled _ => Run (staged ++ done_events t3) t3 (Fulfilled tt)
          end
      end
  end.

Definition write_code (w : World) (contents : list data) (file : remote_file)
           (index : nat) : fs_op :=
  OutputFile (path_join w [TEMP_DIR; lit "code"; name file])
             (nth_error contents index) (lit "utf8").

Definition write_image (w : World) (contents : list data) (file : remote_file)
           (index : nat) : fs_op :=
  WriteFile (path_join w [path_join w [TEMP_DIR; lit "images"]; name file])
            (nth_error contents index).

Definition images_saved (w : World) (t : instant) : list event :=
  [Event t t
         (ConsoleLog [lit "Images saved to "
                        ++ path_join w [TEMP_DIR; lit "images"]])
         true].

(** ** The shape of a run of [main]

    What [main] does before anything is listed, and what it does once
    the three top-level operations are joined. *)
Definition prelude_events (t : instant) (d : nat) (ok : bool) : list event :=
  [ Event t t (ConsoleLog [lit "Creating temporary directory..."]) true;
    Event t (t + d) (Fs (EnsureDir TEMP_DIR)) ok ].

Definition processing_events (t : instant) : list event :=
  [ Event t t (ConsoleLog [lit "Processing code files..."]) true;
    Event t t (ConsoleLog [lit "Processing image files..."]) true;
    Event t t (ConsoleLog [lit "Processing chapter files..."]) true ].

Definition started_events (t : instant) (d : nat) : list event :=
  prelude_events t d true ++ processing_events (t + d).

Definition export (w : World) (chapterFiles : list remote_file) : async unit :=
  (mergedContent <- mergeFiles w chapterFiles ;;
   console_log [lit "Generating PDF..."] ;;
   saveAsPDF w mergedContent ;;
   console_log [lit "Process completed successfully!"])%async.

(** The run of the [try] block of [main], stage by stage: [t0] is when
    the temporary directory is there, [rc] the listing of the code
    folder, [sc] the staging of the code files, [ri] the listing of the
    image folder, [si] the staging of the images, [lc] the listing of
    the chapters, [all] their [Promise.all].  The process ends while
    [ri] is awaited when [sc] is rejected by then. *)
Definition main_shape (w : World) (t : instant) : run unit :=
  match fs w t (EnsureDir TEMP_DIR) with
  | (d, Rejected e) => Run (prelude_events t d false) (t + d) (Rejected e)
  | (d, Fulfilled _) =>
      let t0 := t + d in
      let started := started_events t d in
      let rc := getCodeFiles w t0 in
      match result rc with
      | Rejected e => Run (started ++ events rc) (finish rc) (Rejected e)
      | Fulfilled codeFiles =>
          let sc := createCodeFiles w codeFiles (finish rc) in
          let ri := getImageFiles w (finish rc) in
          match unobserved sc ri, result ri with
          | Some e, _ =>
              Run (started ++ events rc
                     ++ made_by (finish sc) (events sc ++ events ri)
                     ++ [exit_event (finish sc) e])
                  (finish sc) (Rejected e)
          | None, Rejected e =>
              Run (started ++ events rc ++ never_observed sc (events ri))
                  (finish ri) (Rejected e)
          | None, Fulfilled imageFiles =>
              let si := createImageFiles w imageFiles (finish ri) in
              let lc := getChapterFiles w (finish ri) in
              let all :=
                promise_all3 (promise_of sc) (promise_of si) (promise_of lc) in
              let staged :=
                started ++ events rc ++ events sc ++ events ri
                        ++ events si ++ events lc in
              match state all with
              | Rejected e =>
                  Run staged (Nat.max (finish ri) (settles all)) (Rejected e)
              | Fulfilled joined_values =>
                  let rx := export w (snd (snd joined_values))
                                   (Nat.max (finish ri) (settles all)) in
                  Run (staged ++ events rx) (finish rx) (result rx)
              end
          end
      end
  end.

(** Calls made before the export starts: [main] logs
    ['Generating PDF...'] right before it calls [saveAsPDF], which alone
    calls asciidoctor and puppeteer. *)
Definition before_export (c : call) : Prop :=
  match c with
  | Puppeteer _ => False
  | AsciidoctorConvertFile _ _ => False
  | ConsoleLog args => args <> [lit "Generating PDF..."]
  | _ => True
  end.

Definition not_download (c : call) : Prop :=
  match c with
  | AxiosGet _ (Some _) => False
  | _ => True
  end.

Definition not_remove (c : call) : Prop :=
  match c with
  | Fs (Remove _) => False
  | _ => True
  end.

(** A call of the program, as opposed to the end of the process. *)
Definition not_exit (c : call) : Prop :=
  match c with
  | UnhandledRejection _ => False
  | _ => True
  end.

(** The events of a run in which the handler of [main] has logged. *)
Definition logged_by_main (ev : event) : bool :=
  match what ev with
  | ConsoleError label _ => JsString.eqb label (lit "Error:")
  | _ => false
  end.

(** A download that was made went well. *)
Definition download_went_well (ev : event) : Prop :=
  is_download ev = true -> succeeded ev = true.

(** Every run of [m] is fulfilled. *)
Definition succeeds {A} (m : async A) : Prop :=
  forall t, is_fulfilled (result (m t)) = true.

(** Every run of [m] makes the call [c], and the call succeeds. *)
Definition performs {A} (c : call) (m : async A) : Prop :=
  forall t, exists t1 t2, In (Event t1 t2 c true) (events (m t)).

(** A world in which every call to a library succeeds. *)
Definition obliging (w : World) : Prop :=
  (forall t url, is_fulfilled (snd (axios_get_listing w t url)) = true)
  /\ (forall t url config,
         is_fulfilled (snd (axios_get_file w t url config)) = true)
  /\ (forall t op, is_fulfilled (snd (fs w t op)) = true)
  /\ (forall t file options,
         is_fulfilled (asciidoctor_convertFile w t file options) = true)
  /\ (forall t op, is_fulfilled (snd (puppeteer w t op)) = true).

(** ** The two halves of [saveAsPDF]: up to [page.pdf], and after it *)
Definition render (w : World) (mergedContent : jsstring) : async unit :=
  (let tempAdocPath := path_join w [TEMP_DIR; lit "merged.adoc"] in
   fs_call w (OutputFile tempAdocPath (Some (Text mergedContent)) (lit "utf8")) ;;
   let imagesDir := path_resolve w [TEMP_DIR; lit "images"] in
   console_log [lit "Images directory:"; imagesDir] ;;
   let options := asciidoctor_options imagesDir in
   console_log [lit "Converting AsciiDoc to HTML..."] ;;
   html <- convertFile w tempAdocPath options ;;
   let htmlWithMathJax := page_head ++ html ++ page_tail in
   console_log [lit "Launching Puppeteer..."] ;;
   puppeteer_call w
     (Launch [lit "--no-sandbox"; lit "--disable-setuid-sandbox"]) ;;
   puppeteer_call w NewPage ;;
   page_on (lit "console") ;;
   page_on (lit "error") ;;
   page_on (lit "pageerror") ;;
   puppeteer_call w (SetViewport 1200 800) ;;
   puppeteer_call w (SetJavaScriptEnabled true) ;;
   console_log [lit "Setting page content..."] ;;
   puppeteer_call w (SetContent htmlWithMathJax) ;;
   console_log [lit "Waiting for MathJax..."] ;;
   catch (puppeteer_call w (WaitForFunction mathjax_ready))
         (fun err => console_error (lit "MathJax loading error:") err) ;;
   catch (puppeteer_call w (Evaluate TypesetPromise))
         (fun err => console_error (lit "MathJax typesetting error:") err) ;;
   console_log [lit "Waiting for images to load..."] ;;
   puppeteer_call w (Evaluate AllImagesSettled) ;;
   console_log [lit "Generating PDF..."] ;;
   puppeteer_call w (Pdf page_pdf_options))%async.

Definition cleanup (w : World) : async unit :=
  (closing <- launch (puppeteer_call w Close) ;;
   removing <- launch (fs_call w (Remove TEMP_DIR)) ;;
   _ <- await (promise_all [closing; removing]) ;;
   console_log [lit "PDF saved as " ++ OUTPUT_FILE])%async.

(** ** The temporary directory, read off the events

    Every path the program writes is [path.join(TEMP_DIR, ...)]; fs-extra's
    [ensureDir] and [outputFile] make the missing parents and [writeFile]
    succeeds only in a directory that is there: after any of them has
    succeeded the temporary directory is there.  [remove(TEMP_DIR)] takes
    it away.  It may be there in the end unless every such write had
    settled when a removal that succeeded was started. *)
Definition creating (ev : event) : bool :=
  succeeded ev
  && match what ev with
     | Fs (EnsureDir _) | Fs (OutputFile _ _ _) | Fs (WriteFile _ _) => true
     | _ => false
     end.

Definition removing_temp_dir (ev : event) : bool :=
  succeeded ev
  && match what ev with
     | Fs (Remove path) => JsString.eqb path TEMP_DIR
     | _ => false
     end.

Definition temp_dir_may_exist (evs : list event) : bool :=
  existsb (fun c =>
             creating c
             && negb (existsb (fun r => removing_temp_dir r
                                        && (settled c <=? launched r))
                              evs))
          evs.

(** A fulfilled run of [m] ends with the call [c], which succeeded. *)
Definition ends_with {A} (c : call) (m : async A) : Prop :=
  forall t, is_fulfilled (result (m t)) = true ->
            exists t0, In (Event t0 (finish (m t)) c true) (events (m t)).

(** What [cleanup], started at [T], leaves in the events when it is
    fulfilled at [T']. *)
Definition cleanup_events (T : instant) (dc dr : nat) (T' : instant)
  : list event :=
  [ Event T (T + dc) (Puppeteer Close) true;
    Event T (T + dr) (Fs (Remove TEMP_DIR)) true;
    Event T' T' (ConsoleLog [lit "PDF saved as " ++ OUTPUT_FILE]) true ].

(** The last calls of a run of the [try] block of [main] that is
    fulfilled. *)
Definition closing_events (T : instant) (dc dr : nat) : list event :=
  let T' := Nat.max (T + dc) (T + dr) in
  cleanup_events T dc dr T'
    ++ [Event T' T' (ConsoleLog [lit "Process completed successfully!"]) true].



(** The [Promise.all] of the downloads of a batch, and the instant the
    writes of a staging start: when the directory is made sure of. *)
Definition downloads_joined (w : World) (hint : option jsstring)
           (files : list remote_file) (t : instant) : promise (list data) :=
  promise_all (List.map promise_of (download_runs w hint files t)).



(* ================================================================== *)
(** * Notions used in the further properties *)
(* ================================================================== *)

(** The filesystem operations of a run, in program order. *)
Definition fs_ops (evs : list event) : list fs_op :=
  flat_map (fun ev => match what ev with Fs op => [op] | _ => [] end) evs.

(** The requests of a run, in program order. *)
Definition requests (evs : list event) : list call :=
  List.map what (List.filter is_request evs).

(** The request [downloadFile] makes for [file]. *)
Definition download_request (hint : option jsstring) (file : remote_file)
  : call :=
  AxiosGet (downloadUrl file) (Some (download_config hint)).

(** What [downloadFile] returns for a response body. *)
Definition downloaded (w : World) (hint : option jsstring) (body : data)
  : data :=
  if JsString.eqb (hint_or_default hint) (lit "arraybuffer")
  then body else Text (toString_utf8 w body).

(** A write that has something to write: its content is not [undefined]. *)
Definition has_content (op : fs_op) : bool :=
  match op with
  | OutputFile _ None _ | WriteFile _ None => false
  | _ => true
  end.

Definition code_dir (w : World) : jsstring :=
  path_join w [TEMP_DIR; lit "code"].

Definition images_dir (w : World) : jsstring :=
  path_join w [TEMP_DIR; lit "images"].

(** The writes of the two stagings, for a file and what was downloaded
    for it. *)
Definition code_write (w : World) (file : remote_file) (content : data)
  : fs_op :=
  OutputFile (path_join w [TEMP_DIR; lit "code"; name file])
             (Some content) (lit "utf8").

Definition image_write (w : World) (file : remote_file) (content : data)
  : fs_op :=
  WriteFile (path_join w [images_dir w; name file]) (Some content).

(** What a run logs with [console.log], in program order. *)
Definition console_logs (evs : list event) : list (list jsstring) :=
  flat_map (fun ev => match what ev with ConsoleLog args => [args] | _ => [] end)
           evs.

(** The write of the merged document. *)
Definition merged_write (w : World) (mergedContent : jsstring) : fs_op :=
  OutputFile (path_join w [TEMP_DIR; lit "merged.adoc"])
             (Some (Text mergedContent)) (lit "utf8").

(** The log of the handler of [main]. *)
Definition caught (t : instant) (e : error) : event :=
  Event t t (ConsoleError (lit "Error:") e) true.

(** A call that is not the log of the handler of [main]. *)
Definition not_caught (c : call) : Prop :=
  match c with
  | ConsoleError label _ => label <> lit "Error:"
  | _ => True
  end.

(** The request of a listing. *)
Definition listing_call (folder : option jsstring) : call :=
  AxiosGet (listing_url folder) None.

(** A call that is no request. *)
Definition not_request (c : call) : Prop :=
  match c with AxiosGet _ _ => False | _ => True end.

(** The two steps of [saveAsPDF] that have a [.catch]. *)
Definition mathjax_label (op : browser_op) : option jsstring :=
  match op with
  | WaitForFunction _ => Some (lit "MathJax loading error:")
  | Evaluate TypesetPromise => Some (lit "MathJax typesetting error:")
  | _ => None
  end.

(** Every call of a library succeeds, but for the MathJax steps, which
    may fail. *)
Definition obliging_but_for_mathjax (w : World) : Prop :=
  (forall t op, is_fulfilled (snd (fs w t op)) = true)
  /\ (forall t file options,
         is_fulfilled (asciidoctor_convertFile w t file options) = true)
  /\ (forall t op, mathjax_label op = None ->
                   is_fulfilled (snd (puppeteer w t op)) = true).

(** Every call of [evs] that failed is a MathJax step, and the error it
    failed with was logged, under the label of the step, the instant it
    failed. *)
Definition failures_logged (w : World) (evs : list event) : Prop :=
  forall ev,
    In ev evs -> succeeded ev = false ->
    exists op label e,
      what ev = Puppeteer op /\ mathjax_label op = Some label
      /\ snd (puppeteer w (launched ev) op) = Rejected e
      /\ In (Event (settled ev) (settled ev) (ConsoleError label e) true) evs.

Definition tolerant {A} (w : World) (m : async A) : Prop :=
  forall t, failures_logged w (events (m t)).

(** [page.pdf] that succeeded. *)
Definition printed (ev : event) : bool :=
  succeeded ev
  && match what ev with Puppeteer (Pdf _) => true | _ => false end.

Definition not_print (c : call) : Prop :=
  match c with Puppeteer (Pdf _) => False | _ => True end.

Definition not_close (c : call) : Prop :=
  match c with Puppeteer Close => False | _ => True end.

(** [page.pdf] succeeds only as the last call of [m], which is then
    fulfilled. *)
Definition prints_last {A} (m : async A) : Prop :=
  forall t ev,
    In ev (events (m t)) -> printed ev = true ->
    is_fulfilled (result (m t)) = true /\ settled ev = finish (m t).

(** Worlds in which something goes wrong. *)
Module Faulty.

(** [w], with another filesystem, browser, converter or listing service. *)
Definition with_fs (w : World) (f : instant -> fs_op -> nat * outcome unit)
  : World :=
  {| axios_get_listing := axios_get_listing w;
     axios_get_file := axios_get_file w;
     fs := f;
     asciidoctor_convertFile := asciidoctor_convertFile w;
     puppeteer := puppeteer w;
     path_join := path_join w;
     path_resolve := path_resolve w;
     buffer_toString := buffer_toString w |}.

Definition with_puppeteer (w : World)
           (f : instant -> browser_op -> nat * outcome unit) : World :=
  {| axios_get_listing := axios_get_listing w;
     axios_get_file := axios_get_file w;
     fs := fs w;
     asciidoctor_convertFile := asciidoctor_convertFile w;
     puppeteer := f;
     path_join := path_join w;
     path_resolve := path_resolve w;
     buffer_toString := buffer_toString w |}.

Definition with_asciidoctor (w : World)
           (f : instant -> jsstring -> convert_options -> outcome jsstring)
  : World :=
  {| axios_get_listing := axios_get_listing w;
     axios_get_file := axios_get_file w;
     fs := fs w;
     asciidoctor_convertFile := f;
     puppeteer := puppeteer w;
     path_join := path_join w;
     path_resolve := path_resolve w;
     buffer_toString := buffer_toString w |}.

Definition with_listing (w : World)
           (f : instant -> jsstring -> nat * outcome (list entry)) : World :=
  {| axios_get_listing := f;
     axios_get_file := axios_get_file w;
     fs := fs w;
     asciidoctor_convertFile := asciidoctor_convertFile w;
     puppeteer := puppeteer w;
     path_join := path_join w;
     path_resolve := path_resolve w;
     buffer_toString := buffer_toString w |}.

(** Nothing can be written. *)
Definition read_only_disk : World :=
  with_fs Demo.world (fun _ _ => (1, Rejected (LibraryError 30))).

(** MathJax never loads: the page never defines it, and the call to
    typeset throws. *)
Definition without_mathjax : World :=
  with_puppeteer Demo.world
    (fun _ op =>
       match op with
       | WaitForFunction _ => (30, Rejected (LibraryError 408))
       | Evaluate TypesetPromise => (1, Rejected (LibraryError 500))
       | _ => (1, Fulfilled tt)
       end).

(** The page cannot be rendered. *)
Definition page_crashes : World :=
  with_puppeteer Demo.world
    (fun _ op =>
       match op with
       | SetContent _ => (1, Rejected (LibraryError 500))
       | _ => (1, Fulfilled tt)
       end).

(** The browser does not close. *)
Definition browser_hangs : World :=
  with_puppeteer Demo.world
    (fun _ op =>
       match op with
       | Close => (9, Rejected (LibraryError 500))
       | _ => (1, Fulfilled tt)
       end).

(** The converter throws. *)
Definition asciidoctor_throws : World :=
  with_asciidoctor Demo.world (fun _ _ _ => Rejected (LibraryError 1)).

(** The repository has no [images] folder. *)
Definition without_images_folder : World :=
  with_listing Demo.world
    (fun t url =>
       if JsString.eqb url (API_URL ++ lit "/images")
       then (3, Rejected (LibraryError 404))
       else axios_get_listing Demo.world t url).

(** The listing of the [code] folder fails. *)
Definition without_code_folder : World :=
  with_listing Demo.world
    (fun t url =>
       if JsString.eqb url (API_URL ++ lit "/code")
       then (3, Rejected (LibraryError 404))
       else axios_get_listing Demo.world t url).

(** The repository has no [images] folder, and no file can be written. *)
Definition without_images_nor_room : World :=
  with_fs without_images_folder
    (fun _ op =>
       match op with
       | OutputFile _ _ _ => (1, Rejected (LibraryError 28))
       | _ => (1, Fulfilled tt)
       end).

End Faulty.

(* ================================================================== *)
(** * Facts about strings *)
(* ================================================================== *)

Section StringFacts.

Lemma eqb_eq (s t : jsstring) : JsString.eqb s t = true <-> s = t.
Proof.
  revert t; induction s as [|c s IH]; intros [|d t]; simpl; split;
    try congruence; try reflexivity.
  - intros H. apply andb_true_iff in H as [H1 H2].
    apply N.eqb_eq in H1. apply IH in H2. congruence.
  - intros H. injection H as -> ->. rewrite N.eqb_refl. simpl.
    now apply IH.
Qed.

Lemma startsWith_app (search s : jsstring) :
  startsWith (search ++ s) search = true.
Proof.
  induction search as [|c l IH]; simpl; [reflexivity|].
  now rewrite N.eqb_refl.
Qed.

Lemma startsWith_iff (s search : jsstring) :
  startsWith s search = true <-> exists rest, s = search ++ rest.
Proof.
  split.
  - revert s; induction search as [|c l IH]; intros s H; simpl in *.
    + now exists s.
    + destruct s as [|d s]; [discriminate|].
      apply andb_true_iff in H as [H1 H2]. apply N.eqb_eq in H1. subst d.
      destruct (IH _ H2) as [rest ->]. now exists rest.
  - intros [rest ->]. apply startsWith_app.
Qed.

Lemma endsWith_iff (s search : jsstring) :
  endsWith s search = true <-> exists front, s = front ++ search.
Proof.
  unfold endsWith. split.
  - destruct (Nat.ltb_spec (length s) (length search)) as [Hlt|Hle];
      [discriminate|].
    intros H. apply eqb_eq in H.
    exists (firstn (length s - length search) s).
    revert H. generalize (length s - length search). intros n H.
    subst search. symmetry. apply firstn_skipn.
  - intros [front ->]. rewrite length_app.
    destruct (Nat.ltb_spec (length front + length search) (length search));
      [lia|].
    replace (length front + length search - length search)
      with (length front + 0) by lia.
    rewrite skipn_app, Nat.add_0_r, skipn_all.
    replace (length front - length front) with 0 by lia. simpl.
    now apply eqb_eq.
Qed.

Lemma join_loop_acc (sep : jsstring) (elems : list jsstring) :
  forall k R, join_loop sep (S k) R elems
              = R ++ concat (List.map (fun e => sep ++ e) elems).
Proof.
  induction elems as [|e l IH]; intros k R; simpl.
  - now rewrite app_nil_r.
  - rewrite IH. now rewrite <- !app_assoc.
Qed.

Lemma join_cons (sep e : jsstring) (elems : list jsstring) :
  join sep (e :: elems) = e ++ concat (List.map (fun x => sep ++ x) elems).
Proof. unfold join. simpl. now rewrite join_loop_acc. Qed.

Lemma concat_with_cons (sep e : jsstring) (elems : list jsstring) :
  concat_with sep (e :: elems)
  = e ++ concat (List.map (fun x => sep ++ x) elems).
Proof.
  revert e; induction elems as [|e' l IH]; intros e.
  - simpl. now rewrite app_nil_r.
  - change (concat_with sep (e :: e' :: l))
      with (e ++ sep ++ concat_with sep (e' :: l)).
    rewrite IH. simpl. now rewrite <- !app_assoc.
Qed.

(** [join] puts the separator between each two elements, and nowhere else. *)
Lemma join_concat_with (sep : jsstring) (elems : list jsstring) :
  join sep elems = concat_with sep elems.
Proof.
  destruct elems as [|e l]; [reflexivity|].
  now rewrite join_cons, concat_with_cons.
Qed.

Lemma concat_with_length (sep : jsstring) (docs : list jsstring) :
  length (concat_with sep docs)
  = total_length docs + length sep * (length docs - 1).
Proof.
  destruct docs as [|d l]; [simpl; lia|].
  rewrite concat_with_cons.
  replace (length (d :: l) - 1) with (length l) by (simpl; lia).
  rewrite length_app. cbn [total_length fold_right].
  fold (total_length l).
  assert (H : length (concat (List.map (fun x => sep ++ x) l))
              = total_length l + length sep * length l).
  { clear d. induction l as [|d' l IH]; [simpl; lia|].
    cbn [List.map concat total_length fold_right length].
    fold (total_length l). rewrite !length_app, IH. lia. }
  lia.
Qed.

Lemma occurs_app_l (sub x y : jsstring) : occurs sub x -> occurs sub (x ++ y).
Proof.
  intros (a & b & ->). exists a, (b ++ y). now rewrite <- !app_assoc.
Qed.

Lemma occurs_app_r (sub x y : jsstring) : occurs sub y -> occurs sub (x ++ y).
Proof.
  intros (a & b & ->). exists (x ++ a), b. now rewrite <- !app_assoc.
Qed.

Lemma occurs_cons (sub : jsstring) (c : code_unit) (s : jsstring) :
  occurs sub s -> occurs sub (c :: s).
Proof. apply (occurs_app_r sub [c] s). Qed.

Lemma occursb_iff (sub s : jsstring) :
  occursb sub s = true <-> occurs sub s.
Proof.
  split.
  - induction s as [|c s IH]; cbn [occursb]; intros H;
      apply orb_true_iff in H as [H|H].
    + apply startsWith_iff in H as [rest ->]. now exists [], rest.
    + discriminate.
    + apply startsWith_iff in H as [rest ->]. now exists [], rest.
    + apply occurs_cons. auto.
  - intros (pre & post & ->). induction pre as [|c pre IH].
    + cbn [app]. destruct (sub ++ post) eqn:E; cbn [occursb];
        rewrite <- E, startsWith_app; reflexivity.
    + cbn [app occursb]. rewrite IH. apply orb_true_r.
Qed.

Lemma occurs_concat_with (sep d : jsstring) (docs : list jsstring) :
  In d docs -> occurs d (concat_with sep docs).
Proof.
  destruct docs as [|d0 l]; [intros []|].
  rewrite concat_with_cons. intros [->|Hin].
  - exists [], (concat (List.map (fun x => sep ++ x) l)). reflexivity.
  - apply occurs_app_r. induction l as [|d' l IH]; [destruct Hin|].
    cbn [List.map concat]. destruct Hin as [->|Hin].
    + apply occurs_app_l. apply occurs_app_r. exists [], []. 
      now rewrite app_nil_r.
    + apply occurs_app_r. auto.
Qed.

End StringFacts.

(* ================================================================== *)
(** * Facts about the matcher *)
(* ================================================================== *)

Section RegExpFacts.

(** A match consumes a prefix of its input. *)
Lemma lazy_any_suffix k :
  (forall i s acc r, k i s acc = Some r -> exists m, s = m ++ snd r) ->
  forall s i acc r, lazy_any k i s acc = Some r -> exists m, s = m ++ snd r.
Proof.
  intros Hk s; induction s as [|d s IH]; intros i acc r; simpl.
  - destruct (k i [] acc) eqn:E; [|discriminate].
    intros [= <-]. eapply Hk; eauto.
  - destruct (k i (d :: s) acc) eqn:E.
    + intros [= <-]. eapply Hk; eauto.
    + destruct (is_line_terminator d); [discriminate|].
      intros H. apply IH in H as [m ->]. now exists (d :: m).
Qed.

Lemma match_here_suffix p :
  forall i s caps r,
    match_here p i s caps = Some r -> exists m, s = m ++ snd r.
Proof.
  induction p as [|t p IH]; intros i s caps r; simpl.
  - intros [= <-]. now exists [].
  - destruct t.
    + destruct s as [|d s]; [discriminate|].
      destruct (d =? c)%N; [|discriminate].
      intros H. apply IH in H as [m ->]. now exists (d :: m).
    + destruct i; [|discriminate]. apply IH.
    + apply lazy_any_suffix. intros. eapply IH; eauto.
Qed.

Lemma exec_from_decomp p :
  forall s i pre caps rest,
    exec_from p i s = Some (pre, caps, rest) ->
    exists m, s = pre ++ m ++ rest
              /\ match_here p (i + length pre) (m ++ rest) [] = Some (caps, rest).
Proof.
  induction s as [|c s IH]; intros i pre caps rest; simpl.
  - destruct (match_here p i [] []) as [[caps' rest']|] eqn:E; [|discriminate].
    intros [= <- <- <-]. destruct (match_here_suffix _ _ _ _ _ E) as [m Hm].
    simpl in Hm. exists m. simpl. rewrite Nat.add_0_r, <- Hm. auto.
  - destruct (match_here p i (c :: s) []) as [[caps' rest']|] eqn:E.
    + intros [= <- <- <-]. destruct (match_here_suffix _ _ _ _ _ E) as [m Hm].
      simpl in Hm. exists m. simpl. rewrite Nat.add_0_r, <- Hm. auto.
    + destruct (exec_from p (S i) s) as [[[pre' caps'] rest']|] eqn:E';
        [|discriminate].
      intros [= <- <- <-]. destruct (IH _ _ _ _ E') as (m & Hs & Hm).
      exists m. split; [simpl; now f_equal|].
      simpl. now rewrite Nat.add_succ_r.
Qed.

Lemma matched_eq (s pre m rest : jsstring) :
  s = pre ++ m ++ rest -> matched s pre rest = m.
Proof.
  intros ->. unfold matched. rewrite !length_app.
  replace (length pre + (length m + length rest) - length pre - length rest)
    with (length m) by lia.
  rewrite skipn_app, skipn_all, Nat.sub_diag. simpl.
  rewrite firstn_app, firstn_all, Nat.sub_diag. simpl. apply app_nil_r.
Qed.

(** Any fuel above the length of the input gives the same result. *)
Lemma replace_loop_fuel p f :
  forall n m i s,
    length s < n -> length s < m ->
    replace_loop n p f i s = replace_loop m p f i s.
Proof.
  induction n as [|n IH]; intros m i s Hn Hm; [lia|].
  destruct m as [|m]; [lia|]. simpl.
  destruct (exec_from p i s) as [[[pre caps] rest]|] eqn:E; [|reflexivity].
  destruct (exec_from_decomp _ _ _ _ _ _ E) as (mm & Hs & _).
  rewrite (matched_eq _ _ _ _ Hs).
  assert (Hlen : length s = length pre + (length mm + length rest))
    by (subst s; now rewrite !length_app).
  f_equal. f_equal.
  destruct mm as [|x mm]; [destruct rest as [|y rest]|]; simpl in *.
  - reflexivity.
  - f_equal. apply IH; lia.
  - apply IH; lia.
Qed.

(** Pattern characters are matched one by one. *)
Lemma match_chars (l : jsstring) (p : pattern) :
  forall i s caps,
    match_here (List.map Char l ++ p) i s caps
    = if startsWith s l
      then match_here p (i + length l) (skipn (length l) s) caps
      else None.
Proof.
  induction l as [|c l IH]; intros i s caps; simpl.
  - now rewrite Nat.add_0_r.
  - destruct s as [|d s]; [reflexivity|].
    destruct (d =? c)%N; simpl; [|reflexivity].
    rewrite IH. now rewrite Nat.add_succ_r.
Qed.

Lemma until_spec (c : code_unit) :
  forall s a rest,
    until c s = Some (a, rest) ->
    s = a ++ c :: rest /\ ~ In c a /\ no_line_terminator a.
Proof.
  induction s as [|d s IH]; intros a rest; simpl; [discriminate|].
  destruct (N.eqb_spec d c) as [->|Hne].
  - intros [= <- <-]. repeat split; auto. constructor.
  - destruct (is_line_terminator d) eqn:Ed; [discriminate|].
    destruct (until c s) as [[a' rest']|]; [|discriminate].
    intros [= <- <-]. destruct (IH _ _ eq_refl) as (-> & Hin & Hlt).
    repeat split; auto.
    + intros [H|H]; auto.
    + now constructor.
Qed.

Lemma until_intro (c : code_unit) (rest : jsstring) :
  forall a, ~ In c a -> no_line_terminator a ->
            until c (a ++ c :: rest) = Some (a, rest).
Proof.
  induction a as [|d a IH]; intros Hin Hlt; simpl.
  - now rewrite N.eqb_refl.
  - inversion Hlt as [|? ? Hd Ha]; subst.
    destruct (N.eqb_spec d c) as [->|Hne]; [exfalso; apply Hin; now left|].
    rewrite Hd, IH; auto. intros H; apply Hin; now right.
Qed.

(** When no [c] closes the line, none closes what follows an [o] of it. *)
Lemma until_none_after (c o : code_unit) :
  is_line_terminator o = false ->
  forall s p s1,
    until c s = None -> until o s = Some (p, s1) -> until c s1 = None.
Proof.
  intros Ho. induction s as [|d s IH]; intros p s1; simpl; [discriminate|].
  destruct (d =? c)%N; [discriminate|].
  destruct (N.eqb_spec d o) as [->|Hne].
  - rewrite Ho. destruct (until c s) as [[a r]|] eqn:Ec; [discriminate|].
    now intros _ [= <- <-].
  - destruct (is_line_terminator d); [discriminate|].
    destruct (until c s) as [[a r]|]; [discriminate|].
    destruct (until o s) as [[a' r']|]; [|discriminate].
    intros _ [= <- <-]. now apply (IH a').
Qed.

(** The group [(.*?)] followed by one pattern character [c]. *)
Lemma lazy_any_char (c : code_unit) (caps : list jsstring) :
  forall s i acc,
    lazy_any (fun i' s' acc' => match_here [Char c] i' s' (acc' :: caps))
             i s acc
    = match until c s with
      | Some (a, rest) => Some (rev ((acc ++ a) :: caps), rest)
      | None => None
      end.
Proof.
  induction s as [|d s IH]; intros i acc; simpl; [reflexivity|].
  destruct (d =? c)%N.
  - now rewrite app_nil_r.
  - destruct (is_line_terminator d); [reflexivity|].
    rewrite IH. destruct (until c s) as [[a rest]|]; [|reflexivity].
    now rewrite <- app_assoc.
Qed.

(** The group [(.*?)] followed by [o], a second group and [c]: the
    backtracking never gets past the first [o] of the line. *)
Lemma lazy_any_group (o c : code_unit) (caps : list jsstring) :
  is_line_terminator o = false ->
  forall s i acc,
    lazy_any (fun i' s' acc' =>
                match_here [Char o; CaptureLazyAny; Char c] i' s'
                           (acc' :: caps))
             i s acc
    = match until o s with
      | Some (p, s1) =>
          match until c s1 with
          | Some (a, rest) => Some (rev (a :: (acc ++ p) :: caps), rest)
          | None => None
          end
      | None => None
      end.
Proof.
  intros Ho. induction s as [|d s IH]; intros i acc; [reflexivity|].
  cbn [lazy_any until].
  change (match_here [Char o; CaptureLazyAny; Char c] i (d :: s) (acc :: caps))
    with (if (d =? o)%N
          then lazy_any (fun i' s' acc' =>
                           match_here [Char c] i' s' (acc' :: acc :: caps))
                        (S i) s []
          else None).
  destruct (N.eqb_spec d o) as [->|Hne].
  - rewrite lazy_any_char. cbn [app].
    destruct (until c s) as [[a rest]|] eqn:Ec.
    + now rewrite app_nil_r.
    + rewrite Ho, IH.
      destruct (until o s) as [[p s1]|] eqn:Eo; [|reflexivity].
      now rewrite (until_none_after c o Ho s _ _ Ec Eo).
  - destruct (is_line_terminator d); [reflexivity|].
    rewrite IH. destruct (until o s) as [[p s1]|]; [|reflexivity].
    destruct (until c s1) as [[a rest]|]; [|reflexivity].
    now rewrite <- app_assoc.
Qed.

(** The pattern of [mergeFiles] reads a directive as [parse_directive]
    does, wherever in the input it is tried. *)
Lemma match_image (i : nat) (s : jsstring) :
  match_here re_image i s []
  = match parse_directive s with
    | Some (p, a, rest) => Some ([p; a], rest)
    | None => None
    end.
Proof.
  unfold re_image, parse_directive. rewrite match_chars.
  destruct (startsWith s (lit "image::")); [|reflexivity].
  change (length (lit "image::")) with 7.
  change ([CaptureLazyAny] ++ List.map Char (lit "[") ++ [CaptureLazyAny] ++
            List.map Char (lit "]"))
    with (CaptureLazyAny :: [Char open_bracket; CaptureLazyAny; Char close_bracket]).
  cbn [match_here].
  rewrite (lazy_any_group open_bracket close_bracket [] eq_refl).
  destruct (until open_bracket (skipn 7 s)) as [[p s1]|]; [|reflexivity].
  destruct (until close_bracket s1) as [[a rest]|]; reflexivity.
Qed.

Lemma parse_directive_spec (s p a rest : jsstring) :
  parse_directive s = Some (p, a, rest) ->
  s = directive p a ++ rest
  /\ ~ In open_bracket p /\ no_line_terminator p
  /\ ~ In close_bracket a /\ no_line_terminator a.
Proof.
  unfold parse_directive.
  destruct (startsWith s (lit "image::")) eqn:Es; [|discriminate].
  apply startsWith_iff in Es as [s0 ->].
  change (skipn 7 (lit "image::" ++ s0)) with s0.
  destruct (until open_bracket s0) as [[p' s1]|] eqn:E1; [|discriminate].
  destruct (until close_bracket s1) as [[a' rest']|] eqn:E2; [|discriminate].
  intros [= <- <- <-].
  apply until_spec in E1 as (-> & Hp1 & Hp2).
  apply until_spec in E2 as (-> & Ha1 & Ha2).
  repeat split; auto.
  unfold directive. now rewrite <- !app_assoc.
Qed.

Lemma parse_directive_intro (p a rest : jsstring) :
  ~ In open_bracket p -> no_line_terminator p ->
  ~ In close_bracket a -> no_line_terminator a ->
  parse_directive (directive p a ++ rest) = Some (p, a, rest).
Proof.
  intros Hp1 Hp2 Ha1 Ha2. unfold parse_directive, directive.
  rewrite <- !app_assoc. rewrite startsWith_app.
  change (skipn 7 (lit "image::" ++ ?x)) with x.
  change (lit "[" ++ a ++ lit "]" ++ rest)
    with (open_bracket :: a ++ close_bracket :: rest).
  rewrite until_intro by assumption.
  now rewrite until_intro.
Qed.

End RegExpFacts.

(* ================================================================== *)
(** * Facts about the image-path rewriting *)
(* ================================================================== *)

Section RewriteFacts.

(** [^] cannot match once the first index is passed. *)
Lemma exec_start_later (q : pattern) :
  forall s i, exec_from (Start :: q) (S i) s = None.
Proof.
  induction s as [|c s IH]; intros i; cbn [exec_from match_here];
    [reflexivity|]. now rewrite IH.
Qed.

Lemma cleanImagePath_eq (path : jsstring) :
  cleanImagePath path = strip_images path.
Proof.
  unfold cleanImagePath, strip_images, replace_first, re_images_prefix.
  pose proof (match_chars (lit "images/") [] 0 path []) as Hm.
  rewrite app_nil_r in Hm.
  destruct path as [|c path].
  - reflexivity.
  - cbn [exec_from]. rewrite exec_start_later.
    cbn [match_here]. rewrite Hm.
    destruct (startsWith (c :: path) (lit "images/")); reflexivity.
Qed.

Lemma clean_images_prefix (q : jsstring) :
  cleanImagePath (lit "images/" ++ q) = q.
Proof.
  rewrite cleanImagePath_eq. unfold strip_images.
  now rewrite startsWith_app.
Qed.

(** [re_image] has no assertion: where the search starts is irrelevant. *)
Lemma exec_image_index :
  forall s i j, exec_from re_image i s = exec_from re_image j s.
Proof.
  induction s as [|c s IH]; intros i j; cbn [exec_from];
    rewrite (match_image i), (match_image j).
  - reflexivity.
  - now rewrite (IH (S i) (S j)).
Qed.

Lemma replace_loop_image_index (f : replacer) :
  forall n i j s,
    replace_loop n re_image f i s = replace_loop n re_image f j s.
Proof.
  induction n as [|n IH]; intros i j s; cbn [replace_loop]; [reflexivity|].
  rewrite (exec_image_index s i j).
  destruct (exec_from re_image j s) as [[[pre caps] rest]|]; [|reflexivity].
  f_equal. f_equal.
  destruct (matched s pre rest); [destruct rest|]; auto.
  f_equal. apply IH.
Qed.

(** What the first match of [re_image] in [s] looks like. *)
Lemma exec_image_spec {s pre rest : jsstring} {caps : list jsstring} {i : nat} :
  exec_from re_image i s = Some (pre, caps, rest) ->
  exists p a,
    caps = [p; a] /\ s = pre ++ directive p a ++ rest
    /\ parse_directive (directive p a ++ rest) = Some (p, a, rest).
Proof.
  intros E. apply exec_from_decomp in E as (m & Hs & Hm).
  rewrite match_image in Hm.
  destruct (parse_directive (m ++ rest)) as [[[p a] rest']|] eqn:Ep;
    [|discriminate].
  injection Hm as <- <-.
  pose proof (parse_directive_spec _ _ _ _ Ep) as (Hd & _).
  apply app_inv_tail in Hd. subst m. now exists p, a.
Qed.

(** One round of the global replace. *)
Lemma rewrite_images_step (s : jsstring) :
  rewrite_images s
  = match exec_from re_image 0 s with
    | None => s
    | Some (pre, caps, rest) =>
        pre ++ directive (strip_images (nth 0 caps [])) (nth 1 caps [])
            ++ rewrite_images rest
    end.
Proof.
  unfold rewrite_images at 1. unfold replace_all. cbn [replace_loop].
  destruct (exec_from re_image 0 s) as [[[pre caps] rest]|] eqn:E;
    [|reflexivity].
  destruct (exec_image_spec E) as (p & a & -> & Hs & _).
  rewrite (matched_eq _ _ _ _ Hs).
  assert (Hlen : length s = length pre + (length (directive p a) + length rest))
    by (subst s; now rewrite !length_app).
  assert (Hrest : forall i, replace_loop (length s) re_image image_replacer i rest
                            = rewrite_images rest).
  { intros i. unfold rewrite_images, replace_all.
    rewrite (replace_loop_image_index _ _ i 0).
    apply replace_loop_fuel; [|lia].
    rewrite Hlen. unfold directive. rewrite length_app. simpl. lia. }
  f_equal. cbn [nth].
  destruct (directive p a) as [|d0 dl] eqn:Ed; [discriminate Ed|].
  rewrite Hrest, <- Ed.
  unfold image_replacer. cbn [nth]. rewrite cleanImagePath_eq.
  unfold directive. now rewrite <- !app_assoc.
Qed.

Lemma exec_image_none (s : jsstring) :
  ~ occurs (lit "image::") s -> forall i, exec_from re_image i s = None.
Proof.
  induction s as [|c s IH]; intros Hno i; cbn [exec_from];
    rewrite match_image.
  - reflexivity.
  - destruct (parse_directive (c :: s)) as [[[p a] rest]|] eqn:Ep.
    + exfalso. apply Hno. apply parse_directive_spec in Ep as (-> & _).
      exists [], (p ++ lit "[" ++ a ++ lit "]" ++ rest).
      unfold directive. now rewrite <- !app_assoc.
    + rewrite IH; [reflexivity|].
      intros H. apply Hno. now apply occurs_cons.
Qed.

(** A text without [image::] is left as it is. *)
Lemma rewrite_images_no_image (s : jsstring) :
  ~ occurs (lit "image::") s -> rewrite_images s = s.
Proof.
  intros Hno. rewrite rewrite_images_step.
  now rewrite exec_image_none.
Qed.

(** Only directives are touched, and only their path. *)
Lemma rewrite_images_Rewritten (s : jsstring) :
  Rewritten s (rewrite_images s).
Proof.
  remember (length s) as n eqn:Hn. revert s Hn.
  induction n as [n IH] using lt_wf_ind. intros s Hn.
  rewrite rewrite_images_step.
  destruct (exec_from re_image 0 s) as [[[pre caps] rest]|] eqn:E.
  - destruct (exec_image_spec E) as (p & a & -> & Hs & _).
    cbn [nth]. rewrite Hs at 1. apply Rewritten_directive.
    apply (IH (length rest)); [|reflexivity].
    subst n s. rewrite !length_app. unfold directive.
    rewrite !length_app. simpl. lia.
  - constructor.
Qed.

(** ** Line by line

    No pattern character of [re_image] is a line terminator and [.] does
    not match one, so a match never extends over a line break. *)

Lemma startsWith_line (l : code_unit) (search : jsstring) :
  ~ In l search ->
  forall x y, startsWith (x ++ l :: y) search = startsWith x search.
Proof.
  induction search as [|c search IH]; intros Hin x y; [reflexivity|].
  destruct x as [|d x]; cbn [app startsWith].
  - destruct (N.eqb_spec l c) as [->|]; [|reflexivity].
    exfalso. apply Hin. now left.
  - rewrite IH; [reflexivity|]. intros H. apply Hin. now right.
Qed.

Lemma until_line (c l : code_unit) (y : jsstring) :
  is_line_terminator l = true -> c <> l ->
  forall x, until c (x ++ l :: y)
            = match until c x with
              | Some (a, r) => Some (a, r ++ l :: y)
              | None => None
              end.
Proof.
  intros Hl Hc. induction x as [|d x IH]; cbn [app until].
  - destruct (N.eqb_spec l c); [congruence|]. now rewrite Hl.
  - destruct (d =? c)%N; [reflexivity|].
    destruct (is_line_terminator d); [reflexivity|].
    rewrite IH. now destruct (until c x) as [[a r]|].
Qed.

Lemma line_terminator_not_in (l : code_unit) (s : string) :
  forallb (fun c => negb (is_line_terminator c)) (lit s) = true ->
  is_line_terminator l = true -> ~ In l (lit s).
Proof.
  intros Hs Hl Hin. rewrite forallb_forall in Hs.
  apply Hs in Hin. now rewrite Hl in Hin.
Qed.

Lemma parse_directive_line (l : code_unit) (x y : jsstring) :
  is_line_terminator l = true ->
  parse_directive (x ++ l :: y)
  = match parse_directive x with
    | Some (p, a, rest) => Some (p, a, rest ++ l :: y)
    | None => None
    end.
Proof.
  intros Hl. unfold parse_directive.
  rewrite startsWith_line
    by (apply line_terminator_not_in; [reflexivity|assumption]).
  destruct (startsWith x (lit "image::")) eqn:Es; [|reflexivity].
  apply startsWith_iff in Es as [x0 ->].
  rewrite <- app_assoc.
  change (skipn 7 (lit "image::" ++ ?z)) with z.
  rewrite until_line; [|assumption|intros <-; discriminate Hl].
  destruct (until open_bracket x0) as [[p s1]|]; [|reflexivity].
  rewrite until_line; [|assumption|intros <-; discriminate Hl].
  now destruct (until close_bracket s1) as [[a rest]|].
Qed.

Lemma exec_image_line (l : code_unit) (y : jsstring) :
  is_line_terminator l = true ->
  forall x,
    exec_from re_image 0 (x ++ l :: y)
    = match exec_from re_image 0 x with
      | Some (pre, caps, rest) => Some (pre, caps, rest ++ l :: y)
      | None =>
          match exec_from re_image 0 y with
          | Some (pre, caps, rest) => Some (x ++ l :: pre, caps, rest)
          | None => None
          end
      end.
Proof.
  intros Hl. induction x as [|d x IH]; cbn [app exec_from];
    rewrite !match_image.
  - pose proof (parse_directive_line l [] y Hl) as Hp.
    cbn [app] in Hp. rewrite Hp.
    change (parse_directive []) with (@None (jsstring * jsstring * jsstring)).
    cbv iota. rewrite (exec_image_index y 1 0).
    now destruct (exec_from re_image 0 y) as [[[pre caps] rest]|].
  - pose proof (parse_directive_line l (d :: x) y Hl) as Hp.
    cbn [app] in Hp. rewrite Hp.
    destruct (parse_directive (d :: x)) as [[[p a] rest]|]; [reflexivity|].
    rewrite (exec_image_index (x ++ l :: y) 1 0), (exec_image_index x 1 0), IH.
    destruct (exec_from re_image 0 x) as [[[pre caps] rest]|]; [reflexivity|].
    now destruct (exec_from re_image 0 y) as [[[pre caps] rest]|].
Qed.

(** The rewriting works on each line separately. *)
Lemma rewrite_images_line (l : code_unit) (y : jsstring) :
  is_line_terminator l = true ->
  forall x,
    rewrite_images (x ++ l :: y) = rewrite_images x ++ l :: rewrite_images y.
Proof.
  intros Hl x. remember (length x) as n eqn:Hn. revert x Hn.
  induction n as [n IH] using lt_wf_ind. intros x Hn.
  rewrite (rewrite_images_step (x ++ l :: y)), (rewrite_images_step x).
  rewrite exec_image_line by assumption.
  destruct (exec_from re_image 0 x) as [[[pre caps] rest]|] eqn:E.
  - destruct (exec_image_spec E) as (p & a & -> & Hs & _).
    rewrite (IH (length rest)); [now rewrite <- !app_assoc| |reflexivity].
    subst n x. rewrite !length_app. unfold directive.
    rewrite !length_app. simpl. lia.
  - rewrite (rewrite_images_step y).
    destruct (exec_from re_image 0 y) as [[[pre caps] rest]|];
      [|reflexivity].
    now rewrite <- !app_assoc.
Qed.

Lemma exec_from_head (p : pattern) (i : nat) (s : jsstring)
      (caps : list jsstring) (rest : jsstring) :
  match_here p i s [] = Some (caps, rest) ->
  exec_from p i s = Some ([], caps, rest).
Proof. intros H. destruct s; cbn [exec_from]; now rewrite H. Qed.

(** [image::] does not overlap itself: a text without it, put before a
    text that starts with it, adds no earlier place where it starts. *)
Lemma image_no_straddle (x r : jsstring) :
  x <> [] -> ~ occurs (lit "image::") x ->
  startsWith (x ++ lit "image::" ++ r) (lit "image::") = false.
Proof.
  intros Hx Hno.
  destruct (startsWith (x ++ lit "image::" ++ r) (lit "image::")) eqn:E;
    [|reflexivity].
  exfalso. apply startsWith_iff in E as [r' E].
  destruct x as [|c1 [|c2 [|c3 [|c4 [|c5 [|c6 [|c7 x]]]]]]];
    try (cbn in E; congruence).
  apply Hno. exists [], x. cbn in E |- *. congruence.
Qed.

Lemma exec_image_after_plain (s p a post : jsstring) (i : nat) :
  ~ occurs (lit "image::") s ->
  ~ In open_bracket p -> no_line_terminator p ->
  ~ In close_bracket a -> no_line_terminator a ->
  exec_from re_image i (s ++ directive p a ++ post) = Some (s, [p; a], post).
Proof.
  intros Hno Hp1 Hp2 Ha1 Ha2. revert i.
  induction s as [|c s IH]; intros i.
  - cbn [app]. apply exec_from_head. rewrite match_image.
    now rewrite parse_directive_intro.
  - cbn [app exec_from]. rewrite match_image.
    assert (Hnone : parse_directive ((c :: s) ++ directive p a ++ post) = None).
    { unfold parse_directive, directive. rewrite <- !app_assoc.
      rewrite (image_no_straddle (c :: s)); [reflexivity|discriminate|exact Hno]. }
    cbn [app] in Hnone. rewrite Hnone, IH; [reflexivity|].
    intros H. apply Hno. now apply occurs_cons.
Qed.

(** A directive with no [image::] before it is rewritten, and what
    precedes it is left as it is. *)
Lemma rewrite_images_after_plain (s p a post : jsstring) :
  ~ occurs (lit "image::") s ->
  ~ In open_bracket p -> no_line_terminator p ->
  ~ In close_bracket a -> no_line_terminator a ->
  rewrite_images (s ++ directive p a ++ post)
  = s ++ directive (strip_images p) a ++ rewrite_images post.
Proof.
  intros Hno Hp1 Hp2 Ha1 Ha2. rewrite rewrite_images_step.
  now rewrite exec_image_after_plain.
Qed.

Lemma strip_images_prefix (q : jsstring) :
  strip_images (lit "images/" ++ q) = q.
Proof. unfold strip_images. now rewrite startsWith_app. Qed.

Lemma until_prefix (c : code_unit) :
  forall x, no_line_terminator x -> In c x ->
    exists a r, x = a ++ c :: r
                /\ forall y, until c (x ++ y) = Some (a, r ++ y).
Proof.
  induction x as [|d x IH]; intros Hlt Hin; [destruct Hin|].
  inversion Hlt as [|? ? Hd Hx]; subst.
  destruct (N.eqb_spec d c) as [->|Hne].
  - exists [], x. split; [reflexivity|]. intros y. cbn [app until].
    now rewrite N.eqb_refl.
  - destruct Hin as [->|Hin]; [congruence|].
    destruct (IH Hx Hin) as (a & r & -> & Hu).
    exists (d :: a), r. split; [reflexivity|]. intros y. cbn [app until].
    destruct (N.eqb_spec d c) as [|_]; [congruence|].
    rewrite Hd. cbn [app] in Hu. now rewrite Hu.
Qed.

Lemma strip_images_bracket (x y : jsstring) :
  strip_images (x ++ open_bracket :: y) = strip_images x ++ open_bracket :: y.
Proof.
  unfold strip_images.
  rewrite startsWith_line
    by (intros H; cbn in H; repeat (destruct H as [H|H]; [discriminate H|]);
        exact H).
  destruct (startsWith x (lit "images/")) eqn:E; [|reflexivity].
  apply startsWith_iff in E as [q ->]. reflexivity.
Qed.

Lemma last_bracket (x y : jsstring) (c : code_unit) :
  x ++ [c] = y ++ [open_bracket] -> c = open_bracket.
Proof.
  intros H. apply app_inj_tail in H as [_ H]. exact H.
Qed.

(** The pattern at the head of [image::<path>[<alt>]]: it matches, its
    path is [path] up to its first opening bracket, and what it leaves of
    the directive is [beyond_match path alt]. *)
Lemma parse_directive_reading (path alt : jsstring) :
  no_line_terminator path -> no_line_terminator alt ->
  exists p a,
    directive path alt = directive p a ++ beyond_match path alt
    /\ directive (strip_images path) alt
       = directive (strip_images p) a ++ beyond_match path alt
    /\ (beyond_match path alt = []
        \/ exists r, beyond_match path alt = r ++ [close_bracket])
    /\ forall post,
        parse_directive (directive path alt ++ post)
        = Some (p, a, beyond_match path alt ++ post).
Proof.
  intros Hp Ha.
  set (s0 := path ++ open_bracket :: alt ++ [close_bracket]).
  assert (Hs0 : no_line_terminator s0).
  { unfold s0, no_line_terminator. apply Forall_app. split; [exact Hp|].
    constructor; [reflexivity|]. apply Forall_app. split; [exact Ha|].
    now repeat constructor. }
  assert (Hin : In open_bracket s0)
    by (unfold s0; apply in_or_app; right; now left).
  destruct (until_prefix open_bracket s0 Hs0 Hin) as (p & s1 & Hs & Hu).
  assert (Hs1 : no_line_terminator s1).
  { unfold no_line_terminator in *. rewrite Hs in Hs0.
    apply Forall_app in Hs0 as [_ Hs0]. now inversion Hs0. }
  assert (Hlast : exists s1', s1 = s1' ++ [close_bracket]).
  { destruct (exists_last (l := s1)) as (s1' & c & E).
    - intros ->. unfold s0 in Hs.
      change (path ++ open_bracket :: alt ++ [close_bracket])
        with (path ++ (open_bracket :: alt) ++ [close_bracket]) in Hs.
      rewrite app_assoc in Hs. apply last_bracket in Hs. discriminate Hs.
    - exists s1'. rewrite E. f_equal. f_equal.
      rewrite E in Hs. unfold s0 in Hs.
      change (path ++ open_bracket :: alt ++ [close_bracket])
        with (path ++ (open_bracket :: alt) ++ [close_bracket]) in Hs.
      change (p ++ open_bracket :: s1' ++ [c])
        with (p ++ (open_bracket :: s1') ++ [c]) in Hs.
      rewrite !app_assoc in Hs. apply app_inj_tail in Hs as [_ Hs].
      congruence. }
  assert (Hin1 : In close_bracket s1).
  { destruct Hlast as [s1' ->]. apply in_or_app. right. now left. }
  destruct (until_prefix close_bracket s1 Hs1 Hin1) as (a & r & Hsa & Hu1).
  assert (Hparse : forall post,
             parse_directive (directive path alt ++ post)
             = Some (p, a, r ++ post)).
  { intros post. unfold parse_directive, directive.
    rewrite <- !app_assoc. rewrite startsWith_app.
    change (skipn 7 (lit "image::" ++ ?x)) with x.
    change (path ++ lit "[" ++ alt ++ lit "]" ++ post)
      with (path ++ open_bracket :: alt ++ close_bracket :: post).
    replace (path ++ open_bracket :: alt ++ close_bracket :: post)
      with (s0 ++ post)
      by (unfold s0; rewrite <- app_assoc; cbn [app];
          now rewrite <- app_assoc).
    rewrite Hu, Hu1. reflexivity. }
  assert (Hb : beyond_match path alt = r).
  { unfold beyond_match. pose proof (Hparse []) as H0.
    rewrite !app_nil_r in H0. now rewrite H0. }
  rewrite Hb. exists p, a.
  assert (Hd : path ++ open_bracket :: alt ++ [close_bracket]
               = p ++ open_bracket :: a ++ close_bracket :: r).
  { fold s0. rewrite Hs, Hsa. reflexivity. }
  split; [|split; [|split]].
  - unfold directive. rewrite <- !app_assoc. f_equal.
    exact Hd.
  - unfold directive. rewrite <- !app_assoc. f_equal.
    change (strip_images path ++ lit "[" ++ alt ++ lit "]")
      with (strip_images path ++ open_bracket :: alt ++ [close_bracket]).
    change (strip_images p ++ lit "[" ++ a ++ lit "]" ++ r)
      with (strip_images p ++ open_bracket :: a ++ close_bracket :: r).
    rewrite <- !strip_images_bracket. now rewrite Hd.
  - destruct Hlast as [s1' Hl]. rewrite Hsa in Hl.
    destruct r as [|x r0]; [now left|right].
    destruct (@exists_last _ (x :: r0)) as (r' & c & E); [discriminate|].
    exists r'. rewrite E. f_equal. f_equal.
    rewrite E in Hl.
    change (a ++ close_bracket :: r' ++ [c])
      with (a ++ (close_bracket :: r') ++ [c]) in Hl.
    rewrite app_assoc in Hl. apply app_inj_tail in Hl as [_ Hl]. exact Hl.
  - exact Hparse.
Qed.


(** Text in which no match can start, put before [x]: the first match of
    the whole is the first match of [x]. *)
Lemma exec_image_skip (x : jsstring) :
  forall r,
    (forall v u, r = v ++ u -> u <> [] ->
                 startsWith (u ++ x) (lit "image::") = false) ->
    forall i,
      exec_from re_image i (r ++ x)
      = match exec_from re_image 0 x with
        | Some (pre, caps, rest) => Some (r ++ pre, caps, rest)
        | None => None
        end.
Proof.
  induction r as [|c r IH]; intros Hno i.
  - cbn [app]. rewrite (exec_image_index x i 0).
    now destruct (exec_from re_image 0 x) as [[[pre caps] rest]|].
  - cbn [app exec_from]. rewrite match_image.
    assert (Hnone : parse_directive ((c :: r) ++ x) = None).
    { unfold parse_directive.
      rewrite (Hno [] (c :: r) eq_refl); [reflexivity|discriminate]. }
    cbn [app] in Hnone. rewrite Hnone, IH.
    + now destruct (exec_from re_image 0 x) as [[[pre caps] rest]|].
    + intros v u -> Hu. apply (Hno (c :: v) u); [reflexivity|exact Hu].
Qed.

Lemma rewrite_images_skip (r x : jsstring) :
  (forall v u, r = v ++ u -> u <> [] ->
               startsWith (u ++ x) (lit "image::") = false) ->
  rewrite_images (r ++ x) = r ++ rewrite_images x.
Proof.
  intros Hno. rewrite (rewrite_images_step (r ++ x)), (rewrite_images_step x).
  rewrite exec_image_skip by exact Hno.
  destruct (exec_from re_image 0 x) as [[[pre caps] rest]|]; [|reflexivity].
  now rewrite <- !app_assoc.
Qed.

(** Text without [image::] before an [image::]. *)
Lemma rewrite_images_plain_then (plain y : jsstring) :
  ~ occurs (lit "image::") plain ->
  rewrite_images (plain ++ lit "image::" ++ y)
  = plain ++ rewrite_images (lit "image::" ++ y).
Proof.
  intros Hno. apply rewrite_images_skip. intros v u -> Hu.
  apply image_no_straddle; [exact Hu|].
  intros H. apply Hno. now apply occurs_app_r.
Qed.

(** [image::] has no closing bracket: it does not start in a text that
    ends with one and go on after it. *)
Lemma bracket_no_straddle (u x : jsstring) :
  ~ occurs (lit "image::") (u ++ [close_bracket]) ->
  startsWith ((u ++ [close_bracket]) ++ x) (lit "image::") = false.
Proof.
  intros Hno.
  destruct (startsWith ((u ++ [close_bracket]) ++ x) (lit "image::")) eqn:E;
    [|reflexivity].
  exfalso. apply startsWith_iff in E as [z E]. unfold close_bracket in *.
  destruct u as [|c1 [|c2 [|c3 [|c4 [|c5 [|c6 [|c7 u]]]]]]];
    try (cbn in E; congruence).
  apply Hno. exists [], (u ++ [93%N]). cbn in E |- *.
  injection E as -> -> -> -> -> -> -> _. reflexivity.
Qed.

(** Text without [image::] that ends with a closing bracket, or is
    empty, before anything. *)
Lemma rewrite_images_beyond (r x : jsstring) :
  ~ occurs (lit "image::") r ->
  r = [] \/ (exists r', r = r' ++ [close_bracket]) ->
  rewrite_images (r ++ x) = r ++ rewrite_images x.
Proof.
  intros Hno [->|[r' ->]]; [reflexivity|].
  apply rewrite_images_skip. intros v u E Hu.
  destruct (@exists_last _ u Hu) as (u' & c & ->).
  rewrite app_assoc in E. apply app_inj_tail in E as [E1 E2].
  subst r' c.
  apply bracket_no_straddle.
  intros H. apply Hno. rewrite <- app_assoc. now apply occurs_app_r.
Qed.

(** At the end of a scanned text the search starts afresh. *)
Lemma rewrite_images_scanned (pre : jsstring) :
  Scanned pre ->
  forall y,
    rewrite_images (pre ++ lit "image::" ++ y)
    = rewrite_images pre ++ rewrite_images (lit "image::" ++ y).
Proof.
  induction 1 as [plain Hplain|before l plain Hl Hplain
                  |pre p a plain _ IH Hp1 Hp2 Ha1 Ha2 Hplain]; intros y.
  - rewrite rewrite_images_plain_then by assumption.
    now rewrite (rewrite_images_no_image plain Hplain).
  - rewrite <- app_assoc. cbn [app].
    rewrite !rewrite_images_line by assumption.
    rewrite rewrite_images_plain_then by assumption.
    rewrite (rewrite_images_no_image plain Hplain).
    rewrite <- app_assoc. reflexivity.
  - assert (Hd : forall z,
               rewrite_images (pre ++ directive p a ++ z)
               = rewrite_images pre ++ directive (strip_images p) a
                                ++ rewrite_images z).
    { intros z.
      assert (Hno : ~ occurs (lit "image::") [])
        by (intros (x1 & x2 & Hx); destruct x1; discriminate Hx).
      pose proof (rewrite_images_after_plain [] p a z Hno Hp1 Hp2 Ha1 Ha2)
        as Hz.
      cbn [app] in Hz. unfold directive at 1 in Hz.
      rewrite <- !app_assoc in Hz.
      unfold directive at 1. rewrite <- !app_assoc. rewrite IH.
      now rewrite Hz. }
    rewrite <- !app_assoc. rewrite !Hd.
    rewrite rewrite_images_plain_then by assumption.
    rewrite (rewrite_images_no_image plain Hplain).
    now rewrite <- !app_assoc.
Qed.

(** A directive the search reaches, with nothing to rewrite beyond the
    match that starts with it, is rewritten; what comes before and what
    comes after are rewritten on their own. *)
Lemma rewrite_images_reached (pre path alt post : jsstring) :
  Scanned pre ->
  no_line_terminator path -> no_line_terminator alt ->
  ~ occurs (lit "image::") (beyond_match path alt) ->
  rewrite_images (pre ++ directive path alt ++ post)
  = rewrite_images pre ++ directive (strip_images path) alt
                   ++ rewrite_images post.
Proof.
  intros Hpre Hp Ha Hb.
  destruct (parse_directive_reading path alt Hp Ha)
    as (p & a & Hd & Hd' & Hend & Hparse).
  unfold directive at 1. rewrite <- !app_assoc.
  rewrite (rewrite_images_scanned pre Hpre). f_equal.
  replace (lit "image::" ++ path ++ lit "[" ++ alt ++ lit "]" ++ post)
    with (directive path alt ++ post)
    by (unfold directive; now rewrite <- !app_assoc).
  rewrite rewrite_images_step.
  rewrite (exec_from_head re_image 0 _ [p; a] (beyond_match path alt ++ post))
    by (rewrite match_image, Hparse; reflexivity).
  cbn [nth app]. rewrite rewrite_images_beyond by assumption.
  rewrite Hd'. now rewrite <- !app_assoc.
Qed.

Lemma beyond_match_nil (path alt : jsstring) :
  ~ In open_bracket path -> no_line_terminator path ->
  ~ In close_bracket alt -> no_line_terminator alt ->
  beyond_match path alt = [].
Proof.
  intros Hp1 Hp2 Ha1 Ha2. unfold beyond_match.
  pose proof (parse_directive_intro path alt [] Hp1 Hp2 Ha1 Ha2) as H.
  rewrite app_nil_r in H. now rewrite H.
Qed.

End RewriteFacts.

(* ================================================================== *)
(** * Facts about promises and asynchronous functions *)
(* ================================================================== *)

Section AsyncFacts.

Context {A : Type}.

Lemma promise_all_fulfilled_inv (ps : list (promise A)) (vs : list A) :
  state (promise_all ps) = Fulfilled vs ->
  Forall2 (fun p v => state p = Fulfilled v) ps vs.
Proof.
  revert vs; induction ps as [|p ps IH]; intros vs; simpl.
  - intros [= <-]. constructor.
  - unfold all2.
    destruct (state p) as [a|e] eqn:Ep;
      destruct (state (promise_all ps)) as [l|e'] eqn:El; simpl;
      try discriminate.
    + intros [= <-]. constructor; auto.
    + destruct (settles p <=? settles (promise_all ps)); discriminate.
Qed.

Lemma promise_all_fulfilled (ps : list (promise A)) (vs : list A) :
  Forall2 (fun p v => state p = Fulfilled v) ps vs ->
  state (promise_all ps) = Fulfilled vs.
Proof.
  induction 1 as [|p v ps vs Hp _ IH]; simpl; [reflexivity|].
  unfold all2. now rewrite Hp, IH.
Qed.

Lemma promise_all_rejected_inv (ps : list (promise A)) (e : error) :
  state (promise_all ps) = Rejected e ->
  Exists (fun p => state p = Rejected e) ps.
Proof.
  induction ps as [|p ps IH]; simpl; [discriminate|].
  unfold all2.
  destruct (state p) as [a|e0] eqn:Ep;
    destruct (state (promise_all ps)) as [l|e'] eqn:El; simpl.
  - discriminate.
  - intros [= ->]. right. now apply IH.
  - intros [= ->]. now left.
  - destruct (settles p <=? settles (promise_all ps)); simpl; intros [= ->].
    + now left.
    + right. now apply IH.
Qed.

Lemma promise_all_rejected (ps : list (promise A)) :
  Exists (fun p => is_fulfilled (state p) = false) ps ->
  exists e, state (promise_all ps) = Rejected e.
Proof.
  intros H. destruct (state (promise_all ps)) as [vs|e] eqn:E; [|eauto].
  exfalso. apply promise_all_fulfilled_inv in E.
  apply Exists_exists in H as (p & Hin & Hp).
  clear - E Hin Hp. induction E as [|q v ps vs Hq _ IH]; [inversion Hin|].
  destruct Hin as [<-|Hin]; [rewrite Hq in Hp; discriminate|auto].
Qed.

(** A fulfilled [Promise.all] settles when its last promise does. *)
Lemma promise_all_settles (ps : list (promise A)) (vs : list A) :
  state (promise_all ps) = Fulfilled vs ->
  Forall (fun p => settles p <= settles (promise_all ps)) ps.
Proof.
  revert vs; induction ps as [|p ps IH]; intros vs; [constructor|].
  simpl. unfold all2.
  destruct (state p) as [a|e] eqn:Ep;
    destruct (state (promise_all ps)) as [l|e'] eqn:El; simpl;
    try discriminate.
  - intros _. constructor; [lia|].
    eapply Forall_impl; [|apply (IH l eq_refl)]. simpl. intros; lia.
  - destruct (settles p <=? settles (promise_all ps)); discriminate.
Qed.

Lemma launch_all_run (ms : list (async A)) (t : instant) :
  launch_all ms t
  = Run (flat_map (fun m => events (m t)) ms) t
        (Fulfilled (List.map (fun m => Promise (finish (m t)) (result (m t)))
                             ms)).
Proof.
  induction ms as [|m ms IH]; [reflexivity|].
  cbn [launch_all flat_map List.map]. unfold bind at 1. unfold launch.
  cbn [result finish events]. unfold bind. rewrite IH.
  cbn [result finish events]. unfold ret. cbn [events].
  now rewrite app_nil_r.
Qed.

Lemma flat_map_map {X Y Z : Type} (f : Y -> list Z) (g : X -> Y)
      (l : list X) :
  flat_map f (List.map g l) = flat_map (fun x => f (g x)) l.
Proof. induction l as [|x l IH]; simpl; [reflexivity|]. now rewrite IH. Qed.

Lemma bind_run {X Y : Type} (m : async X) (k : X -> async Y) (t : instant) :
  bind m k t
  = match result (m t) with
    | Fulfilled a =>
        Run (events (m t) ++ events (k a (finish (m t))))
            (finish (k a (finish (m t)))) (result (k a (finish (m t))))
    | Rejected e => Run (events (m t)) (finish (m t)) (Rejected e)
    end.
Proof. reflexivity. Qed.

(** The pattern
    [const ps = xs.map(x => f(x)); const vs = await Promise.all(ps); k vs]. *)
Lemma batch_run {B : Type} (ms : list (async A)) (k : list A -> async B)
      (t : instant) :
  bind (launch_all ms) (fun ps => bind (await (promise_all ps)) k) t
  = let runs := List.map (fun m => m t) ms in
    let all := promise_all (List.map promise_of runs) in
    match state all with
    | Fulfilled vs =>
        after (flat_map events runs) (k vs (Nat.max t (settles all)))
    | Rejected e =>
        Run (flat_map events runs) (Nat.max t (settles all)) (Rejected e)
    end.
Proof.
  rewrite bind_run, launch_all_run. cbn [result events finish]. cbn zeta.
  rewrite bind_run. unfold await. cbn [result events finish].
  rewrite !List.map_map, flat_map_map. unfold promise_of.
  destruct (state _) as [vs|e]; cbn [app]; [reflexivity|].
  now rewrite app_nil_r.
Qed.

Lemma not_ended {X : Type} (r : run X) :
  Forall (fun ev => is_exit ev = false) (events r) -> ended r = false.
Proof.
  intros H. unfold ended. destruct (existsb _ _) eqn:E; [|reflexivity].
  apply existsb_exists in E as (ev & Hin & Hev).
  rewrite Forall_forall in H. rewrite (H _ Hin) in Hev. discriminate Hev.
Qed.

(** The handler of a [try] runs whenever the block is rejected in a
    process that has not ended. *)
Lemma Forall_made_by (P : event -> Prop) (s : instant) (evs : list event) :
  Forall P evs -> Forall P (made_by s evs).
Proof.
  intros H. apply Forall_forall. intros ev Hin.
  apply filter_In in Hin as [Hin _]. rewrite Forall_forall in H. auto.
Qed.

Lemma Forall_never_observed {X : Type} (P : event -> Prop) (kept : run X)
      (evs : list event) :
  Forall P (events kept) -> Forall P evs ->
  (forall s e, P (exit_event s e)) ->
  Forall P (never_observed kept evs).
Proof.
  intros Hk He Hx. unfold never_observed.
  destruct (result kept) as [a|e].
  - apply Forall_app. now split.
  - apply Forall_app. split; [now apply Forall_made_by|].
    apply Forall_app. split; [exact He|]. constructor; [apply Hx|constructor].
Qed.

Lemma unobserved_fulfilled {X Y : Type} (kept : run X) (r : run Y) :
  is_fulfilled (result kept) = true -> unobserved kept r = None.
Proof. unfold unobserved. now destruct (result kept). Qed.

Lemma unobserved_later {X Y : Type} (kept : run X) (r : run Y) :
  finish r < finish kept -> unobserved kept r = None.
Proof.
  intros H. unfold unobserved. destruct (result kept); [reflexivity|].
  destruct (Nat.leb_spec (finish kept) (finish r)); [lia|reflexivity].
Qed.

Lemma unobserved_some {X Y : Type} (kept : run X) (r : run Y) (e : error) :
  unobserved kept r = Some e <->
  result kept = Rejected e /\ finish kept <= finish r.
Proof.
  unfold unobserved. destruct (result kept) as [a|e'].
  - split; [discriminate|intros [H _]; discriminate H].
  - destruct (Nat.leb_spec (finish kept) (finish r)); split.
    + intros [= ->]. now split.
    + intros [[= ->] _]. reflexivity.
    + discriminate.
    + intros [_ H']. lia.
Qed.

Lemma In_made_by (s : instant) (evs : list event) (ev : event) :
  In ev (made_by s evs) -> In ev evs.
Proof. intros H. now apply filter_In in H. Qed.

Lemma ended_external {X : Type} (c : call)
      (answer : instant -> nat * outcome X) (t : instant) :
  is_exit (Event 0 0 c true) = false -> ended (external c answer t) = false.
Proof.
  intros Hc. apply not_ended. unfold external.
  destruct (answer t) as [d o]. now repeat constructor.
Qed.

Lemma try_catch_alive {X : Type} (m : async X) (h : error -> async X)
      (t : instant) :
  ended (m t) = false ->
  try_catch m h t
  = match result (m t) with
    | Fulfilled _ => m t
    | Rejected e =>
        Run (events (m t) ++ events (h e (finish (m t))))
            (finish (h e (finish (m t)))) (result (h e (finish (m t))))
    end.
Proof. intros H. unfold try_catch. now rewrite H. Qed.

End AsyncFacts.

Section CallFacts.

Context {A : Type} (Q : call -> Prop).

Lemma calls_ret (a : A) : calls Q (ret a).
Proof. intros t. constructor. Qed.

Lemma calls_throw (e : error) : calls Q (@throw A e).
Proof. intros t. constructor. Qed.

Lemma calls_now (o : outcome A) : calls Q (now o).
Proof. intros t. constructor. Qed.

Lemma calls_await (p : promise A) : calls Q (await p).
Proof. intros t. constructor. Qed.

Lemma calls_bind {B : Type} (m : async B) (k : B -> async A) :
  calls Q m -> (forall b, calls Q (k b)) -> calls Q (bind m k).
Proof.
  intros Hm Hk t. rewrite bind_run.
  destruct (result (m t)) as [b|e]; cbn [events]; [|apply Hm].
  apply Forall_app. split; [apply Hm|apply Hk].
Qed.

Lemma calls_try_catch (m : async A) (h : error -> async A) :
  calls Q m -> (forall e, calls Q (h e)) -> calls Q (try_catch m h).
Proof.
  intros Hm Hh t. unfold try_catch.
  destruct (result (m t)) as [b|e]; cbn [events]; [apply Hm|].
  destruct (ended (m t)); cbn [events]; [apply Hm|].
  apply Forall_app. split; [apply Hm|apply Hh].
Qed.

Lemma calls_catch (m : async A) (h : error -> async A) :
  calls Q m -> (forall e, calls Q (h e)) -> calls Q (catch m h).
Proof. apply calls_try_catch. Qed.

Lemma calls_launch (m : async A) : calls Q m -> calls Q (launch m).
Proof. intros Hm t. apply Hm. Qed.

Lemma calls_launch_all (ms : list (async A)) :
  Forall (calls Q) ms -> calls Q (launch_all ms).
Proof.
  intros H t. rewrite launch_all_run. cbn [events].
  induction H as [|m ms Hm _ IH]; simpl; [constructor|].
  apply Forall_app. split; [apply Hm|exact IH].
Qed.

Lemma calls_external (c : call) (answer : instant -> nat * outcome A) :
  Q c -> calls Q (external c answer).
Proof.
  intros Hc t. unfold external. destruct (answer t) as [d o].
  now repeat constructor.
Qed.

Lemma calls_immediate (c : call) (answer : instant -> outcome A) :
  Q c -> calls Q (immediate c answer).
Proof. intros Hc t. now repeat constructor. Qed.

End CallFacts.

(* ================================================================== *)
(** * Facts about the functions of [main.js] *)
(* ================================================================== *)

Section ProgramFacts.

Variable w : World.

Lemma fetchRepoContents_run (folder : option jsstring) (t : instant) :
  fetchRepoContents w folder t
  = let url := listing_url folder in
    match axios_get_listing w t url with
    | (d, Fulfilled l) =>
        Run [Event t (t + d) (AxiosGet url None) true] (t + d) (Fulfilled l)
    | (d, Rejected e) =>
        Run [Event t (t + d) (AxiosGet url None) false;
             Event (t + d) (t + d)
                   (ConsoleError (lit "Error fetching repository contents:") e)
                   true]
            (t + d) (Rejected e)
    end.
Proof.
  unfold fetchRepoContents, listing_url, try_catch, bind, axios_get, external.
  destruct (axios_get_listing w t _) as [d [l|e]]; reflexivity.
Qed.

Lemma fetchRepoContents_fulfilled
      (folder : option jsstring) (t : instant) (listing : list entry) :
  snd (axios_get_listing w t (listing_url folder)) = Fulfilled listing ->
  fetchRepoContents w folder t
  = Run [listing_request w t folder]
        (t + fst (axios_get_listing w t (listing_url folder)))
        (Fulfilled listing).
Proof.
  intros H. rewrite fetchRepoContents_run. cbn zeta. unfold listing_request.
  destruct (axios_get_listing w t (listing_url folder)) as [d o].
  simpl in H. now subst o.
Qed.

Lemma downloadFile_run (url : jsstring) (hint : option jsstring) (t : instant) :
  downloadFile w url hint t
  = let config := download_config hint in
    match axios_get_file w t url config with
    | (d, Fulfilled body) =>
        Run [Event t (t + d) (AxiosGet url (Some config)) true] (t + d)
            (Fulfilled (if JsString.eqb (hint_or_default hint) (lit "arraybuffer")
                        then body else Text (toString_utf8 w body)))
    | (d, Rejected e) =>
        Run [Event t (t + d) (AxiosGet url (Some config)) false;
             Event (t + d) (t + d)
                   (ConsoleError (lit "Error downloading file:") e) true]
            (t + d) (Rejected e)
    end.
Proof.
  unfold downloadFile, download_config, hint_or_default, try_catch, bind,
    axios_get_with, external.
  destruct (axios_get_file w t url _) as [d [body|e]]; reflexivity.
Qed.

Lemma getChapterFiles_run (t : instant) :
  getChapterFiles w t
  = let r := fetchRepoContents w None t in
    Run (events r) (finish r)
        (match result r with
         | Fulfilled l =>
             Fulfilled (List.map to_remote_file (List.filter is_chapter l))
         | Rejected e => Rejected e
         end).
Proof.
  unfold getChapterFiles, bind, ret. cbn zeta.
  destruct (result (fetchRepoContents w None t)); cbn [events finish result];
    [now rewrite app_nil_r|reflexivity].
Qed.

Lemma getCodeFiles_run (t : instant) :
  getCodeFiles w t
  = let r := fetchRepoContents w (Some (lit "code")) t in
    Run (events r) (finish r)
        (match result r with
         | Fulfilled l => Fulfilled (List.map to_remote_file l)
         | Rejected e => Rejected e
         end).
Proof.
  unfold getCodeFiles, bind, ret. cbn zeta.
  destruct (result (fetchRepoContents w (Some (lit "code")) t));
    cbn [events finish result]; [now rewrite app_nil_r|reflexivity].
Qed.

Lemma getImageFiles_run (t : instant) :
  getImageFiles w t
  = let r := fetchRepoContents w (Some (lit "images")) t in
    Run (events r) (finish r)
        (match result r with
         | Fulfilled l => Fulfilled (List.map to_remote_file l)
         | Rejected e => Rejected e
         end).
Proof.
  unfold getImageFiles, bind, ret. cbn zeta.
  destruct (result (fetchRepoContents w (Some (lit "images")) t));
    cbn [events finish result]; [now rewrite app_nil_r|reflexivity].
Qed.

Lemma is_chapter_iff (file : entry) :
  is_chapter file = true <-> chapter_name (entry_name file).
Proof.
  unfold is_chapter, chapter_name.
  now rewrite andb_true_iff, startsWith_iff, endsWith_iff.
Qed.

Lemma download_runs_eq (hint : option jsstring) (files : list remote_file)
      (t : instant) :
  List.map (fun m : async data => m t)
           (List.map (fun file => downloadFile w (downloadUrl file) hint) files)
  = download_runs w hint files t.
Proof. unfold download_runs. now rewrite List.map_map. Qed.

Lemma mergeFiles_run (files : list remote_file) (t : instant) :
  mergeFiles w files t
  = let runs := download_runs w None files t in
    let all := promise_all (List.map promise_of runs) in
    Run (flat_map events runs) (Nat.max t (settles all))
        (match state all with
         | Fulfilled contents =>
             match map_throwing replace_in contents with
             | Fulfilled docs => Fulfilled (join blank_line docs)
             | Rejected e => Rejected e
             end
         | Rejected e => Rejected e
         end).
Proof.
  unfold mergeFiles. rewrite batch_run. cbn zeta.
  rewrite (download_runs_eq None).
  destruct (state _) as [contents|e]; [|reflexivity].
  rewrite bind_run. unfold now, ret, after. cbn [result events finish].
  destruct (map_throwing replace_in contents); cbn [app events finish result];
    now rewrite ?app_nil_r.
Qed.

Lemma downloads_served (files : list remote_file) (bodies : list data)
      (t : instant) :
  Forall2 (serves w t None) files bodies ->
  state (promise_all (List.map promise_of (download_runs w None files t)))
  = Fulfilled (List.map (fun body => Text (toString_utf8 w body)) bodies).
Proof.
  intros H. apply promise_all_fulfilled. unfold download_runs.
  induction H as [|file body files bodies Hs _ IH]; simpl; constructor; auto.
  cbn [state promise_of]. rewrite downloadFile_run. cbn zeta.
  unfold serves in Hs.
  destruct (axios_get_file w t (downloadUrl file) (download_config None))
    as [d o]. simpl in Hs. now subst o.
Qed.

Lemma replace_in_texts (texts : list jsstring) :
  map_throwing replace_in (List.map Text texts)
  = Fulfilled (List.map rewrite_images texts).
Proof.
  induction texts as [|s l IH]; simpl; [reflexivity|]. now rewrite IH.
Qed.

Lemma mergeFiles_served (files : list remote_file) (bodies : list data)
      (t : instant) :
  Forall2 (serves w t None) files bodies ->
  result (mergeFiles w files t)
  = Fulfilled (join blank_line
                    (List.map (fun body => rewrite_images (toString_utf8 w body))
                              bodies)).
Proof.
  intros H. rewrite mergeFiles_run. cbn zeta. cbn [result].
  rewrite (downloads_served _ _ _ H).
  rewrite <- (List.map_map (toString_utf8 w) Text), replace_in_texts.
  now rewrite List.map_map.
Qed.

End ProgramFacts.

Section StepFacts.

Context {A B : Type}.

Lemma bind_after (m : async A) (k : A -> async B) (t : instant) :
  bind m k t
  = match result (m t) with
    | Fulfilled a => after (events (m t)) (k a (finish (m t)))
    | Rejected e => Run (events (m t)) (finish (m t)) (Rejected e)
    end.
Proof. reflexivity. Qed.

Lemma bind_immediate (c : call) (a : A) (k : A -> async B) (t : instant) :
  bind (immediate c (fun _ => Fulfilled a)) k t
  = after [Event t t c true] (k a t).
Proof. reflexivity. Qed.

Lemma bind_external (c : call) (answer : instant -> nat * outcome A)
      (k : A -> async B) (t : instant) :
  bind (external c answer) k t
  = match answer t with
    | (d, Fulfilled a) => after [Event t (t + d) c true] (k a (t + d))
    | (d, Rejected e) => Run [Event t (t + d) c false] (t + d) (Rejected e)
    end.
Proof.
  unfold bind, external. now destruct (answer t) as [d [a|e]].
Qed.

Lemma bind_launch (m : async A) (k : promise A -> async B) (t : instant) :
  bind (launch m) k t = after (events (m t)) (k (promise_of (m t)) t).
Proof. reflexivity. Qed.

Lemma bind_await (p : promise A) (k : A -> async B) (t : instant) :
  bind (await p) k t
  = match state p with
    | Fulfilled a => k a (Nat.max t (settles p))
    | Rejected e => Run [] (Nat.max t (settles p)) (Rejected e)
    end.
Proof.
  unfold bind, await. cbn [result events finish].
  destruct (state p) as [a|e]; [|reflexivity].
  now destruct (k a (Nat.max t (settles p))).
Qed.

Lemma bind_unattended {C : Type} (f : async C) (m : async A)
      (k : promise C * A -> async B) (t : instant) :
  bind (unattended f m) k t
  = match unobserved (f t) (m t), result (m t) with
    | Some e, _ =>
        Run (made_by (finish (f t)) (events (f t) ++ events (m t))
               ++ [exit_event (finish (f t)) e])
            (finish (f t)) (Rejected e)
    | None, Fulfilled a =>
        after (events (f t) ++ events (m t))
              (k (promise_of (f t), a) (finish (m t)))
    | None, Rejected e =>
        Run (never_observed (f t) (events (m t))) (finish (m t)) (Rejected e)
    end.
Proof.
  unfold bind, unattended. cbn zeta.
  destruct (unobserved (f t) (m t)) as [e|]; [reflexivity|].
  now destruct (result (m t)) as [a|e].
Qed.

Lemma after_after (evs evs' : list event) (r : run A) :
  after evs (after evs' r) = after (evs ++ evs') r.
Proof. unfold after. cbn [events finish result]. now rewrite app_assoc. Qed.

Lemma after_rejected (evs evs' : list event) (t : instant) (e : error) :
  after evs (Run evs' t (@Rejected A e)) = Run (evs ++ evs') t (Rejected e).
Proof. reflexivity. Qed.

End StepFacts.

Create HintDb calls.

#[export] Hint Resolve calls_ret calls_throw calls_now calls_await
  calls_launch calls_external calls_immediate : calls.

Lemma Forall_mapi_from {X Y : Type} (P : Y -> Prop) (f : X -> nat -> Y)
      (l : list X) :
  (forall x i, P (f x i)) -> forall n, Forall P (mapi_from f n l).
Proof.
  intros H. induction l as [|x l IH]; intros n; simpl; constructor; auto.
Qed.

(** Goals [calls Q m], for the functions of the program. *)
Ltac calls_step :=
  match goal with
  | |- calls _ (bind _ _) => apply calls_bind; [|intros ?]
  | |- calls _ (try_catch _ _) => apply calls_try_catch; [|intros ?]
  | |- calls _ (catch _ _) => apply calls_catch; [|intros ?]
  | |- calls _ (launch_all (List.map _ _)) =>
      apply calls_launch_all, Forall_map, Forall_forall; intros ? _
  | |- calls _ (launch_all (mapi _ _)) =>
      apply calls_launch_all, Forall_mapi_from; intros ? ?
  | |- calls _ (launch _) => apply calls_launch
  | |- calls _ (external _ _) => apply calls_external
  | |- calls _ (immediate _ _) => apply calls_immediate
  | |- calls _ (ret _) => apply calls_ret
  | |- calls _ (throw _) => apply calls_throw
  | |- calls _ (now _) => apply calls_now
  | |- calls _ (await _) => apply calls_await
  | |- calls _ (let _ := _ in _) => cbv zeta
  end.

(** A goal about the events of several stages, stage by stage. *)
Ltac split_events :=
  repeat match goal with
         | |- Forall _ (_ ++ _) => apply Forall_app; split
         | |- Forall _ (made_by _ _) => apply Forall_made_by
         | |- Forall _ (never_observed _ _) =>
             apply Forall_never_observed; [| |intros ? ?; exact I]
         | |- Forall _ [exit_event _ _] => constructor; [exact I|constructor]
         end.

Ltac calls_tac :=
  repeat calls_step;
  try solve [exact I | simpl; discriminate | assumption | auto with calls].

Section CallsOfTheProgram.

Variable w : World.

Lemma fetchRepoContents_calls (Q : call -> Prop) (folder : option jsstring) :
  (forall url, Q (AxiosGet url None)) ->
  (forall label e, Q (ConsoleError label e)) ->
  calls Q (fetchRepoContents w folder).
Proof.
  intros H1 H2. unfold fetchRepoContents, axios_get, console_error.
  calls_tac; auto.
Qed.

Lemma downloadFile_calls (Q : call -> Prop) (url : jsstring)
      (hint : option jsstring) :
  (forall config, Q (AxiosGet url (Some config))) ->
  (forall label e, Q (ConsoleError label e)) ->
  calls Q (downloadFile w url hint).
Proof.
  intros H1 H2. unfold downloadFile, axios_get_with, console_error.
  calls_tac; auto.
Qed.

Lemma listings_before_export :
  calls before_export (getCodeFiles w)
  /\ calls before_export (getImageFiles w)
  /\ calls before_export (getChapterFiles w).
Proof.
  unfold getCodeFiles, getImageFiles, getChapterFiles.
  repeat split; calls_tac; apply fetchRepoContents_calls; intros; exact I.
Qed.

Lemma listings_not_download :
  calls not_download (getCodeFiles w)
  /\ calls not_download (getImageFiles w)
  /\ calls not_download (getChapterFiles w).
Proof.
  unfold getCodeFiles, getImageFiles, getChapterFiles.
  repeat split; calls_tac; apply fetchRepoContents_calls; intros; exact I.
Qed.

Lemma createCodeFiles_before_export (files : list remote_file) :
  calls before_export (createCodeFiles w files).
Proof.
  unfold createCodeFiles, fs_call. calls_tac.
  apply downloadFile_calls; intros; exact I.
Qed.

Lemma createImageFiles_before_export (files : list remote_file) :
  calls before_export (createImageFiles w files).
Proof.
  unfold createImageFiles, fs_call, console_log. calls_tac.
  apply downloadFile_calls; intros; exact I.
Qed.

Lemma mergeFiles_before_export (files : list remote_file) :
  calls before_export (mergeFiles w files).
Proof.
  unfold mergeFiles. calls_tac. apply downloadFile_calls; intros; exact I.
Qed.

Lemma saveAsPDF_not_download (mergedContent : jsstring) :
  calls not_download (saveAsPDF w mergedContent).
Proof.
  unfold saveAsPDF, fs_call, console_log, console_error, convertFile,
    puppeteer_call, page_on.
  calls_tac.
Qed.

Lemma listings_not_remove :
  calls not_remove (getCodeFiles w)
  /\ calls not_remove (getImageFiles w)
  /\ calls not_remove (getChapterFiles w).
Proof.
  unfold getCodeFiles, getImageFiles, getChapterFiles.
  repeat split; calls_tac; apply fetchRepoContents_calls; intros; exact I.
Qed.

Lemma batches_not_remove (files : list remote_file) :
  calls not_remove (createCodeFiles w files)
  /\ calls not_remove (createImageFiles w files)
  /\ calls not_remove (mergeFiles w files).
Proof.
  unfold createCodeFiles, createImageFiles, mergeFiles, fs_call, console_log.
  repeat split; calls_tac; apply downloadFile_calls; intros; exact I.
Qed.

End CallsOfTheProgram.

Section SuccessFacts.

Context {A : Type}.

Lemma succeeds_ret (a : A) : succeeds (ret a).
Proof. intros t. reflexivity. Qed.

Lemma succeeds_bind {B : Type} (m : async B) (k : B -> async A) :
  succeeds m -> (forall b, succeeds (k b)) -> succeeds (bind m k).
Proof.
  intros Hm Hk t. rewrite bind_run. specialize (Hm t).
  destruct (result (m t)) as [b|e]; [apply Hk|discriminate].
Qed.

Lemma succeeds_catch (m : async A) (h : error -> async A) :
  (forall t, ended (m t) = false) ->
  (forall e, succeeds (h e)) -> succeeds (catch m h).
Proof.
  intros Hm Hh t. unfold catch. rewrite try_catch_alive by apply Hm.
  destruct (result (m t)) as [a|e] eqn:E; [now rewrite E|apply Hh].
Qed.

Lemma succeeds_try_catch (m : async A) (h : error -> async A) :
  succeeds m -> succeeds (try_catch m h).
Proof.
  intros Hm t. unfold try_catch. specialize (Hm t).
  destruct (result (m t)) as [a|e] eqn:E; [now rewrite E|discriminate].
Qed.

Lemma succeeds_external (c : call) (answer : instant -> nat * outcome A) :
  (forall t, is_fulfilled (snd (answer t)) = true) ->
  succeeds (external c answer).
Proof.
  intros H t. unfold external. specialize (H t).
  now destruct (answer t) as [d o].
Qed.

Lemma succeeds_immediate (c : call) (answer : instant -> outcome A) :
  (forall t, is_fulfilled (answer t) = true) -> succeeds (immediate c answer).
Proof. intros H t. apply H. Qed.

Lemma promise_all_of_fulfilled (ps : list (promise A)) :
  Forall (fun p => is_fulfilled (state p) = true) ps ->
  is_fulfilled (state (promise_all ps)) = true.
Proof.
  induction 1 as [|p ps Hp _ IH]; [reflexivity|].
  simpl. unfold all2.
  destruct (state p); [|discriminate].
  now destruct (state (promise_all ps)).
Qed.

(** The pattern of [batch_run], when every task and what follows succeed. *)
Lemma succeeds_batch {B : Type} (ms : list (async A)) (k : list A -> async B) :
  Forall succeeds ms -> (forall vs, succeeds (k vs)) ->
  succeeds (bind (launch_all ms) (fun ps => bind (await (promise_all ps)) k)).
Proof.
  intros Hms Hk t. rewrite batch_run. cbn zeta.
  assert (H : is_fulfilled
                (state (promise_all
                          (List.map promise_of (List.map (fun m => m t) ms))))
              = true).
  { apply promise_all_of_fulfilled. rewrite List.map_map.
    apply Forall_map. eapply Forall_impl; [|exact Hms].
    intros m Hm. apply Hm. }
  destruct (state _) as [vs|e]; [|discriminate H]. apply Hk.
Qed.

Lemma performs_bind_l {B : Type} (c : call) (m : async B) (k : B -> async A) :
  performs c m -> performs c (bind m k).
Proof.
  intros Hm t. destruct (Hm t) as (t1 & t2 & Hin). exists t1, t2.
  rewrite bind_run. destruct (result (m t)); cbn [events]; auto.
  apply in_app_iff. now left.
Qed.

Lemma performs_bind_r {B : Type} (c : call) (m : async B) (k : B -> async A) :
  succeeds m -> (forall b, performs c (k b)) -> performs c (bind m k).
Proof.
  intros Hm Hk t. rewrite bind_run. specialize (Hm t).
  destruct (result (m t)) as [b|e]; [|discriminate].
  destruct (Hk b (finish (m t))) as (t1 & t2 & Hin). exists t1, t2.
  cbn [events]. apply in_app_iff. now right.
Qed.

Lemma performs_external (c : call) (answer : instant -> nat * outcome A) :
  (forall t, is_fulfilled (snd (answer t)) = true) ->
  performs c (external c answer).
Proof.
  intros H t. unfold external. specialize (H t).
  destruct (answer t) as [d o]. simpl in H. rewrite H.
  exists t, (t + d). now left.
Qed.

End SuccessFacts.

Section TimeFacts.

Context {A : Type}.

Lemma within_weaken (t t' u u' : instant) (evs : list event) :
  u <= t -> t' <= u' -> within t t' evs -> within u u' evs.
Proof.
  intros H1 H2 H. eapply Forall_impl; [|exact H].
  cbv beta. intros ev [Ha Hb]. lia.
Qed.

Lemma within_app (t t' : instant) (evs evs' : list event) :
  within t t' evs -> within t t' evs' -> within t t' (evs ++ evs').
Proof. intros H H'. apply Forall_app. now split. Qed.

Lemma sequential_ret (a : A) : sequential (ret a).
Proof. intros t. split; [apply Nat.le_refl|constructor]. Qed.

Lemma sequential_throw (e : error) : sequential (@throw A e).
Proof. intros t. split; [apply Nat.le_refl|constructor]. Qed.

Lemma sequential_now (o : outcome A) : sequential (now o).
Proof. intros t. split; [apply Nat.le_refl|constructor]. Qed.

Lemma sequential_await (p : promise A) : sequential (await p).
Proof. intros t. split; [apply Nat.le_max_l|constructor]. Qed.

Lemma sequential_external (c : call) (answer : instant -> nat * outcome A) :
  sequential (external c answer).
Proof.
  intros t. unfold external. destruct (answer t) as [d o].
  cbn [finish events]. split; [lia|]. repeat constructor; cbn; lia.
Qed.

Lemma sequential_immediate (c : call) (answer : instant -> outcome A) :
  sequential (immediate c answer).
Proof.
  intros t. unfold immediate. cbn [finish events]. split; [lia|].
  repeat constructor; cbn; lia.
Qed.

Lemma sequential_bind {B : Type} (m : async B) (k : B -> async A) :
  sequential m -> (forall b, sequential (k b)) -> sequential (bind m k).
Proof.
  intros Hm Hk t. rewrite bind_run. destruct (Hm t) as [H1 H2].
  destruct (result (m t)) as [b|e]; cbn [finish events]; [|now split].
  destruct (Hk b (finish (m t))) as [H3 H4]. split; [lia|].
  apply within_app; [eapply within_weaken; [| |exact H2]; lia|].
  eapply within_weaken; [| |exact H4]; lia.
Qed.

Lemma sequential_try_catch (m : async A) (h : error -> async A) :
  sequential m -> (forall e, sequential (h e)) -> sequential (try_catch m h).
Proof.
  intros Hm Hh t. unfold try_catch. destruct (Hm t) as [H1 H2].
  destruct (result (m t)) as [a|e]; cbn [finish events]; [now split|].
  destruct (ended (m t)); cbn [finish events]; [now split|].
  destruct (Hh e (finish (m t))) as [H3 H4]. split; [lia|].
  apply within_app; [eapply within_weaken; [| |exact H2]; lia|].
  eapply within_weaken; [| |exact H4]; lia.
Qed.

Lemma joined_of_sequential (m : async A) : sequential m -> joined m.
Proof. intros H t. destruct (H t). now split. Qed.

Lemma joined_bind {B : Type} (m : async B) (k : B -> async A) :
  joined m -> (forall b, joined (k b)) -> joined (bind m k).
Proof.
  intros Hm Hk t. rewrite bind_run. destruct (Hm t) as [H1 H2].
  destruct (result (m t)) as [b|e]; cbn [finish events result];
    [|split; [exact H1|discriminate]].
  destruct (Hk b (finish (m t))) as [H3 H4]. split; [lia|].
  intros Hf. specialize (H2 eq_refl). specialize (H4 Hf).
  apply within_app; [eapply within_weaken; [| |exact H2]; lia|].
  eapply within_weaken; [| |exact H4]; lia.
Qed.

(** What is joined by a fulfilled [Promise.all] has settled when it is. *)
Lemma joined_runs {X : Type} (ms : list (async X)) (t : instant)
      (vs : list X) :
  Forall joined ms ->
  state (promise_all (List.map promise_of (List.map (fun m => m t) ms)))
  = Fulfilled vs ->
  within t (settles (promise_all
                       (List.map promise_of (List.map (fun m => m t) ms))))
         (flat_map events (List.map (fun m => m t) ms)).
Proof.
  intros Hms Hall.
  pose proof (promise_all_settles _ _ Hall) as Hs.
  apply promise_all_fulfilled_inv in Hall.
  set (T := settles _) in *. clearbody T.
  revert vs Hall Hs. induction Hms as [|m ms Hm _ IH]; intros vs Hall Hs;
    [constructor|].
  cbn [List.map flat_map] in *.
  inversion Hall as [|? v ? vs' Hv Hvs]; subst.
  inversion Hs as [|? ? Hp Hps]; subst.
  cbn [promise_of state settles] in Hv, Hp.
  apply within_app; [|eapply IH; eauto].
  destruct (Hm t) as [H1 H2]. rewrite Hv in H2.
  eapply within_weaken; [| |apply (H2 eq_refl)]; lia.
Qed.

Lemma joined_batch {B : Type} (ms : list (async B)) (k : list B -> async A) :
  Forall joined ms -> (forall vs, joined (k vs)) ->
  joined (bind (launch_all ms) (fun ps => bind (await (promise_all ps)) k)).
Proof.
  intros Hms Hk t. rewrite batch_run. cbn zeta.
  destruct (state _) as [vs|e] eqn:E; cbn [finish result events after].
  - destruct (Hk vs (Nat.max t (settles
                (promise_all (List.map promise_of
                                       (List.map (fun m => m t) ms))))))
      as [H3 H4]. unfold instant in *.
    split; [lia|]. intros Hf. specialize (H4 Hf).
    apply within_app.
    + eapply within_weaken; [| |apply (joined_runs ms t vs Hms E)];
        unfold instant in *; lia.
    + eapply within_weaken; [| |exact H4]; unfold instant in *; lia.
  - split; [lia|discriminate].
Qed.

End TimeFacts.

Ltac timing_step :=
  match goal with
  | |- sequential (bind _ _) => apply sequential_bind; [|intros ?]
  | |- sequential (try_catch _ _) => apply sequential_try_catch; [|intros ?]
  | |- sequential (catch _ _) => apply sequential_try_catch; [|intros ?]
  | |- sequential (external _ _) => apply sequential_external
  | |- sequential (immediate _ _) => apply sequential_immediate
  | |- sequential (ret _) => apply sequential_ret
  | |- sequential (throw _) => apply sequential_throw
  | |- sequential (now _) => apply sequential_now
  | |- sequential (await _) => apply sequential_await
  | |- sequential (let _ := _ in _) => cbv zeta
  | |- joined (bind (launch_all _) _) => apply joined_batch; [|intros ?]
  | |- joined (bind _ _) => apply joined_bind; [|intros ?]
  | |- joined (let _ := _ in _) => cbv zeta
  | |- joined _ => apply joined_of_sequential
  | |- Forall joined (List.map _ _) =>
      apply Forall_map, Forall_forall; intros ? _
  | |- Forall joined (mapi _ _) => apply Forall_mapi_from; intros ? ?
  end.

Ltac timing_tac := repeat timing_step; try solve [auto].

Section TimingOfTheProgram.

Variable w : World.

Lemma fetchRepoContents_sequential (folder : option jsstring) :
  sequential (fetchRepoContents w folder).
Proof.
  unfold fetchRepoContents, axios_get, console_error. timing_tac.
Qed.

Lemma downloadFile_sequential (url : jsstring) (hint : option jsstring) :
  sequential (downloadFile w url hint).
Proof.
  unfold downloadFile, axios_get_with, console_error. timing_tac.
Qed.

Lemma listings_sequential :
  sequential (getCodeFiles w) /\ sequential (getImageFiles w)
  /\ sequential (getChapterFiles w).
Proof.
  unfold getCodeFiles, getImageFiles, getChapterFiles.
  split; [|split]; timing_tac; apply fetchRepoContents_sequential.
Qed.

Lemma createCodeFiles_joined (files : list remote_file) :
  joined (createCodeFiles w files).
Proof.
  unfold createCodeFiles, fs_call. timing_tac.
  apply downloadFile_sequential.
Qed.

Lemma createImageFiles_joined (files : list remote_file) :
  joined (createImageFiles w files).
Proof.
  unfold createImageFiles, fs_call, console_log. timing_tac.
  apply downloadFile_sequential.
Qed.

Lemma mergeFiles_joined (files : list remote_file) :
  joined (mergeFiles w files).
Proof.
  unfold mergeFiles. timing_tac. apply downloadFile_sequential.
Qed.

End TimingOfTheProgram.

Section JoinFacts.

Context {A B : Type}.

Lemma all2_fulfilled_inv (p : promise A) (q : promise B) (v : A * B) :
  state (all2 p q) = Fulfilled v ->
  state p = Fulfilled (fst v) /\ state q = Fulfilled (snd v)
  /\ settles (all2 p q) = Nat.max (settles p) (settles q).
Proof.
  unfold all2.
  destruct (state p) as [a|e]; destruct (state q) as [b|e'];
    cbn [state settles]; try discriminate.
  - now intros [= <-].
  - destruct (settles p <=? settles q); discriminate.
Qed.

End JoinFacts.

Section BatchFacts.

Variable w : World.

(** The one request of a download, and its log when it fails. *)
Lemma downloadFile_events (url : jsstring) (hint : option jsstring)
      (t : instant) :
  Forall (fun ev =>
            is_download ev = true ->
            launched ev = t
            /\ settled ev = finish (downloadFile w url hint t)
            /\ succeeded ev = is_fulfilled (result (downloadFile w url hint t))
            /\ what ev = AxiosGet url (Some (download_config hint)))
         (events (downloadFile w url hint t)).
Proof.
  rewrite downloadFile_run. cbn zeta.
  destruct (axios_get_file w t url (download_config hint)) as [d [body|e]];
    cbn [events finish result]; repeat constructor; cbn; auto; discriminate.
Qed.

Lemma downloads_went_well (hint : option jsstring) (files : list remote_file)
      (t : instant) (contents : list data) :
  state (promise_all (List.map promise_of (download_runs w hint files t)))
  = Fulfilled contents ->
  Forall download_went_well (flat_map events (download_runs w hint files t)).
Proof.
  intros H. apply promise_all_fulfilled_inv in H. revert contents H.
  unfold download_runs.
  induction files as [|file files IH]; intros contents H; [constructor|].
  inversion H as [|? c ? cs Hc Hcs]; subst. cbn [List.map flat_map].
  apply Forall_app. split; [|eapply IH; eauto].
  eapply Forall_impl; [|apply downloadFile_events].
  intros ev Hev Hd. destruct (Hev Hd) as (_ & _ & -> & _).
  cbn [promise_of state] in Hc. now rewrite Hc.
Qed.

Lemma downloads_refused (hint : option jsstring) (files : list remote_file)
      (t : instant) :
  Exists (refuses w t hint) files ->
  exists e,
    state (promise_all (List.map promise_of (download_runs w hint files t)))
    = Rejected e.
Proof.
  intros H. apply promise_all_rejected. unfold download_runs.
  rewrite List.map_map. apply Exists_exists in H as (file & Hin & Hr).
  apply Exists_exists. exists (promise_of (downloadFile w (downloadUrl file) hint t)).
  split; [apply in_map_iff; now exists file|].
  cbn [promise_of state]. rewrite downloadFile_run. cbn zeta.
  unfold refuses in Hr.
  destruct (axios_get_file w t (downloadUrl file) (download_config hint))
    as [d [body|e]]; [discriminate Hr|reflexivity].
Qed.

Lemma writes_not_download (ops : list fs_op) (t : instant) :
  Forall (fun ev => is_download ev = false)
         (flat_map events
                   (List.map (fun op => external (Fs op) (fun t => fs w t op) t)
                             ops)).
Proof.
  induction ops as [|op ops IH]; [constructor|].
  cbn [List.map flat_map]. apply Forall_app. split; [|exact IH].
  unfold external. destruct (fs w t op) as [d o]. now repeat constructor.
Qed.

Lemma stage_shape_went_well
      (hint : option jsstring) (dir : jsstring)
      (write : list data -> remote_file -> nat -> fs_op)
      (done_events : instant -> list event)
      (files : list remote_file) (t : instant) :
  (forall t', Forall (fun ev => is_download ev = false) (done_events t')) ->
  is_fulfilled (result (stage_shape w hint dir write done_events files t))
  = true ->
  Forall download_went_well
         (events (stage_shape w hint dir write done_events files t)).
Proof.
  intros Hdone. unfold stage_shape. cbn zeta.
  destruct (state _) as [contents|e] eqn:E; [|discriminate].
  destruct (fs w _ (EnsureDir dir)) as [d [[]|e]]; [|discriminate].
  destruct (state (promise_all (List.map promise_of (List.map _ _))))
    as [vs|e]; [|discriminate].
  intros _. cbn [events]. rewrite !Forall_app. repeat split.
  - eapply downloads_went_well; eauto.
  - now repeat constructor.
  - eapply Forall_impl; [|apply writes_not_download].
    unfold download_went_well. intros ev ->. discriminate.
  - eapply Forall_impl; [|apply Hdone].
    unfold download_went_well. intros ev ->. discriminate.
Qed.

Lemma stage_shape_refused
      (hint : option jsstring) (dir : jsstring)
      (write : list data -> remote_file -> nat -> fs_op)
      (done_events : instant -> list event)
      (files : list remote_file) (t : instant) :
  Exists (refuses w t hint) files ->
  exists e, result (stage_shape w hint dir write done_events files t)
            = Rejected e.
Proof.
  intros H. destruct (downloads_refused _ _ _ H) as [e He].
  exists e. unfold stage_shape. cbn zeta. now rewrite He.
Qed.

Lemma mergeFiles_went_well (files : list remote_file) (t : instant) :
  is_fulfilled (result (mergeFiles w files t)) = true ->
  Forall download_went_well (events (mergeFiles w files t)).
Proof.
  rewrite mergeFiles_run. cbn zeta. cbn [result events].
  destruct (state _) as [contents|e] eqn:E; [|discriminate].
  intros _. eapply downloads_went_well; eauto.
Qed.

Lemma mergeFiles_refused (files : list remote_file) (t : instant) :
  Exists (refuses w t None) files ->
  exists e, result (mergeFiles w files t) = Rejected e.
Proof.
  intros H. destruct (downloads_refused _ _ _ H) as [e He].
  exists e. rewrite mergeFiles_run. cbn zeta. cbn [result]. now rewrite He.
Qed.

End BatchFacts.

Section PairFacts.

Context {A B : Type}.

(** The pattern [await Promise.all([f(), g()])] of [saveAsPDF]. *)
Lemma pair_run (m1 m2 : async A) (k : list A -> async B) (t : instant) :
  bind (launch m1)
       (fun p => bind (launch m2)
                      (fun q => bind (await (promise_all [p; q])) k)) t
  = let r1 := m1 t in
    let r2 := m2 t in
    let all := promise_all [promise_of r1; promise_of r2] in
    match state all with
    | Fulfilled vs =>
        after (events r1 ++ events r2) (k vs (Nat.max t (settles all)))
    | Rejected e =>
        Run (events r1 ++ events r2) (Nat.max t (settles all)) (Rejected e)
    end.
Proof.
  rewrite !bind_launch, bind_await. cbn zeta.
  destruct (state _) as [vs|e]; rewrite ?after_rejected, ?after_after;
    rewrite ?app_nil_r; reflexivity.
Qed.

Lemma succeeds_pair (m1 m2 : async A) (k : list A -> async B) :
  succeeds m1 -> succeeds m2 -> (forall vs, succeeds (k vs)) ->
  succeeds (bind (launch m1)
                 (fun p => bind (launch m2)
                                (fun q => bind (await (promise_all [p; q])) k))).
Proof.
  intros H1 H2 Hk t. rewrite pair_run. cbn zeta.
  assert (H : is_fulfilled
                (state (promise_all [promise_of (m1 t); promise_of (m2 t)]))
              = true)
    by (apply promise_all_of_fulfilled; repeat constructor;
        [apply H1|apply H2]).
  destruct (state _) as [vs|e]; [apply Hk|discriminate H].
Qed.

End PairFacts.

Ltac succeeds_step :=
  match goal with
  | |- succeeds (bind (launch _) (fun _ => bind (launch _) _)) =>
      apply succeeds_pair; [| |intros ?]
  | |- succeeds (bind (launch_all _) _) => apply succeeds_batch; [|intros ?]
  | |- succeeds (bind _ _) => apply succeeds_bind; [|intros ?]
  | |- succeeds (catch _ _) =>
      apply succeeds_catch;
      [intros ?; apply ended_external; reflexivity|intros ?]
  | |- succeeds (try_catch _ _) => apply succeeds_try_catch
  | |- succeeds (external _ _) => apply succeeds_external; intros ?
  | |- succeeds (immediate _ _) => apply succeeds_immediate; intros ?
  | |- succeeds (ret _) => apply succeeds_ret
  | |- succeeds (let _ := _ in _) => cbv zeta
  | |- Forall succeeds (List.map _ _) =>
      apply Forall_map, Forall_forall; intros ? _
  | |- Forall succeeds (mapi _ _) => apply Forall_mapi_from; intros ? ?
  end.

Ltac succeeds_tac :=
  repeat succeeds_step; try solve [reflexivity | auto].

(** The call looked for is the next one, or comes after a step that
    succeeds. *)
Ltac find_call :=
  lazymatch goal with
  | |- performs ?c (bind (external ?c _) _) =>
      apply performs_bind_l, performs_external; intros ?
  | |- performs _ (bind _ _) =>
      apply performs_bind_r; [succeeds_tac|intros ?; find_call]
  end.

Section ObligingWorld.

Variable w : World.
Hypothesis Hw : obliging w.

Lemma obliging_listing (t : instant) (url : jsstring) :
  is_fulfilled (snd (axios_get_listing w t url)) = true.
Proof. apply Hw. Qed.

Lemma obliging_file (t : instant) (url : jsstring) (c : request_config) :
  is_fulfilled (snd (axios_get_file w t url c)) = true.
Proof. apply Hw. Qed.

Lemma obliging_fs (t : instant) (op : fs_op) :
  is_fulfilled (snd (fs w t op)) = true.
Proof. apply Hw. Qed.

Lemma obliging_asciidoctor (t : instant) (file : jsstring)
      (options : convert_options) :
  is_fulfilled (asciidoctor_convertFile w t file options) = true.
Proof. apply Hw. Qed.

Lemma obliging_puppeteer (t : instant) (op : browser_op) :
  is_fulfilled (snd (puppeteer w t op)) = true.
Proof. apply Hw. Qed.

Hint Resolve obliging_listing obliging_file obliging_fs obliging_asciidoctor
  obliging_puppeteer : core.

Lemma fetchRepoContents_succeeds (folder : option jsstring) :
  succeeds (fetchRepoContents w folder).
Proof. unfold fetchRepoContents, axios_get. succeeds_tac. Qed.

Lemma downloadFile_succeeds (url : jsstring) (hint : option jsstring) :
  succeeds (downloadFile w url hint).
Proof. unfold downloadFile, axios_get_with. succeeds_tac. Qed.

Lemma createCodeFiles_succeeds (files : list remote_file) :
  succeeds (createCodeFiles w files).
Proof.
  unfold createCodeFiles, fs_call. succeeds_tac. apply downloadFile_succeeds.
Qed.

Lemma createImageFiles_succeeds (files : list remote_file) :
  succeeds (createImageFiles w files).
Proof.
  unfold createImageFiles, fs_call, console_log. succeeds_tac.
  apply downloadFile_succeeds.
Qed.

Lemma saveAsPDF_succeeds (mergedContent : jsstring) :
  succeeds (saveAsPDF w mergedContent).
Proof.
  unfold saveAsPDF, fs_call, console_log, console_error, convertFile,
    puppeteer_call, page_on.
  succeeds_tac.
Qed.

Lemma saveAsPDF_writes_merged (mergedContent : jsstring) :
  performs (Fs (OutputFile (path_join w [TEMP_DIR; lit "merged.adoc"])
                           (Some (Text mergedContent)) (lit "utf8")))
           (saveAsPDF w mergedContent).
Proof.
  unfold saveAsPDF, fs_call. cbv zeta. find_call. auto.
Qed.

Lemma saveAsPDF_prints (mergedContent : jsstring) :
  performs (Puppeteer (Pdf page_pdf_options)) (saveAsPDF w mergedContent).
Proof.
  unfold saveAsPDF, fs_call, console_log, console_error, convertFile,
    puppeteer_call, page_on.
  cbv zeta. find_call. auto.
Qed.

End ObligingWorld.

Section Reassociation.

Context {A B C : Type}.

Lemma bind_assoc_run (m : async A) (f : A -> async B) (g : B -> async C)
      (t : instant) :
  bind (bind m f) g t = bind m (fun x => bind (f x) g) t.
Proof.
  unfold bind. destruct (result (m t)) as [a|e]; cbn [result finish events];
    [|reflexivity].
  destruct (result (f a (finish (m t)))) as [b|e]; cbn [result finish events];
    [|reflexivity].
  now rewrite app_assoc.
Qed.

Lemma bind_cong (m : async A) (k k' : A -> async B) (t : instant) :
  (forall a t', k a t' = k' a t') -> bind m k t = bind m k' t.
Proof.
  intros H. unfold bind. destruct (result (m t)) as [a|e]; [|reflexivity].
  now rewrite H.
Qed.

Lemma ends_with_bind (c : call) (m : async A) (k : A -> async B) :
  (forall a, ends_with c (k a)) -> ends_with c (bind m k).
Proof.
  intros Hk t. rewrite bind_run.
  destruct (result (m t)) as [a|e]; cbn [result finish events];
    [|discriminate].
  intros Hf. destruct (Hk a _ Hf) as [t0 Hin]. exists t0.
  apply in_app_iff. now right.
Qed.

Lemma ends_with_external (c : call) (answer : instant -> nat * outcome A) :
  ends_with c (external c answer).
Proof.
  intros t. unfold external. destruct (answer t) as [d [a|e]];
    cbn [result finish events is_fulfilled]; [|discriminate].
  intros _. exists t. now left.
Qed.

End Reassociation.

Section ExportFacts.

Variable w : World.

(** [saveAsPDF] is [render], then [cleanup]. *)
Lemma saveAsPDF_split (mergedContent : jsstring) (t : instant) :
  saveAsPDF w mergedContent t
  = bind (render w mergedContent) (fun _ => cleanup w) t.
Proof.
  unfold saveAsPDF, render, cleanup. cbv zeta.
  repeat (rewrite bind_assoc_run; apply bind_cong; intros ? ?).
  reflexivity.
Qed.

Lemma render_sequential (mergedContent : jsstring) :
  sequential (render w mergedContent).
Proof.
  unfold render, fs_call, console_log, console_error, convertFile,
    puppeteer_call, page_on.
  timing_tac.
Qed.

Lemma render_not_remove (mergedContent : jsstring) :
  calls not_remove (render w mergedContent).
Proof.
  unfold render, fs_call, console_log, console_error, convertFile,
    puppeteer_call, page_on.
  calls_tac.
Qed.

Lemma render_ends_with_pdf (mergedContent : jsstring) :
  ends_with (Puppeteer (Pdf page_pdf_options)) (render w mergedContent).
Proof.
  unfold render, puppeteer_call. cbv zeta.
  repeat (apply ends_with_bind; intros ?). apply ends_with_external.
Qed.

(** The two calls of [cleanup] are made at once. *)
Lemma cleanup_run (t : instant) :
  cleanup w t
  = let closing := puppeteer_call w Close t in
    let removing := fs_call w (Remove TEMP_DIR) t in
    let all := promise_all [promise_of closing; promise_of removing] in
    let t' := Nat.max t (settles all) in
    match state all with
    | Fulfilled _ =>
        Run (events closing ++ events removing
               ++ [Event t' t' (ConsoleLog [lit "PDF saved as " ++ OUTPUT_FILE])
                         true])
            t' (Fulfilled tt)
    | Rejected e => Run (events closing ++ events removing) t' (Rejected e)
    end.
Proof.
  unfold cleanup. rewrite pair_run. cbn zeta.
  destruct (state _) as [vs|e]; [|reflexivity].
  unfold after, console_log, immediate. cbn [events finish result is_fulfilled].
  now rewrite <- app_assoc.
Qed.

Lemma cleanup_fulfilled (t : instant) (u : unit) :
  result (cleanup w t) = Fulfilled u ->
  exists dc dr,
    cleanup w t
    = Run (cleanup_events t dc dr (Nat.max (t + dc) (t + dr)))
          (Nat.max (t + dc) (t + dr)) (Fulfilled tt).
Proof.
  rewrite cleanup_run. unfold puppeteer_call, fs_call, external. cbn zeta.
  destruct (puppeteer w t Close) as [dc [[]|e]];
    destruct (fs w t (Remove TEMP_DIR)) as [dr [[]|e']];
    cbn [promise_all promise_of promise_map all2 state settles finish result
         events is_fulfilled fst snd app];
    try discriminate.
  - intros _. exists dc, dr. unfold cleanup_events.
    replace (Nat.max t (Nat.max (t + dc) (Nat.max (t + dr) 0)))
      with (Nat.max (t + dc) (t + dr)) by lia.
    reflexivity.
  - destruct (t + dc <=? t + dr); cbn [state result]; discriminate.
Qed.

(** A fulfilled [saveAsPDF]: [render] has run and printed the page, and
    only then the directory is removed. *)
Lemma saveAsPDF_fulfilled (mergedContent : jsstring) (t : instant) (u : unit) :
  result (saveAsPDF w mergedContent t) = Fulfilled u ->
  exists dc dr,
    let T := finish (render w mergedContent t) in
    let T' := Nat.max (T + dc) (T + dr) in
    saveAsPDF w mergedContent t
    = Run (events (render w mergedContent t) ++ cleanup_events T dc dr T')
          T' (Fulfilled tt)
    /\ exists t0, In (Event t0 T (Puppeteer (Pdf page_pdf_options)) true)
                     (events (render w mergedContent t)).
Proof.
  rewrite saveAsPDF_split, bind_run.
  destruct (result (render w mergedContent t)) as [[]|e] eqn:Er;
    [|discriminate].
  cbn [result]. intros Hc.
  destruct (cleanup_fulfilled _ _ Hc) as (dc & dr & Hrun).
  exists dc, dr. cbn zeta. rewrite Hrun. cbn [events finish result].
  split; [reflexivity|].
  apply render_ends_with_pdf. now rewrite Er.
Qed.

End ExportFacts.

Section BatchTiming.

Variable w : World.






End BatchTiming.

Section MainFacts.

Variable w : World.

Lemma mapi_from_map {X Y Z : Type} (f : X -> nat -> Y) (g : Y -> Z)
      (l : list X) :
  forall n, List.map g (mapi_from f n l) = mapi_from (fun x i => g (f x i)) n l.
Proof.
  induction l as [|x l IH]; intros n; simpl; [reflexivity|]. now rewrite IH.
Qed.

Lemma createCodeFiles_run (files : list remote_file) (t : instant) :
  createCodeFiles w files t
  = stage_shape w None (path_join w [TEMP_DIR; lit "code"]) (write_code w)
                (fun _ => []) files t.
Proof.
  unfold createCodeFiles, stage_shape. rewrite batch_run. cbn zeta.
  rewrite (download_runs_eq w None).
  destruct (state _) as [contents|e]; [|reflexivity].
  unfold fs_call at 1. rewrite bind_external.
  destruct (fs w _ (EnsureDir _)) as [d [[]|e]].
  2:{ unfold after. cbn [events finish result]. reflexivity. }
  rewrite batch_run. cbn zeta. unfold mapi, fs_call, write_code.
  rewrite !mapi_from_map.
  destruct (state _) as [vs|e]; unfold after, ret;
    cbn [events finish result app]; rewrite ?app_nil_r; reflexivity.
Qed.

Lemma createImageFiles_run (files : list remote_file) (t : instant) :
  createImageFiles w files t
  = stage_shape w (Some (lit "arraybuffer"))
                (path_join w [TEMP_DIR; lit "images"]) (write_image w)
                (images_saved w) files t.
Proof.
  unfold createImageFiles, stage_shape. rewrite batch_run. cbn zeta.
  rewrite (download_runs_eq w (Some (lit "arraybuffer"))).
  destruct (state _) as [contents|e]; [|reflexivity].
  unfold fs_call at 1. rewrite bind_external.
  destruct (fs w _ (EnsureDir _)) as [d [[]|e]].
  2:{ unfold after. cbn [events finish result]. reflexivity. }
  rewrite batch_run. cbn zeta. unfold mapi, fs_call, write_image.
  rewrite !mapi_from_map.
  destruct (state _) as [vs|e]; unfold after, console_log, immediate,
    images_saved; cbn [events finish result app is_fulfilled];
    rewrite <- ?app_assoc; reflexivity.
Qed.

Lemma main_try_run (t : instant) : main_try w t = main_shape w t.
Proof.
  unfold main_try, main_shape, console_log, fs_call.
  rewrite bind_immediate, bind_external.
  destruct (fs w t (EnsureDir TEMP_DIR)) as [d [[]|e]]; [|reflexivity].
  rewrite !bind_immediate, !after_after. cbn [app].
  rewrite bind_after.
  destruct (result (getCodeFiles w (t + d))) as [codeFiles|e];
    [|reflexivity].
  rewrite bind_unattended.
  destruct (unobserved _ _) as [e|].
  { rewrite ?after_rejected, ?after_after. cbn zeta.
    unfold started_events, prelude_events, processing_events. cbn [app].
    rewrite <- ?app_assoc; reflexivity. }
  destruct (result (getImageFiles w (finish (getCodeFiles w (t + d)))))
    as [imageFiles|e].
  2:{ rewrite ?after_rejected, ?after_after. cbn zeta.
      unfold started_events, prelude_events, processing_events. cbn [app].
      rewrite <- ?app_assoc; reflexivity. }
  cbn [fst snd]. rewrite !bind_launch, bind_await. cbn zeta.
  destruct (state (promise_all3 _ _ _)) as [j|e].
  - rewrite !after_after. unfold after, export, console_log.
    unfold started_events, prelude_events, processing_events. cbn [app].
    rewrite <- ?app_assoc; reflexivity.
  - rewrite ?after_rejected, ?after_after.
    unfold started_events, prelude_events, processing_events. cbn [app].
    rewrite ?app_nil_r, <- ?app_assoc; reflexivity.
Qed.

Lemma export_run (chapterFiles : list remote_file) (t : instant) :
  export w chapterFiles t
  = let rm := mergeFiles w chapterFiles t in
    match result rm with
    | Rejected e => Run (events rm) (finish rm) (Rejected e)
    | Fulfilled merged =>
        after (events rm
                 ++ [Event (finish rm) (finish rm)
                           (ConsoleLog [lit "Generating PDF..."]) true])
              (bind (saveAsPDF w merged)
                    (fun _ => console_log [lit "Process completed successfully!"])
                    (finish rm))
    end.
Proof.
  unfold export. rewrite bind_after. cbn zeta.
  destruct (result (mergeFiles w chapterFiles t)) as [merged|e];
    [|reflexivity].
  unfold console_log at 1. now rewrite bind_immediate, after_after.
Qed.

Lemma not_download_event (ev : event) :
  not_download (what ev) -> is_download ev = true -> False.
Proof.
  unfold is_download. destruct (what ev) as [url [c|]| | | | | |]; simpl;
    auto; discriminate.
Qed.

Lemma started_before_export (t : instant) (d : nat) :
  Forall (fun ev => before_export (what ev)) (started_events t d).
Proof. repeat constructor; simpl; discriminate. Qed.

Lemma started_not_download (t : instant) (d : nat) :
  Forall (fun ev => not_download (what ev)) (started_events t d).
Proof. repeat constructor. Qed.

Lemma staging_went_well (t : instant) :
  (forall files,
      is_fulfilled (result (createCodeFiles w files t)) = true ->
      Forall download_went_well (events (createCodeFiles w files t)))
  /\ (forall files,
         is_fulfilled (result (createImageFiles w files t)) = true ->
         Forall download_went_well (events (createImageFiles w files t))).
Proof.
  split; intros files.
  - rewrite createCodeFiles_run. apply stage_shape_went_well.
    intros t'. constructor.
  - rewrite createImageFiles_run. apply stage_shape_went_well.
    intros t'. now repeat constructor.
Qed.

(** A download that fails anywhere in a run of [main] rejects the [try]
    block before the export starts. *)
Lemma failed_download_rejects_main_try (t : instant) (ev : event) :
  In ev (events (main_try w t)) ->
  is_download ev = true -> succeeded ev = false ->
  exists e, result (main_try w t) = Rejected e
            /\ Forall (fun ev' => before_export (what ev'))
                      (events (main_try w t)).
Proof.
  rewrite main_try_run. unfold main_shape.
  destruct (listings_before_export w) as (Hbc & Hbi & Hbl).
  destruct (listings_not_download w) as (Hnc & Hni & Hnl).
  pose proof (createCodeFiles_before_export w) as Hbsc.
  pose proof (createImageFiles_before_export w) as Hbsi.
  destruct (fs w t (EnsureDir TEMP_DIR)) as [d [[]|e]].
  2:{ intros _ _ _. exists e. split; [reflexivity|].
      repeat constructor; simpl; discriminate. }
  cbn zeta.
  destruct (result (getCodeFiles w (t + d))) as [codeFiles|e].
  2:{ intros _ _ _. exists e. split; [reflexivity|]. cbn [events].
      apply Forall_app. split; [apply started_before_export|apply Hbc]. }
  destruct (unobserved _ _) as [e|].
  { intros _ _ _. exists e. split; [reflexivity|]. cbn [events].
    split_events;
      [apply started_before_export|apply Hbc|apply Hbsc|apply Hbi]. }
  destruct (result (getImageFiles w _)) as [imageFiles|e].
  2:{ intros _ _ _. exists e. split; [reflexivity|]. cbn [events].
      split_events;
        [apply started_before_export|apply Hbc|apply Hbsc|apply Hbi]. }
  set (t1 := finish (getCodeFiles w (t + d))).
  set (t2 := finish (getImageFiles w t1)).
  assert (Hstaged :
            Forall (fun ev' => before_export (what ev'))
                   (started_events t d
                      ++ events (getCodeFiles w (t + d))
                      ++ events (createCodeFiles w codeFiles t1)
                      ++ events (getImageFiles w t1)
                      ++ events (createImageFiles w imageFiles t2)
                      ++ events (getChapterFiles w t2))).
  { split_events;
      [apply started_before_export|apply Hbc|apply Hbsc|apply Hbi
       |apply Hbsi|apply Hbl]. }
  destruct (state (promise_all3 _ _ _)) as [j|e] eqn:Ej.
  2:{ intros _ _ _. exists e. split; [reflexivity|exact Hstaged]. }
  apply all2_fulfilled_inv in Ej as (Hsc & Ej & _).
  apply all2_fulfilled_inv in Ej as (Hsi & _ & _).
  cbn [promise_of state] in Hsc, Hsi.
  destruct (staging_went_well t1) as [Hwc _].
  destruct (staging_went_well t2) as [_ Hwi].
  specialize (Hwc codeFiles). specialize (Hwi imageFiles).
  rewrite Hsc in Hwc. rewrite Hsi in Hwi.
  specialize (Hwc eq_refl). specialize (Hwi eq_refl).
  rewrite export_run. cbn zeta.
  set (tj := Nat.max t2 _).
  destruct (result (mergeFiles w (snd (snd j)) tj)) as [merged|e] eqn:Em.
  - (* the merge went through: there is no failed download to be found *)
    intros Hin Hd Hf. exfalso.
    assert (Hwm : Forall download_went_well
                         (events (mergeFiles w (snd (snd j)) tj)))
      by (apply mergeFiles_went_well; now rewrite Em).
    assert (Hbad : forall l, Forall download_went_well l -> ~ In ev l).
    { intros l Hl Hinl. rewrite Forall_forall in Hl.
      specialize (Hl _ Hinl Hd). congruence. }
    assert (Hnot : forall l, Forall (fun ev' => not_download (what ev')) l ->
                             ~ In ev l).
    { intros l Hl Hinl. rewrite Forall_forall in Hl.
      exact (not_download_event _ (Hl _ Hinl) Hd). }
    cbn [events after] in Hin. rewrite !in_app_iff in Hin.
    destruct Hin as [[Hin|[Hin|[Hin|[Hin|[Hin|Hin]]]]]|[[Hin|Hin]|Hin]].
    + exact (Hnot _ (started_not_download t d) Hin).
    + exact (Hnot _ (Hnc _) Hin).
    + exact (Hbad _ Hwc Hin).
    + exact (Hnot _ (Hni _) Hin).
    + exact (Hbad _ Hwi Hin).
    + exact (Hnot _ (Hnl _) Hin).
    + exact (Hbad _ Hwm Hin).
    + destruct Hin as [<-|[]]. discriminate Hd.
    + revert Hin. apply Hnot.
      assert (Hc : calls not_download
                         (bind (saveAsPDF w merged)
                               (fun _ => console_log
                                           [lit "Process completed successfully!"])))
        by (apply calls_bind; [apply saveAsPDF_not_download|];
            intros; unfold console_log; calls_tac).
      apply Hc.
  - intros _ _ _. exists e. split; [reflexivity|]. cbn [events].
    apply Forall_app. split; [exact Hstaged|].
    apply mergeFiles_before_export.
Qed.

End MainFacts.

Section BatchedStaging.

Variable w : World.



End BatchedStaging.

Section ObligingRun.

Variable w : World.
Hypothesis Hw : obliging w.

Lemma getCodeFiles_succeeds : succeeds (getCodeFiles w).
Proof.
  unfold getCodeFiles. succeeds_tac. now apply fetchRepoContents_succeeds.
Qed.

Lemma getImageFiles_succeeds : succeeds (getImageFiles w).
Proof.
  unfold getImageFiles. succeeds_tac. now apply fetchRepoContents_succeeds.
Qed.

Lemma mergeFiles_nil (t : instant) : mergeFiles w [] t = Run [] t (Fulfilled []).
Proof.
  rewrite mergeFiles_run. cbn. now rewrite Nat.max_0_r.
Qed.

(** With no chapter in the listing, the run goes on to [saveAsPDF] with
    the empty document. *)
Lemma main_try_without_chapters (t : instant) :
  (forall t' l,
      snd (axios_get_listing w t' (listing_url None)) = Fulfilled l ->
      List.filter is_chapter l = []) ->
  exists staged tj,
    main_try w t
    = after (staged ++ [Event tj tj (ConsoleLog [lit "Generating PDF..."]) true])
            (bind (saveAsPDF w [])
                  (fun _ => console_log [lit "Process completed successfully!"])
                  tj).
Proof.
  intros Hnone. rewrite main_try_run. unfold main_shape.
  pose proof (obliging_fs w Hw t (EnsureDir TEMP_DIR)) as Hfs.
  destruct (fs w t (EnsureDir TEMP_DIR)) as [d [[]|e]]; [|discriminate Hfs].
  cbn zeta.
  pose proof (getCodeFiles_succeeds (t + d)) as Hrc.
  destruct (result (getCodeFiles w (t + d))) as [codeFiles|e];
    [|discriminate Hrc].
  set (t1 := finish (getCodeFiles w (t + d))).
  pose proof (createCodeFiles_succeeds w Hw codeFiles t1) as Hsc.
  rewrite (unobserved_fulfilled _ (getImageFiles w t1) Hsc).
  pose proof (getImageFiles_succeeds t1) as Hri.
  destruct (result (getImageFiles w t1)) as [imageFiles|e];
    [|discriminate Hri].
  set (t2 := finish (getImageFiles w t1)).
  pose proof (createImageFiles_succeeds w Hw imageFiles t2) as Hsi.
  assert (Hlc : result (getChapterFiles w t2) = Fulfilled []).
  { rewrite getChapterFiles_run. cbn zeta. cbn [result].
    pose proof (obliging_listing w Hw t2 (listing_url None)) as Hl.
    destruct (snd (axios_get_listing w t2 (listing_url None))) as [l|e] eqn:El;
      [|discriminate Hl].
    rewrite (fetchRepoContents_fulfilled w None t2 l El). cbn [result].
    now rewrite (Hnone t2 l El). }
  unfold promise_all3, all2. cbn [promise_of state settles].
  destruct (result (createCodeFiles w codeFiles t1)) as [[]|e];
    [|discriminate Hsc].
  destruct (result (createImageFiles w imageFiles t2)) as [[]|e];
    [|discriminate Hsi].
  rewrite Hlc. cbn [state settles snd].
  rewrite export_run. cbn zeta. rewrite mergeFiles_nil.
  cbn [result events finish app].
  match goal with
  | |- exists _ _, Run (?S ++ events ?r) _ _ = _ =>
      change (Run (S ++ events r) (finish r) (result r)) with (after S r)
  end.
  rewrite after_after. eexists _, _. reflexivity.
Qed.

End ObligingRun.

Section SuccessfulRun.

Variable w : World.

Lemma started_within (t : instant) (d : nat) :
  within t (t + d) (started_events t d).
Proof. repeat constructor; cbn; lia. Qed.

(** The run of a [try] block that is fulfilled: everything but the
    cleanup has settled when the cleanup starts, right after the page
    was printed. *)
Lemma main_try_fulfilled (t : instant) (u : unit) :
  result (main_try w t) = Fulfilled u ->
  exists evs T dc dr d,
    events (main_try w t) = evs ++ closing_events T dc dr
    /\ within t T evs
    /\ Forall (fun ev => not_remove (what ev)) evs
    /\ firstn 2 evs = prelude_events t d true
    /\ exists t0, In (Event t0 T (Puppeteer (Pdf page_pdf_options)) true) evs.
Proof.
  rewrite main_try_run. unfold main_shape.
  destruct (fs w t (EnsureDir TEMP_DIR)) as [d [[]|e]]; [|discriminate].
  cbn zeta.
  destruct (listings_sequential w) as (Hqc & Hqi & Hql).
  destruct (Hqc (t + d)) as [Hc1 Hc2].
  destruct (result (getCodeFiles w (t + d))) as [codeFiles|e];
    [|discriminate].
  set (t1 := finish (getCodeFiles w (t + d))) in *.
  destruct (Hqi t1) as [Hi1 Hi2].
  destruct (unobserved _ _) as [e|]; [discriminate|].
  destruct (result (getImageFiles w t1)) as [imageFiles|e]; [|discriminate].
  set (t2 := finish (getImageFiles w t1)) in *.
  destruct (Hql t2) as [Hl1 Hl2].
  destruct (createCodeFiles_joined w codeFiles t1) as [Hsc1 Hsc2].
  destruct (createImageFiles_joined w imageFiles t2) as [Hsi1 Hsi2].
  destruct (state (promise_all3 _ _ _)) as [j|e] eqn:Ej; [|discriminate].
  pose proof Ej as Ej'.
  apply all2_fulfilled_inv in Ej' as (Hsc & Ej' & Hmax1).
  apply all2_fulfilled_inv in Ej' as (Hsi & Hlc & Hmax2).
  cbn [promise_of state settles] in Hsc, Hsi, Hlc, Hmax1, Hmax2.
  rewrite Hsc in Hsc2. rewrite Hsi in Hsi2.
  specialize (Hsc2 eq_refl). specialize (Hsi2 eq_refl).
  unfold promise_all3 in *. rewrite Hmax1, Hmax2.
  set (tj := Nat.max t2 _).
  rewrite export_run. cbn zeta.
  destruct (mergeFiles_joined w (snd (snd j)) tj) as [Hm1 Hm2].
  destruct (result (mergeFiles w (snd (snd j)) tj)) as [merged|e];
    [|discriminate].
  specialize (Hm2 eq_refl).
  set (tm := finish (mergeFiles w (snd (snd j)) tj)) in *.
  unfold after. cbn [result events finish]. rewrite bind_run.
  destruct (result (saveAsPDF w merged tm)) as [[]|e] eqn:Es; [|discriminate].
  destruct (saveAsPDF_fulfilled w merged tm tt Es) as (dc & dr & Hrun & Hpdf).
  destruct Hpdf as [t0 Hpdf].
  destruct (render_sequential w merged tm) as [Hr1 Hr2].
  set (T := finish (render w merged tm)) in *.
  rewrite Hrun. cbn [result events finish]. intros _.
  exists ((started_events t d
             ++ events (getCodeFiles w (t + d))
             ++ events (createCodeFiles w codeFiles t1)
             ++ events (getImageFiles w t1)
             ++ events (createImageFiles w imageFiles t2)
             ++ events (getChapterFiles w t2))
            ++ (events (mergeFiles w (snd (snd j)) tj)
                  ++ [Event tm tm (ConsoleLog [lit "Generating PDF..."]) true])
            ++ events (render w merged tm)),
    T, dc, dr, d.
  assert (Hj : t2 <= tj /\ finish (createCodeFiles w codeFiles t1) <= tj
               /\ finish (createImageFiles w imageFiles t2) <= tj
               /\ finish (getChapterFiles w t2) <= tj)
    by (unfold tj, instant in *; lia).
  destruct Hj as (Hj1 & Hj2 & Hj3 & Hj4).
  split; [|split; [|split; [|split]]].
  - unfold closing_events, immediate, console_log.
    cbn [events finish result is_fulfilled]. cbn zeta.
    rewrite <- !app_assoc. reflexivity.
  - unfold instant in *.
    repeat match goal with
           | |- within _ _ (_ ++ _) => apply within_app
           end.
    + eapply within_weaken; [| |apply started_within]; lia.
    + eapply within_weaken; [| |exact Hc2]; lia.
    + eapply within_weaken; [| |exact Hsc2]; lia.
    + eapply within_weaken; [| |exact Hi2]; lia.
    + eapply within_weaken; [| |exact Hsi2]; lia.
    + eapply within_weaken; [| |exact Hl2]; lia.
    + eapply within_weaken; [| |exact Hm2]; lia.
    + repeat constructor; cbn; lia.
    + eapply within_weaken; [| |exact Hr2]; lia.
  - destruct (listings_not_remove w) as (Hn1 & Hn2 & Hn3).
    split_events.
    + repeat constructor.
    + apply Hn1.
    + apply (batches_not_remove w codeFiles).
    + apply Hn2.
    + apply (batches_not_remove w imageFiles).
    + apply Hn3.
    + apply (batches_not_remove w (snd (snd j))).
    + repeat constructor.
    + apply render_not_remove.
  - reflexivity.
  - exists t0. rewrite !in_app_iff. now right; right.
Qed.

Lemma temp_dir_removed (evs : list event) (t T : instant) (dc dr : nat) :
  within t T evs ->
  temp_dir_may_exist (evs ++ closing_events T dc dr) = false.
Proof.
  intros Hevs. unfold temp_dir_may_exist.
  destruct (existsb _ _) eqn:E; [|reflexivity]. exfalso.
  apply existsb_exists in E as (c & Hin & Hc).
  apply andb_true_iff in Hc as [Hc Hno].
  apply negb_true_iff in Hno.
  apply in_app_iff in Hin as [Hin|Hin].
  - assert (Hyes : existsb (fun r => removing_temp_dir r
                                     && (settled c <=? launched r))
                           (evs ++ closing_events T dc dr) = true).
    { apply existsb_exists.
      exists (Event T (T + dr) (Fs (Remove TEMP_DIR)) true). split.
      - apply in_app_iff. right. unfold closing_events, cleanup_events.
        cbn. auto.
      - apply andb_true_iff. split; [reflexivity|].
        apply Nat.leb_le. cbn [launched].
        unfold within in Hevs. rewrite Forall_forall in Hevs.
        now apply Hevs. }
    congruence.
  - unfold closing_events, cleanup_events in Hin. cbn zeta in Hin.
    cbn [app] in Hin.
    destruct Hin as [<-|[<-|[<-|[<-|[]]]]]; discriminate Hc.
Qed.

(** Whatever the run, the calls of the [try] block are calls that
    remove nothing, followed by nothing or by those of [saveAsPDF] and
    what is logged after it. *)
Ltac pieces :=
  split_events;
  first [ assumption
        | apply (proj1 (listings_not_remove _))
        | apply (proj1 (proj2 (listings_not_remove _)))
        | apply (proj2 (proj2 (listings_not_remove _)))
        | apply (proj1 (batches_not_remove _ _))
        | apply (proj1 (proj2 (batches_not_remove _ _)))
        | apply (proj2 (proj2 (batches_not_remove _ _)))
        | now repeat constructor ].

Lemma main_try_events (t : instant) :
  exists before rest,
    events (main_try w t) = before ++ rest
    /\ Forall (fun ev => not_remove (what ev)) before
    /\ (rest = []
        \/ exists merged tm logged,
            rest = events (saveAsPDF w merged tm) ++ logged
            /\ Forall (fun ev => not_remove (what ev)) logged).
Proof.
  rewrite main_try_run. unfold main_shape.
  destruct (listings_not_remove w) as (Hn1 & Hn2 & Hn3).
  pose proof (batches_not_remove w) as Hb.
  destruct (fs w t (EnsureDir TEMP_DIR)) as [d [[]|e]].
  2:{ eexists _, []. rewrite app_nil_r. split; [reflexivity|].
      split; [now repeat constructor|now left]. }
  cbn zeta.
  assert (Hst : Forall (fun ev => not_remove (what ev)) (started_events t d))
    by now repeat constructor.
  destruct (result (getCodeFiles w (t + d))) as [codeFiles|e].
  2:{ eexists _, []. rewrite app_nil_r. split; [reflexivity|].
      split; [|now left]. cbn [events]. pieces. }
  destruct (unobserved _ _) as [e|].
  { eexists _, []. rewrite app_nil_r. split; [reflexivity|].
    split; [|now left]. cbn [events]. pieces. }
  destruct (result (getImageFiles w _)) as [imageFiles|e].
  2:{ eexists _, []. rewrite app_nil_r. split; [reflexivity|].
      split; [|now left]. cbn [events].
      pieces. }
  set (t1 := finish (getCodeFiles w (t + d))).
  set (t2 := finish (getImageFiles w t1)).
  assert (Hstaged :
            Forall (fun ev => not_remove (what ev))
                   (started_events t d
                      ++ events (getCodeFiles w (t + d))
                      ++ events (createCodeFiles w codeFiles t1)
                      ++ events (getImageFiles w t1)
                      ++ events (createImageFiles w imageFiles t2)
                      ++ events (getChapterFiles w t2)))
    by pieces.
  destruct (state (promise_all3 _ _ _)) as [j|e].
  2:{ eexists _, []. rewrite app_nil_r. split; [reflexivity|].
      split; [exact Hstaged|now left]. }
  rewrite export_run. cbn zeta.
  set (tj := Nat.max t2 _).
  destruct (result (mergeFiles w (snd (snd j)) tj)) as [merged|e].
  2:{ eexists _, []. rewrite app_nil_r. split; [reflexivity|].
      split; [|now left]. cbn [events].
      pieces. }
  set (tm := finish (mergeFiles w (snd (snd j)) tj)).
  unfold after. cbn [events]. rewrite bind_run.
  exists ((started_events t d
             ++ events (getCodeFiles w (t + d))
             ++ events (createCodeFiles w codeFiles t1)
             ++ events (getImageFiles w t1)
             ++ events (createImageFiles w imageFiles t2)
             ++ events (getChapterFiles w t2))
            ++ events (mergeFiles w (snd (snd j)) tj)
            ++ [Event tm tm (ConsoleLog [lit "Generating PDF..."]) true]).
  destruct (result (saveAsPDF w merged tm)) as [[]|e]; cbn [events].
  - exists (events (saveAsPDF w merged tm)
              ++ [Event (finish (saveAsPDF w merged tm))
                        (finish (saveAsPDF w merged tm))
                        (ConsoleLog [lit "Process completed successfully!"])
                        true]).
    split; [now rewrite <- !app_assoc|].
    split; [pieces|].
    right. eexists _, _, _. split; [reflexivity|]. now repeat constructor.
  - exists (events (saveAsPDF w merged tm)).
    split; [now rewrite <- !app_assoc|].
    split; [pieces|].
    right. exists merged, tm, []. rewrite app_nil_r. split; [reflexivity|].
    constructor.
Qed.

(** A removal in [saveAsPDF] is the one of [cleanup], made when
    [page.pdf] has succeeded. *)
Lemma saveAsPDF_removal (mergedContent : jsstring) (t : instant) (ev : event)
      (path : jsstring) :
  In ev (events (saveAsPDF w mergedContent t)) ->
  what ev = Fs (Remove path) ->
  path = TEMP_DIR
  /\ exists t0, In (Event t0 (launched ev) (Puppeteer (Pdf page_pdf_options))
                          true)
                   (events (saveAsPDF w mergedContent t)).
Proof.
  rewrite saveAsPDF_split, bind_run.
  pose proof (render_not_remove w mergedContent t) as Hnr.
  pose proof (render_ends_with_pdf w mergedContent t) as Hpdf.
  assert (Hno : forall l, Forall (fun ev' => not_remove (what ev')) l ->
                          In ev l -> what ev = Fs (Remove path) -> False).
  { intros l Hl Hin Hw. rewrite Forall_forall in Hl.
    specialize (Hl _ Hin). now rewrite Hw in Hl. }
  destruct (result (render w mergedContent t)) as [[]|e]; cbn [events].
  2:{ intros Hin Hw. destruct (Hno _ Hnr Hin Hw). }
  destruct (Hpdf eq_refl) as [t0 Ht0].
  rewrite cleanup_run. unfold puppeteer_call, fs_call, external. cbn zeta.
  destruct (puppeteer w _ Close) as [dc oc].
  destruct (fs w _ (Remove TEMP_DIR)) as [dr or].
  rewrite in_app_iff. intros [Hin|Hin] Hw; [destruct (Hno _ Hnr Hin Hw)|].
  assert (Hev : ev = Event (finish (render w mergedContent t))
                           (finish (render w mergedContent t) + dr)
                           (Fs (Remove TEMP_DIR)) (is_fulfilled or)).
  { destruct (state _); cbn [events app] in Hin.
    - destruct Hin as [<-|[<-|[<-|[]]]]; try discriminate Hw; reflexivity.
    - destruct Hin as [<-|[<-|[]]]; try discriminate Hw; reflexivity. }
  subst ev. cbn [what launched] in *. injection Hw as <-.
  split; [reflexivity|]. exists t0. apply in_app_iff. now left.
Qed.

Lemma main_try_removal (t : instant) (ev : event) (path : jsstring) :
  In ev (events (main_try w t)) ->
  what ev = Fs (Remove path) ->
  path = TEMP_DIR
  /\ exists t0, In (Event t0 (launched ev) (Puppeteer (Pdf page_pdf_options))
                          true)
                   (events (main_try w t)).
Proof.
  destruct (main_try_events t) as (before & rest & -> & Hb & Hrest).
  assert (Hno : forall l, Forall (fun ev' => not_remove (what ev')) l ->
                          In ev l -> what ev = Fs (Remove path) -> False).
  { intros l Hl Hin Hw. rewrite Forall_forall in Hl.
    specialize (Hl _ Hin). now rewrite Hw in Hl. }
  rewrite in_app_iff. intros [Hin|Hin] Hw; [destruct (Hno _ Hb Hin Hw)|].
  destruct Hrest as [->|(merged & tm & logged & -> & Hl)]; [destruct Hin|].
  apply in_app_iff in Hin as [Hin|Hin]; [|destruct (Hno _ Hl Hin Hw)].
  destruct (saveAsPDF_removal _ _ _ _ Hin Hw) as (-> & t0 & Ht0).
  split; [reflexivity|]. exists t0. rewrite !in_app_iff. now right; left.
Qed.

End SuccessfulRun.

Section Liveness.

Variable w : World.

Lemma not_exit_event (ev : event) : not_exit (what ev) -> is_exit ev = false.
Proof. unfold is_exit. now destruct (what ev). Qed.

Lemma program_never_exits :
  calls not_exit (getCodeFiles w)
  /\ calls not_exit (getImageFiles w)
  /\ calls not_exit (getChapterFiles w)
  /\ (forall files, calls not_exit (createCodeFiles w files))
  /\ (forall files, calls not_exit (createImageFiles w files))
  /\ (forall files, calls not_exit (mergeFiles w files))
  /\ (forall merged, calls not_exit (saveAsPDF w merged)).
Proof.
  unfold getCodeFiles, getImageFiles, getChapterFiles, createCodeFiles,
    createImageFiles, mergeFiles, saveAsPDF, fs_call, console_log,
    console_error, convertFile, puppeteer_call, page_on.
  repeat split; intros; calls_tac;
    first [apply fetchRepoContents_calls|apply downloadFile_calls];
    intros; exact I.
Qed.

Lemma export_never_exits (chapterFiles : list remote_file) :
  calls not_exit (export w chapterFiles).
Proof.
  destruct program_never_exits as (_ & _ & _ & _ & _ & Hm & Hs).
  unfold export, console_log. calls_tac; first [apply Hm|apply Hs].
Qed.

(** A run is alive at its end when the process ends later, if at all. *)
Lemma not_ended_yet {X : Type} (r : run X) :
  Forall (fun ev => is_exit ev = false \/ finish r < launched ev) (events r) ->
  ended r = false.
Proof.
  intros H. unfold ended. destruct (existsb _ _) eqn:E; [|reflexivity].
  apply existsb_exists in E as (ev & Hin & Hev).
  rewrite Forall_forall in H. apply andb_true_iff in Hev as [Hx Hl].
  apply Nat.leb_le in Hl. destruct (H _ Hin) as [H'|H']; [congruence|lia].
Qed.

Lemma quiet_events {X : Type} (m : async X) (t T : instant) :
  calls not_exit m ->
  Forall (fun ev => is_exit ev = false \/ T < launched ev) (events (m t)).
Proof.
  intros H. eapply Forall_impl; [|apply H].
  intros ev Hev. left. now apply not_exit_event.
Qed.

(** The one way for the [try] block of [main] to end the process: the
    staging of the code files is rejected by the time the listing of
    the images settles. *)
Lemma main_try_ended_cases (t : instant) :
  ended (main_try w t) = false
  \/ exists d codeFiles e,
      fs w t (EnsureDir TEMP_DIR) = (d, Fulfilled tt)
      /\ result (getCodeFiles w (t + d)) = Fulfilled codeFiles
      /\ unobserved
           (createCodeFiles w codeFiles (finish (getCodeFiles w (t + d))))
           (getImageFiles w (finish (getCodeFiles w (t + d))))
         = Some e.
Proof.
  destruct program_never_exits as (Hc & Hi & Hl & Hsc & Hsi & _ & _).
  rewrite main_try_run. unfold main_shape.
  destruct (fs w t (EnsureDir TEMP_DIR)) as [d [[]|e]].
  2:{ left. apply not_ended. now repeat constructor. }
  cbn zeta.
  assert (Hst : forall T,
             Forall (fun ev => is_exit ev = false \/ T < launched ev)
                    (started_events t d))
    by (intros T; repeat constructor).
  destruct (result (getCodeFiles w (t + d))) as [codeFiles|e] eqn:Erc.
  2:{ left. apply not_ended_yet. cbn [events finish].
      apply Forall_app. split; [apply Hst|now apply quiet_events]. }
  set (t1 := finish (getCodeFiles w (t + d))).
  destruct (unobserved _ _) as [e|] eqn:Eu.
  { right. exists d, codeFiles, e.
    split; [reflexivity|]. split; [exact Erc|exact Eu]. }
  left. apply not_ended_yet.
  destruct (result (getImageFiles w t1)) as [imageFiles|e] eqn:Ei.
  2:{ cbn [events finish].
      apply Forall_app. split; [apply Hst|].
      apply Forall_app. split; [now apply quiet_events|].
      unfold never_observed, unobserved in *.
      destruct (result (createCodeFiles w codeFiles t1)) as [u|e'].
      - apply Forall_app. split; now apply quiet_events.
      - destruct (Nat.leb_spec (finish (createCodeFiles w codeFiles t1))
                               (finish (getImageFiles w t1)));
          [discriminate Eu|].
        apply Forall_app. split.
        + apply Forall_made_by. now apply quiet_events.
        + apply Forall_app. split; [now apply quiet_events|].
          constructor; [|constructor]. right. cbn [launched exit_event]. lia. }
  set (t2 := finish (getImageFiles w t1)).
  assert (Hstaged : forall T,
             Forall (fun ev => is_exit ev = false \/ T < launched ev)
                    (started_events t d
                       ++ events (getCodeFiles w (t + d))
                       ++ events (createCodeFiles w codeFiles t1)
                       ++ events (getImageFiles w t1)
                       ++ events (createImageFiles w imageFiles t2)
                       ++ events (getChapterFiles w t2))).
  { intros T. apply Forall_app. split; [apply Hst|].
    repeat (apply Forall_app; split; [now apply quiet_events|]).
    now apply quiet_events. }
  destruct (state (promise_all3 _ _ _)) as [j|e]; cbn [events finish].
  - apply Forall_app. split; [apply Hstaged|].
    apply quiet_events, export_never_exits.
  - apply Hstaged.
Qed.

(** What the handler of [main] makes of the run of its [try] block. *)
Lemma main_run (t : instant) :
  main w t
  = let r := main_try w t in
    match result r with
    | Fulfilled _ => r
    | Rejected e =>
        if ended r then r
        else Run (events r ++ [caught (finish r) e]) (finish r) (Fulfilled tt)
    end.
Proof. reflexivity. Qed.

End Liveness.

Section MainLaws.

Variable w : World.

(** The run of the [try] block that ends the process. *)
Lemma main_try_killed (t : instant) (d : nat) (codeFiles : list remote_file)
      (e : error) :
  fs w t (EnsureDir TEMP_DIR) = (d, Fulfilled tt) ->
  result (getCodeFiles w (t + d)) = Fulfilled codeFiles ->
  let t1 := finish (getCodeFiles w (t + d)) in
  let sc := createCodeFiles w codeFiles t1 in
  let ri := getImageFiles w t1 in
  unobserved sc ri = Some e ->
  main_try w t
  = Run (started_events t d
           ++ events (getCodeFiles w (t + d))
           ++ made_by (finish sc) (events sc ++ events ri)
           ++ [exit_event (finish sc) e])
        (finish sc) (Rejected e).
Proof.
  intros Hfs Hrc t1 sc ri Hu. rewrite main_try_run. unfold main_shape.
  rewrite Hfs. cbn zeta. rewrite Hrc. fold t1. fold sc ri. now rewrite Hu.
Qed.

Lemma ended_at_exit {X : Type} (evs : list event) (s : instant) (e : error)
      (o : outcome X) :
  ended (Run (evs ++ [exit_event s e]) s o) = true.
Proof.
  unfold ended. apply existsb_exists. exists (exit_event s e). split.
  - cbn [events]. apply in_or_app. right. now left.
  - cbn [finish launched exit_event is_exit what]. now rewrite Nat.leb_refl.
Qed.

(** A run of the [try] block that ends the process ends with the
    unhandled rejection. *)
Lemma main_try_ended (t : instant) :
  ended (main_try w t) = true ->
  exists evs e,
    main_try w t
    = Run (evs ++ [exit_event (finish (main_try w t)) e])
          (finish (main_try w t)) (Rejected e).
Proof.
  intros He.
  destruct (main_try_ended_cases w t)
    as [H|(d & codeFiles & e & Hfs & Hrc & Hu)]; [congruence|].
  rewrite (main_try_killed t d codeFiles e Hfs Hrc Hu). cbn [finish].
  eexists _, e. rewrite !app_assoc. reflexivity.
Qed.

(** The handler of [main] runs when its [try] block is rejected in a
    process that is still there, and only then. *)
Lemma main_cases (t : instant) :
  (main w t = main_try w t
   /\ (is_fulfilled (result (main_try w t)) = true
       \/ ended (main_try w t) = true))
  \/ (exists e,
         result (main_try w t) = Rejected e
         /\ ended (main_try w t) = false
         /\ main w t
            = Run (events (main_try w t) ++ [caught (finish (main_try w t)) e])
                  (finish (main_try w t)) (Fulfilled tt)).
Proof.
  rewrite main_run. cbn zeta.
  destruct (result (main_try w t)) as [u|e] eqn:E.
  - left. split; [reflexivity|now left].
  - destruct (ended (main_try w t)) eqn:Ee.
    + left. split; [reflexivity|now right].
    + right. exists e. repeat split.
Qed.

(** The calls of [main] are those of its [try] block, and the log of
    its handler if it runs. *)
Lemma main_events_inv (t : instant) (ev : event) :
  In ev (events (main w t)) ->
  In ev (events (main_try w t)) \/ exists s e, ev = caught s e.
Proof.
  destruct (main_cases t) as [[-> _]|(e & _ & _ & ->)]; [now left|].
  cbn [events]. rewrite in_app_iff. intros [H|[<-|[]]]; [now left|].
  right. now eexists _, _.
Qed.

Lemma main_events_incl (t : instant) (ev : event) :
  In ev (events (main_try w t)) -> In ev (events (main w t)).
Proof.
  destruct (main_cases t) as [[-> _]|(e & _ & _ & ->)]; [auto|].
  cbn [events]. rewrite in_app_iff. now left.
Qed.

End MainLaws.

(** Membership in a list of events that is known. *)
Ltac in_list := first [left; reflexivity | right; in_list].

(* ================================================================== *)
(** * Merging: order, rewriting, frame *)
(* ================================================================== *)

(** C1. When the N chapter files are served, [mergeFiles] is fulfilled
    with one string: the N chapter texts, each with its image paths
    rewritten, in the order of the listing, with the separator of two
    line feeds between each two of them and nowhere else.  There are N
    documents in it and N - 1 separators. *)
Theorem mergeFiles_joins_in_listing_order
        (w : World) (t : instant) (files : list remote_file)
        (bodies : list data) :
  Forall2 (serves w t None) files bodies ->
  let docs :=
    List.map (fun body => rewrite_images (toString_utf8 w body)) bodies in
  result (mergeFiles w files t) = Fulfilled (concat_with blank_line docs)
  /\ length docs = length files
  /\ length (concat_with blank_line docs)
     = total_length docs + 2 * (length files - 1).
Proof.
  intros H docs. split; [|split].
  - rewrite (mergeFiles_served w _ _ _ H). now rewrite join_concat_with.
  - unfold docs. rewrite length_map. symmetry. eapply Forall2_length; eauto.
  - rewrite concat_with_length. unfold docs. rewrite length_map.
    now rewrite <- (Forall2_length H).
Qed.

Lemma mergeFiles_joins_in_listing_order_witness :
  Forall2 (serves Demo.world 0 None) Demo.chapters
          [Text Demo.chapter_one; Text Demo.chapter_two]
  /\ result (mergeFiles Demo.world Demo.chapters 0)
     = Fulfilled (concat_with blank_line
                              [rewrite_images Demo.chapter_one;
                               rewrite_images Demo.chapter_two]).
Proof.
  assert (H : Forall2 (serves Demo.world 0 None) Demo.chapters
                      [Text Demo.chapter_one; Text Demo.chapter_two])
    by (repeat constructor).
  split; [exact H|].
  exact (proj1 (mergeFiles_joins_in_listing_order Demo.world 0 _ _ H)).
Defined.

(** C2, as it is on the code.  The pattern is tried from left to right:
    a match starts at an [image::], runs to the first opening bracket
    after it and to the first closing bracket after that, on one line,
    and the search goes on after the match.  A directive
    [image::<path>[<alt>]] of a chapter text, with no line terminator in
    its path and alt text, that the search reaches — the text before it
    is [Scanned]: on the directive's line it is made of matches and of
    text without [image::] — and inside which no [image::] follows the
    match — as when the path has no opening and the alt text no closing
    bracket — is rewritten to [image::<path'>[<alt>]], where [path'] is
    [path] without one leading [images/]; the text before and the text
    after are rewritten on their own, and the rewritten directive is in
    the merged document.  So such an [image::images/foo.png[Alt text]]
    gives [image::foo.png[Alt text]]. *)
Theorem mergeFiles_rewrites_the_directives_it_reaches
        (w : World) (t : instant) (files : list remote_file)
        (bodies : list data) (body : data)
        (pre path alt post : jsstring) :
  Forall2 (serves w t None) files bodies ->
  In body bodies ->
  toString_utf8 w body = pre ++ directive path alt ++ post ->
  Scanned pre ->
  no_line_terminator path -> no_line_terminator alt ->
  ~ occurs (lit "image::") (beyond_match path alt) ->
  exists merged,
    result (mergeFiles w files t) = Fulfilled merged
    /\ rewrite_images (toString_utf8 w body)
       = rewrite_images pre ++ directive (strip_images path) alt
                        ++ rewrite_images post
    /\ occurs (directive (strip_images path) alt) merged
    /\ (forall q, path = lit "images/" ++ q -> strip_images path = q)
    /\ (startsWith path (lit "images/") = false -> strip_images path = path)
    /\ (~ In open_bracket path -> ~ In close_bracket alt ->
        beyond_match path alt = []).
Proof.
  intros H Hin Htext Hpre Hp Ha Hb.
  eexists. split; [apply (mergeFiles_served w _ _ _ H)|].
  assert (Hrw : rewrite_images (toString_utf8 w body)
                = rewrite_images pre ++ directive (strip_images path) alt
                                 ++ rewrite_images post)
    by (rewrite Htext; now apply rewrite_images_reached).
  split; [exact Hrw|]. split; [|split; [|split]].
  - rewrite join_concat_with.
    assert (Hd : occurs (directive (strip_images path) alt)
                        (rewrite_images (toString_utf8 w body))).
    { rewrite Hrw. now exists (rewrite_images pre), (rewrite_images post). }
    destruct Hd as (a & b & Hd).
    assert (Hdoc : In (rewrite_images (toString_utf8 w body))
                      (List.map (fun b => rewrite_images (toString_utf8 w b))
                                bodies))
      by (apply in_map_iff; now exists body).
    apply (occurs_concat_with blank_line) in Hdoc as (x & y & Hdoc).
    rewrite Hdoc, Hd. exists (x ++ a), (b ++ y). now rewrite <- !app_assoc.
  - intros q ->. apply strip_images_prefix.
  - intros Hs. unfold strip_images. now rewrite Hs.
  - intros Hp1 Ha1. now apply beyond_match_nil.
Qed.

Lemma mergeFiles_rewrites_the_directives_it_reaches_witness :
  let text := lit "image::images/a.png[A] image::images/b.png[B]" in
  Scanned (lit "image::images/a.png[A] ")
  /\ exists merged,
      result (mergeFiles (Demo.serving text) Demo.one_chapter 0)
      = Fulfilled merged
      /\ occurs (lit "image::b.png[B]") merged.
Proof.
  cbn zeta.
  assert (Hno : forall s, occursb (lit "image::") s = false ->
                          ~ occurs (lit "image::") s)
    by (intros s E H; apply occursb_iff in H; congruence).
  assert (Hnb : forall c s, existsb (N.eqb c) s = false -> ~ In c s).
  { intros c s E H.
    assert (E' : existsb (N.eqb c) s = true)
      by (apply existsb_exists; exists c; split; [exact H|apply N.eqb_refl]).
    congruence. }
  assert (Hpre : Scanned (lit "image::images/a.png[A] ")).
  { apply (Scanned_match [] (lit "images/a.png") (lit "A") (lit " ")).
    - apply Scanned_plain. now apply Hno.
    - now apply Hnb.
    - repeat constructor.
    - now apply Hnb.
    - repeat constructor.
    - now apply Hno. }
  split; [exact Hpre|].
  destruct (mergeFiles_rewrites_the_directives_it_reaches
              (Demo.serving (lit "image::images/a.png[A] image::images/b.png[B]"))
              0 Demo.one_chapter
              [Text (lit "image::images/a.png[A] image::images/b.png[B]")]
              (Text (lit "image::images/a.png[A] image::images/b.png[B]"))
              (lit "image::images/a.png[A] ") (lit "images/b.png")
              (lit "B") [])
    as (merged & Hm & _ & Hocc & _).
  - repeat constructor.
  - left. reflexivity.
  - reflexivity.
  - exact Hpre.
  - repeat constructor.
  - repeat constructor.
  - now apply Hno.
  - exists merged. split; [exact Hm|exact Hocc].
Defined.

(** C2 as the specification has it fails.  In the first text the
    directive follows an [image::] of its line that has met no bracket
    yet: it is read as part of that one's path and keeps its [images/],
    so the merged document has the prefixed form and not the stripped
    one.  In the second text the same line comes after a directive that
    is rewritten: the merged document has the stripped form, and the
    prefixed one as well.  In the third text a line terminator breaks
    the alt text, and the directive is left as it is.  In the fourth the
    text from the first [image::] to the last closing bracket, taken as
    one directive, has an [image::] after its first closing bracket:
    that one is rewritten too, so the alt text is not kept as it is. *)
Lemma mergeFiles_keeps_directive_inside_a_path :
  let text := lit "The image:: macro: image::images/foo.png[Alt text]" in
  let both := lit "image::images/foo.png[Alt text]" ++ [10%N] ++ text in
  let broken := lit "image::images/foo.png[Alt" ++ [10%N] ++ lit "text]" in
  let two := lit "image::images/a.png[A] image::images/b.png[B]" in
  Forall2 (serves (Demo.serving text) 0 None) Demo.one_chapter [Text text]
  /\ occurs (lit "image::images/foo.png[Alt text]") text
  /\ result (mergeFiles (Demo.serving text) Demo.one_chapter 0) = Fulfilled text
  /\ ~ occurs (lit "image::foo.png[Alt text]") text
  /\ Forall2 (serves (Demo.serving both) 0 None) Demo.one_chapter [Text both]
  /\ (exists merged,
         result (mergeFiles (Demo.serving both) Demo.one_chapter 0)
         = Fulfilled merged
         /\ occurs (lit "image::foo.png[Alt text]") merged
         /\ occurs (lit "image::images/foo.png[Alt text]") merged)
  /\ broken = directive (lit "images/foo.png") (lit "Alt" ++ [10%N] ++ lit "text")
  /\ result (mergeFiles (Demo.serving broken) Demo.one_chapter 0)
     = Fulfilled broken
  /\ two = directive (lit "images/a.png") (lit "A] image::images/b.png[B")
  /\ result (mergeFiles (Demo.serving two) Demo.one_chapter 0)
     = Fulfilled (lit "image::a.png[A] image::b.png[B]")
  /\ directive (strip_images (lit "images/a.png"))
               (lit "A] image::images/b.png[B")
     <> lit "image::a.png[A] image::b.png[B]".
Proof.
  cbn zeta. split; [repeat constructor|].
  split; [apply occursb_iff; vm_compute; reflexivity|].
  split; [vm_compute; reflexivity|].
  split; [intros H; apply occursb_iff in H; vm_compute in H; discriminate|].
  split; [repeat constructor|].
  split.
  { eexists. split; [vm_compute; reflexivity|].
    split; apply occursb_iff; vm_compute; reflexivity. }
  split; [reflexivity|]. split; [vm_compute; reflexivity|].
  split; [reflexivity|]. split; [vm_compute; reflexivity|].
  intros H. vm_compute in H. discriminate H.
Qed.

(** C10. When the chapter files are served, the merged document is made
    of documents that differ from the chapter texts only inside
    directives [image::<path>[<alt>]], and there only by the leading
    [images/] of the path; a chapter text in which [image::] does not
    occur is in the merged document as it is. *)
Theorem mergeFiles_leaves_the_rest_unchanged
        (w : World) (t : instant) (files : list remote_file)
        (bodies : list data) :
  Forall2 (serves w t None) files bodies ->
  exists docs,
    result (mergeFiles w files t) = Fulfilled (concat_with blank_line docs)
    /\ Forall2 (fun body doc => Rewritten (toString_utf8 w body) doc)
               bodies docs
    /\ forall body,
        In body bodies ->
        ~ occurs (lit "image::") (toString_utf8 w body) ->
        In (toString_utf8 w body) docs
        /\ occurs (toString_utf8 w body) (concat_with blank_line docs).
Proof.
  intros H.
  exists (List.map (fun body => rewrite_images (toString_utf8 w body)) bodies).
  split; [|split].
  - rewrite (mergeFiles_served w _ _ _ H). now rewrite join_concat_with.
  - clear H. induction bodies as [|b l IH]; simpl; constructor; auto.
    apply rewrite_images_Rewritten.
  - intros body Hin Hno.
    assert (Hd : In (toString_utf8 w body)
                    (List.map (fun b => rewrite_images (toString_utf8 w b))
                              bodies)).
    { apply in_map_iff. exists body. split; [|assumption].
      now apply rewrite_images_no_image. }
    split; [exact Hd|]. now apply occurs_concat_with.
Qed.

Lemma mergeFiles_leaves_the_rest_unchanged_witness :
  exists docs,
    result (mergeFiles Demo.world Demo.chapters 0)
    = Fulfilled (concat_with blank_line docs)
    /\ In Demo.chapter_two docs.
Proof.
  destruct (mergeFiles_leaves_the_rest_unchanged
              Demo.world 0 Demo.chapters
              [Text Demo.chapter_one; Text Demo.chapter_two])
    as (docs & Hm & _ & Hsame).
  - repeat constructor.
  - exists docs. split; [exact Hm|].
    apply (Hsame (Text Demo.chapter_two)).
    + right. left. reflexivity.
    + intros H. apply occursb_iff in H. discriminate H.
Defined.

(* ================================================================== *)
(** * Failures *)
(* ================================================================== *)

(** C3. A download that is refused rejects the batch it belongs to,
    whether the batch is the staging of the code files, the staging of
    the images or the merge; and an operation that is rejected rejects
    the [Promise.all] it is in.  In a run of [main] in which a download
    fails no call of the export is ever made — neither the log that
    precedes [saveAsPDF], nor asciidoctor, nor puppeteer, so no PDF —
    and the [try] block is not fulfilled: either it is rejected and the
    handler of [main] logs the error, or the process has ended by then,
    on the rejection of [createCodeFiles] that nothing handled while
    the listing of the images was awaited. *)
Theorem a_failed_download_aborts_the_run (w : World) (t : instant) :
  (forall files,
      Exists (refuses w t None) files ->
      exists e, result (createCodeFiles w files t) = Rejected e)
  /\ (forall files,
         Exists (refuses w t (Some (lit "arraybuffer"))) files ->
         exists e, result (createImageFiles w files t) = Rejected e)
  /\ (forall files,
         Exists (refuses w t None) files ->
         exists e, result (mergeFiles w files t) = Rejected e)
  /\ (forall (staging_code staging_images : promise unit)
             (listing_chapters : promise (list remote_file)),
         is_fulfilled (state staging_code)
         && is_fulfilled (state staging_images)
         && is_fulfilled (state listing_chapters) = false ->
         exists e,
           state (promise_all3 staging_code staging_images listing_chapters)
           = Rejected e)
  /\ (forall ev,
         In ev (events (main w t)) ->
         is_download ev = true -> succeeded ev = false ->
         is_fulfilled (result (main_try w t)) = false
         /\ Forall (fun ev' => before_export (what ev')) (events (main w t))
         /\ ((exists e,
                 ended (main_try w t) = false
                 /\ result (main_try w t) = Rejected e
                 /\ events (main w t)
                    = events (main_try w t)
                        ++ [caught (finish (main_try w t)) e])
             \/ (exists evs e,
                    ended (main w t) = true
                    /\ events (main w t)
                       = evs ++ [exit_event (finish (main w t)) e]))).
Proof.
  split; [|split; [|split; [|split]]].
  - intros files H. rewrite createCodeFiles_run.
    now apply stage_shape_refused.
  - intros files H. rewrite createImageFiles_run.
    now apply stage_shape_refused.
  - intros files H. now apply mergeFiles_refused.
  - intros a b c H. unfold promise_all3, all2.
    destruct (state a) as [x|ea]; destruct (state b) as [y|eb];
      destruct (state c) as [z|ec]; cbn [state settles];
      try discriminate H; repeat (destruct (_ <=? _); cbn [state]); eauto.
  - intros ev Hin Hd Hf.
    assert (Hin' : In ev (events (main_try w t))).
    { destruct (main_events_inv w t ev Hin) as [H|(s & e & ->)];
        [exact H|discriminate Hd]. }
    destruct (failed_download_rejects_main_try w t ev Hin' Hd Hf)
      as (e & He & Hall).
    split; [now rewrite He|].
    destruct (main_cases w t) as [[Hm [Hok|Hend]]|(e' & He' & Ha & Hm)].
    + rewrite He in Hok. discriminate Hok.
    + split; [now rewrite Hm|]. right.
      destruct (main_try_ended w t Hend) as (evs & e' & Hrun).
      exists evs, e'. rewrite Hm. split; [exact Hend|].
      rewrite Hrun at 1. reflexivity.
    + split.
      * rewrite Hm. cbn [events]. apply Forall_app. split; [exact Hall|].
        now repeat constructor.
      * left. exists e'. split; [exact Ha|]. split; [exact He'|].
        now rewrite Hm.
Qed.

Lemma a_failed_download_aborts_the_run_witness :
  Exists (refuses Demo.world_without_foo 7 (Some (lit "arraybuffer")))
         Demo.image_files
  /\ (exists e, result (createImageFiles Demo.world_without_foo
                                         Demo.image_files 7) = Rejected e)
  /\ In (Event 7 8 (AxiosGet (Demo.raw "images/foo.png")
                             (Some (download_config (Some (lit "arraybuffer")))))
               false)
        (events (main Demo.world_without_foo 0))
  /\ Forall (fun ev => before_export (what ev))
            (events (main Demo.world_without_foo 0))
  /\ In (caught 8 (LibraryError 404)) (events (main Demo.world_without_foo 0)).
Proof.
  destruct (a_failed_download_aborts_the_run Demo.world_without_foo 7)
    as (_ & Himages & _ & _ & _).
  destruct (a_failed_download_aborts_the_run Demo.world_without_foo 0)
    as (_ & _ & _ & _ & Hmain).
  assert (Hr : Exists (refuses Demo.world_without_foo 7 (Some (lit "arraybuffer")))
                      Demo.image_files)
    by (left; reflexivity).
  assert (Hin : In (Event 7 8 (AxiosGet (Demo.raw "images/foo.png")
                                        (Some (download_config
                                                 (Some (lit "arraybuffer")))))
                          false)
                   (events (main Demo.world_without_foo 0)))
    by (vm_compute; in_list).
  split; [exact Hr|]. split; [exact (Himages _ Hr)|]. split; [exact Hin|].
  destruct (Hmain _ Hin eq_refl eq_refl) as (_ & Hall & _).
  split; [exact Hall|]. vm_compute. in_list.
Defined.

(** C7, where the code departs from it.  In the world in which the
    download of [hello.py] is refused, the staging of the code files is
    rejected at 5, while [main] awaits the listing of the images, asked
    for at 4, which would arrive at 7: nothing handles the rejection,
    and the process ends there, with the error of the download as the
    reason.  The failure was logged where it occurred, but the handler
    of [main] logs nothing and [main] is not fulfilled; the staging of
    the images and the listing of the chapters are never launched. *)
Theorem main_is_ended_by_an_unhandled_rejection :
  main Demo.world_without_hello 0
  = Run [ Event 0 0 (ConsoleLog [lit "Creating temporary directory..."]) true;
          Event 0 1 (Fs (EnsureDir TEMP_DIR)) true;
          Event 1 1 (ConsoleLog [lit "Processing code files..."]) true;
          Event 1 1 (ConsoleLog [lit "Processing image files..."]) true;
          Event 1 1 (ConsoleLog [lit "Processing chapter files..."]) true;
          Event 1 4 (AxiosGet (listing_url (Some (lit "code"))) None) true;
          Event 4 5 (AxiosGet (Demo.raw "code/hello.py")
                              (Some (download_config None))) false;
          Event 5 5 (ConsoleError (lit "Error downloading file:")
                                  (LibraryError 404)) true;
          Event 4 7 (AxiosGet (listing_url (Some (lit "images"))) None) true;
          Event 5 5 (UnhandledRejection (LibraryError 404)) true ]
        5 (Rejected (LibraryError 404))
  /\ result (createCodeFiles Demo.world_without_hello Demo.code_files 4)
     = Rejected (LibraryError 404)
  /\ finish (createCodeFiles Demo.world_without_hello Demo.code_files 4) = 5
  /\ finish (getImageFiles Demo.world_without_hello 4) = 7
  /\ ended (main Demo.world_without_hello 0) = true
  /\ existsb logged_by_main (events (main Demo.world_without_hello 0)) = false
  /\ is_fulfilled (result (main Demo.world_without_hello 0)) = false.
Proof. repeat split; vm_compute; reflexivity. Qed.

(* ================================================================== *)
(** * An empty listing *)
(* ================================================================== *)

(** C4. [mergeFiles] of no file is the empty string, and no call is
    made for it.  When the listing has no chapter, and every call to a
    library succeeds, the [try] block of [main] is fulfilled:
    [saveAsPDF] is called with the empty string — the file
    [merged.adoc] is written with it — and the page is printed. *)
Theorem empty_chapter_list_is_exported (w : World) (t : instant) :
  (forall t', mergeFiles w [] t' = Run [] t' (Fulfilled []))
  /\ (obliging w ->
      (forall t' l,
          snd (axios_get_listing w t' (listing_url None)) = Fulfilled l ->
          List.filter is_chapter l = []) ->
      result (main_try w t) = Fulfilled tt
      /\ (exists t1 t2,
             In (Event t1 t2
                       (Fs (OutputFile (path_join w [TEMP_DIR; lit "merged.adoc"])
                                       (Some (Text [])) (lit "utf8")))
                       true)
                (events (main w t)))
      /\ (exists t1 t2,
             In (Event t1 t2 (Puppeteer (Pdf page_pdf_options)) true)
                (events (main w t)))).
Proof.
  split; [intros t'; apply mergeFiles_nil|].
  intros Hw Hnone.
  destruct (main_try_without_chapters w Hw t Hnone) as (staged & tj & Hrun).
  assert (Hs : succeeds (bind (saveAsPDF w [])
                              (fun _ => console_log
                                          [lit "Process completed successfully!"])))
    by (apply succeeds_bind; [now apply saveAsPDF_succeeds|];
        intros; unfold console_log; succeeds_tac).
  assert (Hok : result (main_try w t) = Fulfilled tt).
  { rewrite Hrun. unfold after. cbn [result]. specialize (Hs tj).
    now destruct (result _) as [[]|e]. }
  assert (Hev : events (main w t) = events (main_try w t))
    by (unfold main, try_catch; now rewrite Hok).
  split; [exact Hok|]. rewrite Hev, Hrun. unfold after. cbn [events].
  split.
  - destruct (performs_bind_l _ _ (fun _ => console_log
                                      [lit "Process completed successfully!"])
                              (saveAsPDF_writes_merged w Hw []) tj)
      as (t1 & t2 & Hin).
    exists t1, t2. apply in_app_iff. now right.
  - destruct (performs_bind_l _ _ (fun _ => console_log
                                      [lit "Process completed successfully!"])
                              (saveAsPDF_prints w Hw []) tj)
      as (t1 & t2 & Hin).
    exists t1, t2. apply in_app_iff. now right.
Qed.

Lemma empty_chapter_list_is_exported_witness :
  obliging Demo.world_without_chapters
  /\ result (main_try Demo.world_without_chapters 0) = Fulfilled tt.
Proof.
  assert (Hw : obliging Demo.world_without_chapters)
    by (repeat split; intros; reflexivity).
  split; [exact Hw|].
  apply (proj2 (empty_chapter_list_is_exported Demo.world_without_chapters 0)).
  - exact Hw.
  - intros t' l H. cbn in H. injection H as <-. reflexivity.
Defined.

(* ================================================================== *)
(** * The selectors and the fetcher *)
(* ================================================================== *)

(** C5. The chapter selector returns, in listing order, exactly the
    entries whose name starts with [ch] and ends with [.adoc], each as a
    [{name, downloadUrl}] pair; the code and image selectors return every
    entry of their folder.  None of them does anything but ask for its
    listing: no file is written, nothing is logged. *)
Theorem selectors_filter_the_listing (w : World) (t : instant) :
  (forall listing,
      snd (axios_get_listing w t (listing_url None)) = Fulfilled listing ->
      events (getChapterFiles w t) = [listing_request w t None]
      /\ result (getChapterFiles w t)
         = Fulfilled (List.map to_remote_file (List.filter is_chapter listing))
      /\ (forall file, is_chapter file = true <-> chapter_name (entry_name file))
      /\ (forall f,
             In f (List.map to_remote_file (List.filter is_chapter listing))
             <-> exists file, In file listing
                              /\ chapter_name (entry_name file)
                              /\ f = RemoteFile (entry_name file)
                                                (download_url file)))
  /\ (forall listing,
         snd (axios_get_listing w t (listing_url (Some (lit "code"))))
         = Fulfilled listing ->
         events (getCodeFiles w t) = [listing_request w t (Some (lit "code"))]
         /\ result (getCodeFiles w t)
            = Fulfilled (List.map to_remote_file listing))
  /\ (forall listing,
         snd (axios_get_listing w t (listing_url (Some (lit "images"))))
         = Fulfilled listing ->
         events (getImageFiles w t)
         = [listing_request w t (Some (lit "images"))]
         /\ result (getImageFiles w t)
            = Fulfilled (List.map to_remote_file listing)).
Proof.
  split; [|split]; intros listing Hl.
  - rewrite getChapterFiles_run, (fetchRepoContents_fulfilled w _ _ _ Hl).
    cbn [events result]. split; [reflexivity|]. split; [reflexivity|].
    split; [apply is_chapter_iff|]. intros f. split.
    + intros Hin. apply in_map_iff in Hin as (file & <- & Hin).
      apply filter_In in Hin as [Hin Hc]. exists file.
      repeat split; auto; now apply is_chapter_iff.
    + intros (file & Hin & Hc & ->). apply in_map_iff. exists file.
      split; [reflexivity|]. apply filter_In. split; auto.
      now apply is_chapter_iff.
  - now rewrite getCodeFiles_run, (fetchRepoContents_fulfilled w _ _ _ Hl).
  - now rewrite getImageFiles_run, (fetchRepoContents_fulfilled w _ _ _ Hl).
Qed.

Lemma selectors_filter_the_listing_witness :
  snd (axios_get_listing Demo.world 0 (listing_url None))
  = Fulfilled Demo.root_listing
  /\ result (getChapterFiles Demo.world 0) = Fulfilled Demo.chapters
  /\ snd (axios_get_listing Demo.world 0 (listing_url (Some (lit "code"))))
     = Fulfilled Demo.code_listing
  /\ result (getCodeFiles Demo.world 0) = Fulfilled Demo.code_files
  /\ snd (axios_get_listing Demo.world 0 (listing_url (Some (lit "images"))))
     = Fulfilled Demo.images_listing
  /\ result (getImageFiles Demo.world 0) = Fulfilled Demo.image_files.
Proof.
  destruct (selectors_filter_the_listing Demo.world 0) as (Hch & Hcode & Himg).
  split; [reflexivity|].
  split; [exact (proj1 (proj2 (Hch Demo.root_listing eq_refl)))|].
  split; [reflexivity|].
  split; [exact (proj2 (Hcode Demo.code_listing eq_refl))|].
  split; [reflexivity|].
  exact (proj2 (Himg Demo.images_listing eq_refl)).
Defined.

(** C6. Whatever the URL and the hint, [downloadFile] makes one request,
    with the timeout 10000 (milliseconds, ten seconds), the address
    family 4 and the response type of the hint (['utf8'] when there is no
    hint).  When the request succeeds the result is the response body
    as it is for the hint ['arraybuffer'], and the body converted to a
    string for any other hint. *)
Theorem downloadFile_request_and_result
        (w : World) (url : jsstring) (hint : option jsstring) (t : instant) :
  let config := download_config hint in
  let answer := axios_get_file w t url config in
  timeout config = 10000%N
  /\ family config = 4%N
  /\ responseType config = hint_or_default hint
  /\ List.filter is_request (events (downloadFile w url hint t))
     = [Event t (t + fst answer) (AxiosGet url (Some config))
              (is_fulfilled (snd answer))]
  /\ forall body,
      snd answer = Fulfilled body ->
      (hint = Some (lit "arraybuffer") ->
       result (downloadFile w url hint t) = Fulfilled body)
      /\ (hint <> Some (lit "arraybuffer") ->
          result (downloadFile w url hint t)
          = Fulfilled (Text (toString_utf8 w body))).
Proof.
  cbn zeta. repeat (split; [reflexivity|]).
  rewrite downloadFile_run. cbn zeta.
  destruct (axios_get_file w t url (download_config hint)) as [d [body|e]];
    cbn [fst snd events result is_fulfilled].
  - split; [reflexivity|]. intros body' [= <-]. split.
    + now intros ->.
    + intros Hne.
      destruct (JsString.eqb (hint_or_default hint) (lit "arraybuffer")) eqn:E;
        [|reflexivity].
      apply eqb_eq in E. destruct hint as [r|]; [|discriminate E].
      simpl in E. now subst r.
  - split; [reflexivity|]. discriminate.
Qed.

Lemma downloadFile_request_and_result_witness :
  snd (axios_get_file Demo.world 0 (Demo.raw "images/foo.png")
                      (download_config (Some (lit "arraybuffer"))))
  = Fulfilled (Bytes [137%N; 80%N; 78%N; 71%N])
  /\ result (downloadFile Demo.world (Demo.raw "images/foo.png")
                          (Some (lit "arraybuffer")) 0)
     = Fulfilled (Bytes [137%N; 80%N; 78%N; 71%N])
  /\ snd (axios_get_file Demo.world 0 (Demo.raw "ch02.adoc")
                         (download_config None))
     = Fulfilled (Text Demo.chapter_two)
  /\ result (downloadFile Demo.world (Demo.raw "ch02.adoc") None 0)
     = Fulfilled (Text Demo.chapter_two).
Proof.
  destruct (downloadFile_request_and_result
              Demo.world (Demo.raw "images/foo.png")
              (Some (lit "arraybuffer")) 0)
    as (_ & _ & _ & _ & Hraw).
  destruct (downloadFile_request_and_result
              Demo.world (Demo.raw "ch02.adoc") None 0)
    as (_ & _ & _ & _ & Htext).
  split; [reflexivity|].
  split; [exact (proj1 (Hraw _ eq_refl) eq_refl)|].
  split; [reflexivity|].
  apply (proj2 (Htext _ eq_refl)). discriminate.
Defined.

(* ================================================================== *)
(** * The temporary directory *)
(* ================================================================== *)

(** C8. In a run of [main] whose [try] block is fulfilled, the temporary
    directory is made first — the [ensureDir] is the first call after
    the first log — and [remove] is called on it the instant [page.pdf]
    has succeeded, when every other call has settled, and succeeds: the
    directory is not there in the end.  Whatever the run, the only
    [remove] is that one, made after a [page.pdf] that succeeded: the
    handler of [main] removes nothing.  And there is a run that fails
    and leaves the directory. *)
Theorem temp_dir_is_removed_by_a_successful_run_only (w : World) (t : instant) :
  (forall u,
      result (main_try w t) = Fulfilled u ->
      (exists d, firstn 2 (events (main w t)) = prelude_events t d true)
      /\ (exists T t0 dr,
             In (Event t0 T (Puppeteer (Pdf page_pdf_options)) true)
                (events (main w t))
             /\ In (Event T (T + dr) (Fs (Remove TEMP_DIR)) true)
                   (events (main w t)))
      /\ temp_dir_may_exist (events (main w t)) = false)
  /\ (forall ev path,
         In ev (events (main w t)) ->
         what ev = Fs (Remove path) ->
         path = TEMP_DIR
         /\ exists t0,
             In (Event t0 (launched ev) (Puppeteer (Pdf page_pdf_options)) true)
                (events (main w t)))
  /\ (exists w' e,
         result (main_try w' 0) = Rejected e
         /\ temp_dir_may_exist (events (main w' 0)) = true).
Proof.
  split; [|split].
  - intros u Hu.
    assert (Hev : events (main w t) = events (main_try w t))
      by (rewrite main_run; cbn zeta; now rewrite Hu).
    rewrite Hev.
    destruct (main_try_fulfilled w t u Hu)
      as (evs & T & dc & dr & d & -> & Hwithin & Hnr & Hfirst & t0 & Hpdf).
    split; [|split].
    + exists d. rewrite <- Hfirst.
      assert (Hlen : 2 <= length evs).
      { rewrite <- (firstn_skipn 2 evs), Hfirst, length_app. simpl. lia. }
      rewrite firstn_app.
      replace (2 - length evs) with 0 by lia.
      now rewrite firstn_O, app_nil_r.
    + exists T, t0, dr. split.
      * apply in_app_iff. now left.
      * apply in_app_iff. right. unfold closing_events, cleanup_events.
        cbn. auto.
    + eapply temp_dir_removed; eauto.
  - intros ev path Hin Hw.
    assert (Hin' : In ev (events (main_try w t))).
    { destruct (main_events_inv w t ev Hin) as [H|(s & e & ->)];
        [exact H|discriminate Hw]. }
    destruct (main_try_removal w t ev path Hin' Hw) as (Hp & t0 & Ht0).
    split; [exact Hp|]. exists t0. now apply main_events_incl.
  - exists Demo.world_without_foo, (LibraryError 404).
    split; vm_compute; reflexivity.
Qed.

Lemma temp_dir_is_removed_by_a_successful_run_only_witness :
  result (main_try Demo.world 0) = Fulfilled tt
  /\ temp_dir_may_exist (events (main Demo.world 0)) = false
  /\ In (Event 23 24 (Fs (Remove TEMP_DIR)) true) (events (main Demo.world 0))
  /\ (exists t0,
         In (Event t0 23 (Puppeteer (Pdf page_pdf_options)) true)
            (events (main Demo.world 0))).
Proof.
  destruct (temp_dir_is_removed_by_a_successful_run_only Demo.world 0)
    as (Hok & Honly & _).
  assert (Hrun : result (main_try Demo.world 0) = Fulfilled tt)
    by (vm_compute; reflexivity).
  assert (Hin : In (Event 23 24 (Fs (Remove TEMP_DIR)) true)
                   (events (main Demo.world 0)))
    by (vm_compute; in_list).
  split; [exact Hrun|].
  split; [exact (proj2 (proj2 (Hok tt Hrun)))|].
  split; [exact Hin|].
  exact (proj2 (Honly _ TEMP_DIR Hin eq_refl)).
Defined.

(* ================================================================== *)
(** * Concurrency *)
(* ================================================================== *)



(* ================================================================== *)
(** * Further properties: the rewriting of image paths *)
(* ================================================================== *)

Section RewriteLaws.

Lemma strip_images_cases (path : jsstring) :
  (startsWith path (lit "images/") = true /\ path = lit "images/" ++ strip_images path)
  \/ (startsWith path (lit "images/") = false /\ strip_images path = path).
Proof.
  unfold strip_images.
  destruct (startsWith path (lit "images/")) eqn:E; [left|right; auto].
  split; [reflexivity|]. apply startsWith_iff in E as [q ->]. reflexivity.
Qed.

Lemma Rewritten_length (s t : jsstring) :
  Rewritten s t -> exists k, length s = length t + 7 * k.
Proof.
  induction 1 as [s|pre path alt s t _ [k IH]]; [exists 0; lia|].
  destruct (strip_images_cases path) as [[_ Hp]|[_ Hp]].
  - exists (S k). rewrite Hp at 1. unfold directive.
    rewrite !length_app, IH. simpl. lia.
  - exists k. rewrite Hp. rewrite !length_app, IH. lia.
Qed.

Lemma Rewritten_line_terminators (s t : jsstring) :
  Rewritten s t ->
  List.filter is_line_terminator t = List.filter is_line_terminator s.
Proof.
  induction 1 as [s|pre path alt s t _ IH]; [reflexivity|].
  unfold directive. rewrite !filter_app, IH.
  destruct (strip_images_cases path) as [[_ Hp]|[_ Hp]].
  - rewrite Hp at 2. now rewrite filter_app.
  - now rewrite Hp.
Qed.

Lemma directive_brackets (p a : jsstring) :
  In open_bracket (directive p a) /\ In close_bracket (directive p a).
Proof.
  unfold directive. split.
  - apply in_or_app. right. apply in_or_app. right. now left.
  - apply in_or_app. right. apply in_or_app. right. apply in_or_app. right.
    apply in_or_app. right. now left.
Qed.

(** The separator of [mergeFiles] is made of line terminators: the
    documents on its two sides are rewritten apart. *)
Lemma rewrite_images_blank_line (docs : list jsstring) :
  rewrite_images (concat_with blank_line docs)
  = concat_with blank_line (List.map rewrite_images docs).
Proof.
  induction docs as [|d [|d' rest] IH]; [reflexivity|reflexivity|].
  change (concat_with blank_line (d :: d' :: rest))
    with (d ++ 10%N :: ([] ++ 10%N :: concat_with blank_line (d' :: rest))).
  rewrite !rewrite_images_line by reflexivity. rewrite IH. reflexivity.
Qed.

End RewriteLaws.

(** X1. The image paths are rewritten line by line: for a text made of
    lines put one after the other with a line terminator between each
    two, rewriting the text is rewriting each line on its own.  No
    directive reaches over a line break. *)
Theorem rewrite_images_works_line_by_line
        (l : code_unit) (lines : list jsstring) :
  is_line_terminator l = true ->
  rewrite_images (concat_with [l] lines)
  = concat_with [l] (List.map rewrite_images lines).
Proof.
  intros Hl. induction lines as [|d [|d' rest] IH]; [reflexivity|reflexivity|].
  change (concat_with [l] (d :: d' :: rest))
    with (d ++ l :: concat_with [l] (d' :: rest)).
  rewrite rewrite_images_line by assumption. rewrite IH. reflexivity.
Qed.

Lemma rewrite_images_works_line_by_line_witness :
  is_line_terminator 10%N = true
  /\ rewrite_images
       (concat_with [10%N]
          [lit "image::images/a.png[A]"; lit "between";
           lit "image::images/b.png[B]"])
     = concat_with [10%N]
         [lit "image::a.png[A]"; lit "between"; lit "image::b.png[B]"].
Proof.
  split; [reflexivity|].
  rewrite (rewrite_images_works_line_by_line 10%N _ eq_refl).
  reflexivity.
Defined.

(** X2. The rewriting only takes text away: the rewritten text is
    shorter than the text by a multiple of seven code units, the length
    of [images/], and it has the same line terminators in the same
    order, so no line is added, removed or joined to another. *)
Theorem rewrite_images_only_shortens (s : jsstring) :
  (exists k, length s = length (rewrite_images s) + 7 * k)
  /\ List.filter is_line_terminator (rewrite_images s)
     = List.filter is_line_terminator s.
Proof.
  split.
  - apply Rewritten_length, rewrite_images_Rewritten.
  - apply Rewritten_line_terminators, rewrite_images_Rewritten.
Qed.

(** X3. A text without an opening square bracket, or without a closing
    one, is left as it is: a directive that is not closed is not
    rewritten. *)
Theorem rewrite_images_needs_both_brackets (s : jsstring) :
  ~ In open_bracket s \/ ~ In close_bracket s -> rewrite_images s = s.
Proof.
  intros H. rewrite rewrite_images_step.
  destruct (exec_from re_image 0 s) as [[[pre caps] rest]|] eqn:E;
    [|reflexivity].
  exfalso. destruct (exec_image_spec E) as (p & a & _ & -> & _).
  destruct (directive_brackets p a) as [Ho Hc].
  destruct H as [H|H]; apply H; apply in_or_app; right; apply in_or_app;
    now left.
Qed.

Lemma rewrite_images_needs_both_brackets_witness :
  ~ In close_bracket (lit "image::images/foo.png[Alt text")
  /\ rewrite_images (lit "image::images/foo.png[Alt text")
     = lit "image::images/foo.png[Alt text".
Proof.
  assert (H : ~ In close_bracket (lit "image::images/foo.png[Alt text")).
  { intros H. cbn in H. repeat (destruct H as [H|H]; [discriminate H|]). exact H. }
  split; [exact H|].
  apply rewrite_images_needs_both_brackets. right. exact H.
Defined.

(** X4. The inner replacement, of the pattern [^images/] by the empty
    string, takes [images/] away at the start of the path, and once: a
    path that starts with it is [images/] followed by the cleaned path;
    a path that does not start with it is returned as it is, whatever
    comes further on; and of two leading [images/] the second stays. *)
Theorem cleanImagePath_strips_one_leading_segment (path : jsstring) :
  (startsWith path (lit "images/") = true
   -> path = lit "images/" ++ cleanImagePath path)
  /\ (startsWith path (lit "images/") = false -> cleanImagePath path = path)
  /\ cleanImagePath (lit "images/" ++ lit "images/" ++ path)
     = lit "images/" ++ path.
Proof.
  rewrite !cleanImagePath_eq. split; [|split].
  - intros H. destruct (strip_images_cases path) as [[_ Hp]|[Hp _]];
      [exact Hp|congruence].
  - intros H. destruct (strip_images_cases path) as [[Hp _]|[_ Hp]];
      [congruence|exact Hp].
  - apply strip_images_prefix.
Qed.

Lemma cleanImagePath_strips_one_leading_segment_witness :
  startsWith (lit "images/figs/a.png") (lit "images/") = true
  /\ cleanImagePath (lit "images/figs/a.png") = lit "figs/a.png"
  /\ startsWith (lit "figs/images/a.png") (lit "images/") = false
  /\ cleanImagePath (lit "figs/images/a.png") = lit "figs/images/a.png".
Proof.
  destruct (cleanImagePath_strips_one_leading_segment (lit "images/figs/a.png"))
    as (Hstrip & _ & _).
  destruct (cleanImagePath_strips_one_leading_segment (lit "figs/images/a.png"))
    as (_ & Hkeep & _).
  split; [reflexivity|]. split.
  - apply (app_inv_head (lit "images/")). symmetry. exact (Hstrip eq_refl).
  - split; [reflexivity|exact (Hkeep eq_refl)].
Defined.

(* ================================================================== *)
(** * Further properties: the merge *)
(* ================================================================== *)

Section MergeFacts.

Variable w : World.

(** Without a hint every download is fulfilled with a string. *)
Lemma downloads_default_are_texts (files : list remote_file) (t : instant) :
  forall contents,
    Forall2 (fun p v => state p = Fulfilled v)
            (List.map promise_of (download_runs w None files t)) contents ->
    exists texts, contents = List.map Text texts.
Proof.
  unfold download_runs.
  induction files as [|file files IH]; intros contents H; simpl in H.
  - inversion H. now exists [].
  - inversion H as [|? c ? cs Hc Hcs]; subst.
    destruct (IH _ Hcs) as [texts ->].
    cbn [promise_of state] in Hc. rewrite downloadFile_run in Hc.
    cbn zeta in Hc.
    destruct (axios_get_file w t (downloadUrl file) (download_config None))
      as [d [body|e]]; cbn [result] in Hc; [|discriminate Hc].
    injection Hc as <-. now exists (toString_utf8 w body :: texts).
Qed.

(** A rejected [Promise.all] has the reason of the promise that was
    rejected first, and settles with it. *)
Lemma promise_all_rejected_first {A : Type} (ps : list (promise A))
      (e : error) :
  state (promise_all ps) = Rejected e ->
  Exists (fun p => state p = Rejected e
                   /\ settles p = settles (promise_all ps)) ps
  /\ Forall (fun p => is_fulfilled (state p) = false ->
                      settles (promise_all ps) <= settles p) ps.
Proof.
  revert e. induction ps as [|p ps IH]; intros e; [discriminate|].
  cbn [promise_all]. unfold promise_map, all2. cbn [settles state].
  destruct (state p) as [a|e0] eqn:Ep;
    destruct (state (promise_all ps)) as [l|e'] eqn:El;
    cbn [state settles].
  - discriminate.
  - intros [= ->]. destruct (IH e eq_refl) as [Hex Hall]. split.
    + now right.
    + constructor; [rewrite Ep; discriminate|exact Hall].
  - intros [= ->]. split.
    + left. now split.
    + constructor; [reflexivity|].
      apply promise_all_fulfilled_inv in El. clear - El.
      induction El as [|q v qs vs Hq _ IHq]; constructor; auto.
      rewrite Hq. discriminate.
  - destruct (IH e' eq_refl) as [Hex Hall].
    destruct (settles p <=? settles (promise_all ps)) eqn:Ele;
      cbn [state settles]; intros [= ->].
    + apply Nat.leb_le in Ele. split.
      * left. now split.
      * constructor; [reflexivity|].
        eapply Forall_impl; [|exact Hall]. cbv beta. intros q Hq Hf.
        specialize (Hq Hf). lia.
    + apply Nat.leb_gt in Ele. split.
      * now right.
      * constructor; [intros _; lia|exact Hall].
Qed.

(** The reason a batch of downloads is rejected with is the one the
    world gave for one of them. *)
Lemma downloads_rejected_inv (hint : option jsstring)
      (files : list remote_file) (t : instant) (e : error) :
  state (downloads_joined w hint files t) = Rejected e ->
  exists file,
    In file files
    /\ snd (axios_get_file w t (downloadUrl file) (download_config hint))
       = Rejected e.
Proof.
  intros H. apply promise_all_rejected_inv in H.
  apply Exists_exists in H as (p & Hin & Hp).
  unfold download_runs in Hin. rewrite List.map_map in Hin.
  apply in_map_iff in Hin as (file & <- & Hin).
  exists file. split; [exact Hin|].
  cbn [promise_of state] in Hp. rewrite downloadFile_run in Hp. cbn zeta in Hp.
  destruct (axios_get_file w t (downloadUrl file) (download_config hint))
    as [d [body|e']]; cbn [result snd] in *; [discriminate Hp|exact Hp].
Qed.

(** The download that rejects a batch is the one that failed first. *)
Lemma downloads_rejected_first (hint : option jsstring)
      (files : list remote_file) (t : instant) (e : error) :
  state (downloads_joined w hint files t) = Rejected e ->
  exists file d,
    In file files
    /\ axios_get_file w t (downloadUrl file) (download_config hint)
       = (d, Rejected e)
    /\ settles (downloads_joined w hint files t) = t + d
    /\ forall file',
        In file' files -> refuses w t hint file' ->
        t + d <= t + fst (axios_get_file w t (downloadUrl file')
                                         (download_config hint)).
Proof.
  intros H. apply promise_all_rejected_first in H as [Hex Hall].
  fold (downloads_joined w hint files t) in Hex, Hall.
  apply Exists_exists in Hex as (p & Hin & Hp & Hs).
  unfold download_runs in Hin. rewrite List.map_map in Hin.
  apply in_map_iff in Hin as (file & <- & Hin).
  cbn [promise_of state settles] in Hp, Hs.
  rewrite downloadFile_run in Hp, Hs. cbn zeta in Hp, Hs.
  destruct (axios_get_file w t (downloadUrl file) (download_config hint))
    as [d [body|e']] eqn:E; cbn [result finish] in Hp, Hs;
    [discriminate Hp|].
  injection Hp as ->. exists file, d. split; [exact Hin|].
  split; [exact E|]. split; [now symmetry|].
  intros file' Hin' Hr. rewrite Hs.
  rewrite Forall_forall in Hall.
  assert (Hin2 : In (promise_of (downloadFile w (downloadUrl file') hint t))
                    (List.map promise_of (download_runs w hint files t))).
  { unfold download_runs. rewrite List.map_map. apply in_map_iff.
    now exists file'. }
  specialize (Hall _ Hin2). cbn [promise_of state settles] in Hall.
  rewrite downloadFile_run in Hall. cbn zeta in Hall.
  unfold refuses in Hr.
  destruct (axios_get_file w t (downloadUrl file') (download_config hint))
    as [d' [body'|e'']]; [discriminate Hr|].
  cbn [result finish is_fulfilled fst] in *. now apply Hall.
Qed.

(** [mergeFiles] is rejected when its downloads are, and only then. *)
Lemma mergeFiles_rejected_joined (files : list remote_file) (t : instant)
      (e : error) :
  result (mergeFiles w files t) = Rejected e ->
  state (downloads_joined w None files t) = Rejected e.
Proof.
  rewrite mergeFiles_run. cbn zeta. cbn [result].
  fold (downloads_joined w None files t).
  destruct (state (downloads_joined w None files t)) as [contents|e'] eqn:E.
  - apply promise_all_fulfilled_inv, downloads_default_are_texts in E
      as [texts ->].
    rewrite replace_in_texts. discriminate.
  - now intros [= ->].
Qed.

End MergeFacts.

(** X5. [mergeFiles] is rejected by a download only, and by the one
    that fails first: the error it is rejected with is the one the world
    answered with for the download of one of its files, it is rejected
    the instant that download fails, without waiting for the others,
    and no other download of the batch failed before.  The rewriting
    never throws: a download without a response type is always a
    string. *)
Theorem mergeFiles_is_rejected_by_the_first_failure
        (w : World) (files : list remote_file) (t : instant) (e : error) :
  result (mergeFiles w files t) = Rejected e ->
  exists file d,
    In file files
    /\ axios_get_file w t (downloadUrl file) (download_config None)
       = (d, Rejected e)
    /\ finish (mergeFiles w files t) = t + d
    /\ forall file',
        In file' files -> refuses w t None file' ->
        t + d <= t + fst (axios_get_file w t (downloadUrl file')
                                         (download_config None)).
Proof.
  intros H. apply mergeFiles_rejected_joined in H.
  destruct (downloads_rejected_first w _ _ _ _ H)
    as (file & d & Hin & Ha & Hs & Hfirst).
  exists file, d. split; [exact Hin|]. split; [exact Ha|].
  split; [|exact Hfirst].
  rewrite mergeFiles_run. cbn zeta. cbn [finish].
  fold (downloads_joined w None files t). rewrite Hs. lia.
Qed.

Lemma mergeFiles_is_rejected_by_the_first_failure_witness :
  let w := Demo.world_with Demo.root_listing (Some (Demo.raw "ch02.adoc")) in
  result (mergeFiles w Demo.chapters 0) = Rejected (LibraryError 404)
  /\ finish (downloadFile w (Demo.raw "ch01.adoc") None 0) = 2
  /\ exists file d,
      In file Demo.chapters
      /\ axios_get_file w 0 (downloadUrl file) (download_config None)
         = (d, Rejected (LibraryError 404))
      /\ finish (mergeFiles w Demo.chapters 0) = 0 + d.
Proof.
  cbn zeta.
  assert (H : result (mergeFiles
                        (Demo.world_with Demo.root_listing
                                         (Some (Demo.raw "ch02.adoc")))
                        Demo.chapters 0)
              = Rejected (LibraryError 404))
    by (vm_compute; reflexivity).
  split; [exact H|]. split; [reflexivity|].
  destruct (mergeFiles_is_rejected_by_the_first_failure _ _ _ _ H)
    as (file & d & Hin & Ha & Hf & _).
  exists file, d. auto.
Defined.

(** X6. Rewriting and merging can be done in either order: when the
    chapter files are served, [mergeFiles] is fulfilled with the
    rewriting of the chapter texts joined by the separator.  Nothing is
    rewritten across the boundary of two chapters. *)
Theorem mergeFiles_rewrites_the_merged_text
        (w : World) (t : instant) (files : list remote_file)
        (bodies : list data) :
  Forall2 (serves w t None) files bodies ->
  result (mergeFiles w files t)
  = Fulfilled (rewrite_images
                 (concat_with blank_line
                              (List.map (toString_utf8 w) bodies))).
Proof.
  intros H. rewrite (mergeFiles_served w _ _ _ H), join_concat_with.
  now rewrite rewrite_images_blank_line, List.map_map.
Qed.

Lemma mergeFiles_rewrites_the_merged_text_witness :
  Forall2 (serves Demo.world 0 None) Demo.chapters
          [Text Demo.chapter_one; Text Demo.chapter_two]
  /\ result (mergeFiles Demo.world Demo.chapters 0)
     = Fulfilled (rewrite_images
                    (Demo.chapter_one ++ blank_line ++ Demo.chapter_two)).
Proof.
  assert (H : Forall2 (serves Demo.world 0 None) Demo.chapters
                      [Text Demo.chapter_one; Text Demo.chapter_two])
    by (repeat constructor).
  split; [exact H|].
  exact (mergeFiles_rewrites_the_merged_text Demo.world 0 _ _ H).
Defined.

(* ================================================================== *)
(** * Further properties: the stagings *)
(* ================================================================== *)

Section EventLists.

Lemma fs_ops_app (l l' : list event) : fs_ops (l ++ l') = fs_ops l ++ fs_ops l'.
Proof. apply flat_map_app. Qed.

Lemma requests_app (l l' : list event) :
  requests (l ++ l') = requests l ++ requests l'.
Proof. unfold requests. now rewrite filter_app, map_app. Qed.

Variable w : World.

Lemma download_runs_fs_ops (hint : option jsstring) (files : list remote_file)
      (t : instant) :
  fs_ops (flat_map events (download_runs w hint files t)) = [].
Proof.
  unfold download_runs. induction files as [|file files IH]; [reflexivity|].
  cbn [List.map flat_map]. rewrite fs_ops_app, IH, app_nil_r.
  rewrite downloadFile_run. cbn zeta.
  now destruct (axios_get_file w t (downloadUrl file) (download_config hint))
    as [d [body|e]].
Qed.

Lemma download_runs_requests (hint : option jsstring)
      (files : list remote_file) (t : instant) :
  requests (flat_map events (download_runs w hint files t))
  = List.map (download_request hint) files.
Proof.
  unfold download_runs. induction files as [|file files IH]; [reflexivity|].
  cbn [List.map flat_map]. rewrite requests_app, IH.
  rewrite downloadFile_run. cbn zeta.
  now destruct (axios_get_file w t (downloadUrl file) (download_config hint))
    as [d [body|e]].
Qed.

Lemma writes_fs_ops (ops : list fs_op) (t : instant) :
  fs_ops (flat_map events
            (List.map (fun op => external (Fs op) (fun t => fs w t op) t) ops))
  = ops.
Proof.
  induction ops as [|op ops IH]; [reflexivity|].
  cbn [List.map flat_map]. rewrite fs_ops_app, IH.
  unfold external. now destruct (fs w t op) as [d o].
Qed.

Lemma writes_requests (ops : list fs_op) (t : instant) :
  requests (flat_map events
              (List.map (fun op => external (Fs op) (fun t => fs w t op) t) ops))
  = [].
Proof.
  induction ops as [|op ops IH]; [reflexivity|].
  cbn [List.map flat_map]. rewrite requests_app, IH.
  unfold external. now destruct (fs w t op) as [d o].
Qed.

(** The requests of a staging are those of its downloads. *)
Lemma stage_shape_requests
      (hint : option jsstring) (dir : jsstring)
      (write : list data -> remote_file -> nat -> fs_op)
      (done_events : instant -> list event)
      (files : list remote_file) (t : instant) :
  (forall t', requests (done_events t') = []) ->
  requests (events (stage_shape w hint dir write done_events files t))
  = List.map (download_request hint) files.
Proof.
  intros Hdone. unfold stage_shape. cbn zeta.
  destruct (state _) as [contents|e]; cbn [events];
    [|apply download_runs_requests].
  destruct (fs w _ (EnsureDir dir)) as [d [[]|e]]; cbn [events].
  2:{ rewrite requests_app, download_runs_requests. apply app_nil_r. }
  destruct (state _) as [vs|e]; cbn [events];
    rewrite ?requests_app, download_runs_requests, writes_requests, ?Hdone;
    cbn [requests List.filter List.map app]; now rewrite ?app_nil_r.
Qed.

(** The filesystem operations of a staging: none when a download is
    rejected; else the directory is made, and the writes follow when it
    is there. *)
Lemma stage_shape_fs_ops
      (hint : option jsstring) (dir : jsstring)
      (write : list data -> remote_file -> nat -> fs_op)
      (done_events : instant -> list event)
      (files : list remote_file) (t : instant) :
  (forall t', fs_ops (done_events t') = []) ->
  fs_ops (events (stage_shape w hint dir write done_events files t))
  = match state (downloads_joined w hint files t) with
    | Rejected _ => []
    | Fulfilled contents =>
        let t1 := Nat.max t (settles (downloads_joined w hint files t)) in
        EnsureDir dir
          :: (if is_fulfilled (snd (fs w t1 (EnsureDir dir)))
              then mapi (write contents) files else [])
    end.
Proof.
  intros Hdone. unfold stage_shape, downloads_joined. cbn zeta.
  destruct (state _) as [contents|e]; cbn [events];
    [|apply download_runs_fs_ops].
  destruct (fs w _ (EnsureDir dir)) as [d [[]|e]]; cbn [events snd is_fulfilled].
  2:{ now rewrite fs_ops_app, download_runs_fs_ops. }
  destruct (state _) as [vs|e]; cbn [events];
    rewrite ?fs_ops_app, download_runs_fs_ops, writes_fs_ops, ?Hdone;
    cbn [fs_ops flat_map what app]; now rewrite ?app_nil_r.
Qed.

Lemma downloads_served_with (hint : option jsstring)
      (files : list remote_file) (bodies : list data) (t : instant) :
  Forall2 (serves w t hint) files bodies ->
  state (downloads_joined w hint files t)
  = Fulfilled (List.map (downloaded w hint) bodies).
Proof.
  intros H. apply promise_all_fulfilled. unfold download_runs.
  induction H as [|file body files bodies Hs _ IH]; simpl; constructor; auto.
  cbn [state promise_of]. rewrite downloadFile_run. cbn zeta.
  unfold serves in Hs.
  destruct (axios_get_file w t (downloadUrl file) (download_config hint))
    as [d o]. simpl in Hs. now subst o.
Qed.

Lemma downloads_joined_length (hint : option jsstring)
      (files : list remote_file) (t : instant) (contents : list data) :
  state (downloads_joined w hint files t) = Fulfilled contents ->
  length contents = length files.
Proof.
  intros H. apply promise_all_fulfilled_inv, Forall2_length in H.
  unfold download_runs in H. now rewrite !length_map in H.
Qed.

End EventLists.

(** [contents[index]] in a [map] over [files], when there is a content
    for every file. *)
Lemma mapi_from_nth_error {X Y : Type} (g : X -> option data -> Y)
      (files : list X) :
  forall (contents pre : list data),
    length files = length contents ->
    mapi_from (fun file index => g file (nth_error (pre ++ contents) index))
              (length pre) files
    = List.map (fun fc => g (fst fc) (Some (snd fc))) (combine files contents).
Proof.
  induction files as [|file files IH]; intros contents pre Hlen;
    [reflexivity|].
  destruct contents as [|c contents]; [discriminate Hlen|].
  cbn [mapi_from combine List.map fst snd]. f_equal.
  - f_equal. rewrite nth_error_app2 by lia. now rewrite Nat.sub_diag.
  - specialize (IH contents (pre ++ [c])).
    rewrite <- app_assoc, length_app in IH. cbn [app length] in IH.
    rewrite Nat.add_1_r in IH. apply IH. now injection Hlen.
Qed.

Lemma mapi_nth_error {X Y : Type} (g : X -> option data -> Y)
      (files : list X) (contents : list data) :
  length files = length contents ->
  mapi (fun file index => g file (nth_error contents index)) files
  = List.map (fun fc => g (fst fc) (Some (snd fc))) (combine files contents).
Proof. intros H. exact (mapi_from_nth_error g files contents [] H). Qed.

Section StagingFacts.

Variable w : World.

Lemma console_logs_app (l l' : list event) :
  console_logs (l ++ l') = console_logs l ++ console_logs l'.
Proof. apply flat_map_app. Qed.

Lemma download_runs_console_logs (hint : option jsstring)
      (files : list remote_file) (t : instant) :
  console_logs (flat_map events (download_runs w hint files t)) = [].
Proof.
  unfold download_runs. induction files as [|file files IH]; [reflexivity|].
  cbn [List.map flat_map]. rewrite console_logs_app, IH, app_nil_r.
  rewrite downloadFile_run. cbn zeta.
  now destruct (axios_get_file w t (downloadUrl file) (download_config hint))
    as [d [body|e]].
Qed.

Lemma writes_console_logs (ops : list fs_op) (t : instant) :
  console_logs
    (flat_map events
       (List.map (fun op => external (Fs op) (fun t => fs w t op) t) ops))
  = [].
Proof.
  induction ops as [|op ops IH]; [reflexivity|].
  cbn [List.map flat_map]. rewrite console_logs_app, IH.
  unfold external. now destruct (fs w t op) as [d o].
Qed.

Lemma stage_shape_console_logs
      (hint : option jsstring) (dir : jsstring)
      (write : list data -> remote_file -> nat -> fs_op)
      (done_events : instant -> list event) (said : list (list jsstring))
      (files : list remote_file) (t : instant) :
  (forall t', console_logs (done_events t') = said) ->
  console_logs (events (stage_shape w hint dir write done_events files t))
  = if is_fulfilled (result (stage_shape w hint dir write done_events files t))
    then said else [].
Proof.
  intros Hdone. unfold stage_shape. cbn zeta.
  destruct (state _) as [contents|e]; cbn [events result is_fulfilled];
    [|apply download_runs_console_logs].
  destruct (fs w _ (EnsureDir dir)) as [d [[]|e]];
    cbn [events result is_fulfilled].
  2:{ now rewrite console_logs_app, download_runs_console_logs. }
  destruct (state _) as [vs|e]; cbn [events result is_fulfilled];
    rewrite ?console_logs_app, download_runs_console_logs, writes_console_logs,
      ?Hdone; cbn [console_logs flat_map what app]; now rewrite ?app_nil_r.
Qed.

Lemma downloaded_default (body : data) :
  downloaded w None body = Text (toString_utf8 w body).
Proof. reflexivity. Qed.

Lemma downloaded_arraybuffer (body : data) :
  downloaded w (Some (lit "arraybuffer")) body = body.
Proof. reflexivity. Qed.

Lemma combine_map_r {X Y Z : Type} (f : Y -> Z) (l : list X) :
  forall l' : list Y,
    combine l (List.map f l')
    = List.map (fun p => (fst p, f (snd p))) (combine l l').
Proof.
  induction l as [|x l IH]; intros [|y l']; simpl; [reflexivity..|].
  now rewrite IH.
Qed.

(** The writes of a staging whose downloads are served. *)
Lemma stage_shape_served
      (hint : option jsstring) (dir : jsstring)
      (g : remote_file -> option data -> fs_op)
      (done_events : instant -> list event)
      (files : list remote_file) (bodies : list data) (t : instant) :
  (forall t', fs_ops (done_events t') = []) ->
  Forall2 (serves w t hint) files bodies ->
  fs_ops (events (stage_shape w hint dir
                              (fun contents file index =>
                                 g file (nth_error contents index))
                              done_events files t))
  = EnsureDir dir
      :: (if is_fulfilled
               (snd (fs w (Nat.max t (settles (downloads_joined w hint files t)))
                        (EnsureDir dir)))
          then List.map (fun fb => g (fst fb)
                                     (Some (downloaded w hint (snd fb))))
                        (combine files bodies)
          else []).
Proof.
  intros Hdone H. rewrite stage_shape_fs_ops by assumption.
  rewrite (downloads_served_with w hint files bodies t H). cbn zeta.
  f_equal. destruct (is_fulfilled _); [|reflexivity].
  rewrite mapi_nth_error
    by (rewrite length_map; eapply Forall2_length; eauto).
  now rewrite combine_map_r, List.map_map.
Qed.

End StagingFacts.

Section BatchRequests.

Variable w : World.

Lemma createCodeFiles_requests (files : list remote_file) (t : instant) :
  requests (events (createCodeFiles w files t))
  = List.map (download_request None) files.
Proof. rewrite createCodeFiles_run. now apply stage_shape_requests. Qed.

Lemma createImageFiles_requests (files : list remote_file) (t : instant) :
  requests (events (createImageFiles w files t))
  = List.map (download_request (Some (lit "arraybuffer"))) files.
Proof. rewrite createImageFiles_run. now apply stage_shape_requests. Qed.

Lemma mergeFiles_requests (files : list remote_file) (t : instant) :
  requests (events (mergeFiles w files t))
  = List.map (download_request None) files.
Proof.
  rewrite mergeFiles_run. cbn zeta. cbn [events].
  apply download_runs_requests.
Qed.

End BatchRequests.

(** X7. Each of the three batches asks for every file of its list
    exactly once, in the order of the list and with its own response
    type, whatever the requests answer: a request that fails stops no
    other request, and nothing is asked for a second time. *)
Theorem every_file_is_requested_once
        (w : World) (files : list remote_file) (t : instant) :
  requests (events (createCodeFiles w files t))
  = List.map (download_request None) files
  /\ requests (events (createImageFiles w files t))
     = List.map (download_request (Some (lit "arraybuffer"))) files
  /\ requests (events (mergeFiles w files t))
     = List.map (download_request None) files.
Proof.
  split; [|split].
  - apply createCodeFiles_requests.
  - apply createImageFiles_requests.
  - apply mergeFiles_requests.
Qed.

(** X8. When its downloads are served and its directory can be made,
    [createCodeFiles] makes the directory [code] of the temporary
    directory and then writes one file for each file of the list, in the
    order of the list: under the name of the file, with the text that
    was downloaded for it, as ['utf8'].  It logs nothing. *)
Theorem createCodeFiles_writes_what_it_downloaded
        (w : World) (files : list remote_file) (bodies : list data)
        (t : instant) :
  Forall2 (serves w t None) files bodies ->
  (forall t', is_fulfilled (snd (fs w t' (EnsureDir (code_dir w)))) = true) ->
  fs_ops (events (createCodeFiles w files t))
  = EnsureDir (code_dir w)
      :: List.map (fun fb => code_write w (fst fb)
                                        (Text (toString_utf8 w (snd fb))))
                  (combine files bodies)
  /\ console_logs (events (createCodeFiles w files t)) = [].
Proof.
  intros H Hdir. rewrite createCodeFiles_run. split.
  - unfold write_code.
    rewrite (stage_shape_served w None _
               (fun file c => OutputFile
                                (path_join w [TEMP_DIR; lit "code"; name file])
                                c (lit "utf8"))
               (fun _ => []) files bodies t (fun _ => eq_refl) H).
    fold (code_dir w). now rewrite Hdir.
  - rewrite (stage_shape_console_logs w _ _ _ (fun _ => []) [] files t
               (fun _ => eq_refl)).
    now destruct (is_fulfilled _).
Qed.

Lemma createCodeFiles_writes_what_it_downloaded_witness :
  Forall2 (serves Demo.world 4 None) Demo.code_files
          [Text (lit "print('hello')")]
  /\ fs_ops (events (createCodeFiles Demo.world Demo.code_files 4))
     = [ EnsureDir (lit "./temp_adoc_files/code");
         OutputFile (lit "./temp_adoc_files/code/hello.py")
                    (Some (Text (lit "print('hello')"))) (lit "utf8") ].
Proof.
  assert (H : Forall2 (serves Demo.world 4 None) Demo.code_files
                      [Text (lit "print('hello')")])
    by (repeat constructor).
  split; [exact H|].
  exact (proj1 (createCodeFiles_writes_what_it_downloaded
                  Demo.world _ _ 4 H (fun _ => eq_refl))).
Defined.

(** X9. When its downloads are served and its directory can be made,
    [createImageFiles] makes the directory [images] and then writes one
    file for each file of the list, in the order of the list: under the
    name of the file, with the body as it was received.  Whatever the
    run, it logs [Images saved to <directory>] when it is fulfilled,
    and logs nothing when it is not. *)
Theorem createImageFiles_writes_the_raw_bodies
        (w : World) (files : list remote_file) (t : instant) :
  (forall bodies,
      Forall2 (serves w t (Some (lit "arraybuffer"))) files bodies ->
      (forall t', is_fulfilled (snd (fs w t' (EnsureDir (images_dir w))))
                  = true) ->
      fs_ops (events (createImageFiles w files t))
      = EnsureDir (images_dir w)
          :: List.map (fun fb => image_write w (fst fb) (snd fb))
                      (combine files bodies))
  /\ console_logs (events (createImageFiles w files t))
     = if is_fulfilled (result (createImageFiles w files t))
       then [[lit "Images saved to " ++ images_dir w]] else [].
Proof.
  rewrite createImageFiles_run. split.
  - intros bodies H Hdir. unfold write_image.
    rewrite (stage_shape_served w (Some (lit "arraybuffer")) _
               (fun file c => WriteFile
                                (path_join w [path_join w [TEMP_DIR; lit "images"];
                                              name file]) c)
               (images_saved w) files bodies t (fun _ => eq_refl) H).
    fold (images_dir w). now rewrite Hdir.
  - now apply stage_shape_console_logs.
Qed.

Lemma createImageFiles_writes_the_raw_bodies_witness :
  Forall2 (serves Demo.world 7 (Some (lit "arraybuffer"))) Demo.image_files
          [Bytes [137%N; 80%N; 78%N; 71%N]]
  /\ fs_ops (events (createImageFiles Demo.world Demo.image_files 7))
     = [ EnsureDir (lit "./temp_adoc_files/images");
         WriteFile (lit "./temp_adoc_files/images/foo.png")
                   (Some (Bytes [137%N; 80%N; 78%N; 71%N])) ].
Proof.
  assert (H : Forall2 (serves Demo.world 7 (Some (lit "arraybuffer")))
                      Demo.image_files [Bytes [137%N; 80%N; 78%N; 71%N]])
    by (repeat constructor).
  split; [exact H|].
  exact (proj1 (createImageFiles_writes_the_raw_bodies
                  Demo.world Demo.image_files 7) _ H (fun _ => eq_refl)).
Defined.

(** X10. Whatever the world does, no staging writes a file without a
    content: [contents[index]] is there for every index of [files],
    since [Promise.all] gives one value for each download. *)
Theorem stagings_never_write_undefined
        (w : World) (files : list remote_file) (t : instant) :
  forallb has_content (fs_ops (events (createCodeFiles w files t))) = true
  /\ forallb has_content (fs_ops (events (createImageFiles w files t))) = true.
Proof.
  rewrite createCodeFiles_run, createImageFiles_run.
  split; rewrite stage_shape_fs_ops by reflexivity;
    (destruct (state _) as [contents|e] eqn:E; [|reflexivity]);
    cbn zeta; cbn [forallb has_content andb];
    (destruct (is_fulfilled _); [|reflexivity]);
    apply downloads_joined_length in E.
  - unfold write_code.
    rewrite (mapi_nth_error
               (fun file c => OutputFile
                                (path_join w [TEMP_DIR; lit "code"; name file])
                                c (lit "utf8")))
      by congruence.
    apply forallb_forall. intros op Hin.
    apply in_map_iff in Hin as (fc & <- & _). reflexivity.
  - unfold write_image.
    rewrite (mapi_nth_error
               (fun file c => WriteFile
                                (path_join w [path_join w [TEMP_DIR; lit "images"];
                                              name file]) c))
      by congruence.
    apply forallb_forall. intros op Hin.
    apply in_map_iff in Hin as (fc & <- & _). reflexivity.
Qed.

(** X11. A staging that fails before its writes leaves no file.  When
    a download is refused, nothing is asked of the filesystem, not even
    the directory.  When the downloads are served and the directory
    cannot be made, the staging is rejected with the error of that call,
    which is its only call to the filesystem. *)
Theorem a_staging_that_fails_early_writes_nothing
        (w : World) (files : list remote_file) (t : instant) :
  (Exists (refuses w t None) files ->
   fs_ops (events (createCodeFiles w files t)) = [])
  /\ (Exists (refuses w t (Some (lit "arraybuffer"))) files ->
      fs_ops (events (createImageFiles w files t)) = [])
  /\ (forall bodies e,
         Forall2 (serves w t None) files bodies ->
         (forall t', snd (fs w t' (EnsureDir (code_dir w))) = Rejected e) ->
         result (createCodeFiles w files t) = Rejected e
         /\ fs_ops (events (createCodeFiles w files t))
            = [EnsureDir (code_dir w)])
  /\ (forall bodies e,
         Forall2 (serves w t (Some (lit "arraybuffer"))) files bodies ->
         (forall t', snd (fs w t' (EnsureDir (images_dir w))) = Rejected e) ->
         result (createImageFiles w files t) = Rejected e
         /\ fs_ops (events (createImageFiles w files t))
            = [EnsureDir (images_dir w)]).
Proof.
  rewrite createCodeFiles_run, createImageFiles_run.
  split; [|split; [|split]].
  - intros H. rewrite stage_shape_fs_ops by reflexivity.
    destruct (downloads_refused w _ _ _ H) as [e He].
    unfold downloads_joined. now rewrite He.
  - intros H. rewrite stage_shape_fs_ops by reflexivity.
    destruct (downloads_refused w _ _ _ H) as [e He].
    unfold downloads_joined. now rewrite He.
  - intros bodies e H Hdir. split.
    + unfold stage_shape. cbn zeta.
      fold (downloads_joined w None files t).
      rewrite (downloads_served_with w None files bodies t H).
      fold (code_dir w).
      specialize (Hdir (Nat.max t (settles (downloads_joined w None files t)))).
      destruct (fs w _ (EnsureDir (code_dir w))) as [d o].
      cbn [snd] in Hdir. now subst o.
    + rewrite stage_shape_fs_ops by reflexivity.
      rewrite (downloads_served_with w None files bodies t H). cbn zeta.
      fold (code_dir w). now rewrite Hdir.
  - intros bodies e H Hdir. split.
    + unfold stage_shape. cbn zeta.
      fold (downloads_joined w (Some (lit "arraybuffer")) files t).
      rewrite (downloads_served_with w _ files bodies t H).
      fold (images_dir w).
      specialize (Hdir (Nat.max t (settles (downloads_joined
                                             w (Some (lit "arraybuffer"))
                                             files t)))).
      destruct (fs w _ (EnsureDir (images_dir w))) as [d o].
      cbn [snd] in Hdir. now subst o.
    + rewrite stage_shape_fs_ops by reflexivity.
      rewrite (downloads_served_with w _ files bodies t H). cbn zeta.
      fold (images_dir w). now rewrite Hdir.
Qed.

Lemma a_staging_that_fails_early_writes_nothing_witness :
  Exists (refuses Demo.world_without_hello 4 None) Demo.code_files
  /\ fs_ops (events (createCodeFiles Demo.world_without_hello Demo.code_files 4))
     = []
  /\ Forall2 (serves Faulty.read_only_disk 4 None) Demo.code_files
             [Text (lit "print('hello')")]
  /\ result (createCodeFiles Faulty.read_only_disk Demo.code_files 4)
     = Rejected (LibraryError 30)
  /\ fs_ops (events (createCodeFiles Faulty.read_only_disk Demo.code_files 4))
     = [EnsureDir (lit "./temp_adoc_files/code")].
Proof.
  assert (H : Exists (refuses Demo.world_without_hello 4 None) Demo.code_files)
    by (left; reflexivity).
  assert (H' : Forall2 (serves Faulty.read_only_disk 4 None) Demo.code_files
                       [Text (lit "print('hello')")])
    by (repeat constructor).
  split; [exact H|].
  split; [exact (proj1 (a_staging_that_fails_early_writes_nothing
                          Demo.world_without_hello Demo.code_files 4) H)|].
  split; [exact H'|].
  exact (proj1 (proj2 (proj2 (a_staging_that_fails_early_writes_nothing
                                Faulty.read_only_disk Demo.code_files 4)))
               _ (LibraryError 30) H' (fun _ => eq_refl)).
Defined.

(** X12. With no file to stage, a staging downloads nothing and writes
    nothing: it makes its directory, at once, and ends as that call
    ends.  [createImageFiles] then logs that the images are saved. *)
Theorem a_staging_of_no_file_only_makes_its_directory
        (w : World) (t : instant) :
  let made_code := fs w t (EnsureDir (code_dir w)) in
  let made_images := fs w t (EnsureDir (images_dir w)) in
  let t_code := t + fst made_code in
  let t_images := t + fst made_images in
  createCodeFiles w [] t
  = Run [Event t t_code (Fs (EnsureDir (code_dir w)))
               (is_fulfilled (snd made_code))]
        t_code (snd made_code)
  /\ createImageFiles w [] t
     = Run (Event t t_images (Fs (EnsureDir (images_dir w)))
                  (is_fulfilled (snd made_images))
              :: (if is_fulfilled (snd made_images)
                  then [Event t_images t_images
                              (ConsoleLog [lit "Images saved to "
                                             ++ images_dir w]) true]
                  else []))
           t_images (snd made_images).
Proof.
  cbn zeta. rewrite createCodeFiles_run, createImageFiles_run.
  unfold stage_shape, code_dir, images_dir, images_saved.
  cbn [download_runs List.map promise_all state settles flat_map mapi mapi_from
       app].
  rewrite Nat.max_0_r.
  split.
  - destruct (fs w t (EnsureDir _)) as [d [[]|e]];
      cbn [fst snd is_fulfilled]; [|reflexivity].
    now rewrite Nat.max_0_r.
  - destruct (fs w t (EnsureDir _)) as [d [[]|e]];
      cbn [fst snd is_fulfilled]; [|reflexivity].
    now rewrite Nat.max_0_r.
Qed.

(* ================================================================== *)
(** * Further properties: the export *)
(* ================================================================== *)

Section TolerantFacts.

Context {A : Type} (w : World).

Lemma failures_logged_app (l l' : list event) :
  failures_logged w l -> failures_logged w l' -> failures_logged w (l ++ l').
Proof.
  intros H H' ev Hin Hf. apply in_app_iff in Hin as [Hin|Hin].
  - destruct (H ev Hin Hf) as (op & label & e & Hw & Hl & He & Hlog).
    exists op, label, e. repeat split; auto. apply in_app_iff. now left.
  - destruct (H' ev Hin Hf) as (op & label & e & Hw & Hl & He & Hlog).
    exists op, label, e. repeat split; auto. apply in_app_iff. now right.
Qed.

Lemma tolerant_bind {B : Type} (m : async B) (k : B -> async A) :
  tolerant w m -> (forall b, tolerant w (k b)) -> tolerant w (bind m k).
Proof.
  intros Hm Hk t. rewrite bind_run.
  destruct (result (m t)) as [b|e]; cbn [events]; [|apply Hm].
  apply failures_logged_app; [apply Hm|apply Hk].
Qed.

Lemma tolerant_external (c : call) (answer : instant -> nat * outcome A) :
  (forall t, is_fulfilled (snd (answer t)) = true) ->
  tolerant w (external c answer).
Proof.
  intros H t ev. unfold external. specialize (H t).
  destruct (answer t) as [d o]. cbn [snd] in H. cbn [events].
  intros [<-|[]]. cbn [succeeded]. congruence.
Qed.

Lemma tolerant_immediate (c : call) (answer : instant -> outcome A) :
  (forall t, is_fulfilled (answer t) = true) ->
  tolerant w (immediate c answer).
Proof.
  intros H t ev. unfold immediate. cbn [events].
  intros [<-|[]]. cbn [succeeded]. rewrite H. discriminate.
Qed.

Lemma tolerant_launch (m : async A) : tolerant w m -> tolerant w (launch m).
Proof. intros Hm t. apply Hm. Qed.

Lemma tolerant_await (p : promise A) : tolerant w (await p).
Proof. intros t ev []. Qed.

Lemma prints_last_bind {B : Type} (m : async B) (k : B -> async A) :
  calls not_print m -> (forall b, prints_last (k b)) ->
  prints_last (bind m k).
Proof.
  intros Hm Hk t ev. rewrite bind_run. specialize (Hm t).
  rewrite Forall_forall in Hm.
  assert (Hno : In ev (events (m t)) -> printed ev = true -> False).
  { intros Hin Hp. specialize (Hm _ Hin). unfold printed in Hp.
    apply andb_true_iff in Hp as [_ Hp].
    destruct (what ev) as [| | |[]| | |]; try discriminate Hp. exact Hm. }
  destruct (result (m t)) as [b|e]; cbn [events result finish].
  - rewrite in_app_iff. intros [Hin|Hin] Hp; [destruct (Hno Hin Hp)|].
    now apply Hk.
  - intros Hin Hp. destruct (Hno Hin Hp).
Qed.

Lemma prints_last_external (c : call) (answer : instant -> nat * outcome A) :
  prints_last (external c answer).
Proof.
  intros t ev. unfold external. destruct (answer t) as [d o].
  cbn [events result finish]. intros [<-|[]]. unfold printed.
  cbn [succeeded settled]. intros Hp. apply andb_true_iff in Hp as [Hp _].
  auto.
Qed.

End TolerantFacts.

Section MathJax.

Variable w : World.

(** A MathJax step with its [.catch]. *)
Lemma tolerant_mathjax_step (op : browser_op) (label : jsstring) :
  mathjax_label op = Some label ->
  tolerant w (catch (puppeteer_call w op)
                    (fun err => console_error label err)).
Proof.
  intros Hl t ev. unfold catch, try_catch, puppeteer_call, external.
  destruct (puppeteer w t op) as [d [[]|e]] eqn:E;
    cbn [events result finish app].
  - intros [<-|[]]. discriminate.
  - intros [<-|[<-|[]]]; [|discriminate]. intros _.
    exists op, label, e. cbn [what settled launched]. rewrite E.
    repeat split; auto. right. now left.
Qed.

Lemma succeeds_mathjax_step (op : browser_op) (label : jsstring) :
  succeeds (catch (puppeteer_call w op)
                  (fun err => console_error label err)).
Proof.
  apply succeeds_catch.
  - intros t. now apply ended_external.
  - intros e t. reflexivity.
Qed.

Hypothesis Hw : obliging_but_for_mathjax w.

Lemma mathjax_fs (t : instant) (op : fs_op) :
  is_fulfilled (snd (fs w t op)) = true.
Proof. apply Hw. Qed.

Lemma mathjax_asciidoctor (t : instant) (file : jsstring)
      (options : convert_options) :
  is_fulfilled (asciidoctor_convertFile w t file options) = true.
Proof. apply Hw. Qed.

Lemma mathjax_puppeteer (t : instant) (op : browser_op) :
  mathjax_label op = None -> is_fulfilled (snd (puppeteer w t op)) = true.
Proof. apply Hw. Qed.

#[local] Hint Resolve mathjax_fs mathjax_asciidoctor mathjax_puppeteer : core.

Lemma saveAsPDF_succeeds_without_mathjax (mergedContent : jsstring) :
  succeeds (saveAsPDF w mergedContent).
Proof.
  unfold saveAsPDF, fs_call, console_log, console_error, convertFile,
    puppeteer_call, page_on.
  succeeds_tac.
Qed.

Lemma saveAsPDF_prints_without_mathjax (mergedContent : jsstring) :
  performs (Puppeteer (Pdf page_pdf_options)) (saveAsPDF w mergedContent).
Proof.
  unfold saveAsPDF, fs_call, console_log, console_error, convertFile,
    puppeteer_call, page_on.
  cbv zeta. find_call. auto.
Qed.

Lemma saveAsPDF_tolerant (mergedContent : jsstring) :
  tolerant w (saveAsPDF w mergedContent).
Proof.
  unfold saveAsPDF, fs_call, console_log, convertFile, page_on. cbv zeta.
  repeat match goal with
         | |- tolerant _ (bind _ _) => apply tolerant_bind; [|intros ?]
         | |- tolerant _ (launch _) => apply tolerant_launch
         | |- tolerant _ (await _) => apply tolerant_await
         | |- tolerant _ (catch _ _) =>
             apply tolerant_mathjax_step; reflexivity
         | |- tolerant _ (immediate _ _) =>
             apply tolerant_immediate; intros ?; solve [reflexivity | auto]
         | |- tolerant _ (external _ _) =>
             apply tolerant_external; intros ?; solve [auto]
         | |- tolerant _ (puppeteer_call _ _) => unfold puppeteer_call
         end.
Qed.

End MathJax.

Section CleanupFacts.

Variable w : World.

Lemma render_prints_last (mergedContent : jsstring) :
  prints_last (render w mergedContent).
Proof.
  unfold render, fs_call, console_log, console_error, convertFile, page_on.
  cbv zeta.
  repeat (apply prints_last_bind; [unfold puppeteer_call; calls_tac|intros ?]).
  apply prints_last_external.
Qed.

Lemma render_not_close (mergedContent : jsstring) :
  calls not_close (render w mergedContent).
Proof.
  unfold render, fs_call, console_log, console_error, convertFile,
    puppeteer_call, page_on.
  calls_tac.
Qed.

(** The calls of [cleanup], whatever their outcome. *)
Lemma cleanup_events_in (T : instant) :
  let closing := puppeteer w T Close in
  let removing := fs w T (Remove TEMP_DIR) in
  let T' := Nat.max (T + fst closing) (T + fst removing) in
  let both := is_fulfilled (snd closing) && is_fulfilled (snd removing) in
  is_fulfilled (result (cleanup w T)) = both
  /\ events (cleanup w T)
     = [ Event T (T + fst closing) (Puppeteer Close)
               (is_fulfilled (snd closing));
         Event T (T + fst removing) (Fs (Remove TEMP_DIR))
               (is_fulfilled (snd removing)) ]
         ++ (if both
             then [Event T' T' (ConsoleLog [lit "PDF saved as " ++ OUTPUT_FILE])
                         true]
             else [])
  /\ (both = true -> finish (cleanup w T) = T').
Proof.
  cbn zeta. rewrite cleanup_run. unfold puppeteer_call, fs_call, external.
  cbn zeta.
  destruct (puppeteer w T Close) as [dc [[]|e]];
    destruct (fs w T (Remove TEMP_DIR)) as [dr [[]|e']];
    cbn [promise_all promise_of promise_map all2 state settles finish result
         events is_fulfilled fst snd app andb].
  - replace (Nat.max T (Nat.max (T + dc) (Nat.max (T + dr) 0)))
      with (Nat.max (T + dc) (T + dr)) by lia.
    repeat split.
  - repeat split. discriminate.
  - repeat split. discriminate.
  - destruct (T + dc <=? T + dr);
      cbn [state settles result events finish is_fulfilled];
      repeat split; discriminate.
Qed.

End CleanupFacts.

Section ExportSteps.

Context {A B : Type}.

Lemma bind_immediate_answer (c : call)
      (answer : instant -> outcome A) (k : A -> async B) (t : instant) :
  bind (immediate c answer) k t
  = match answer t with
    | Fulfilled a => after [Event t t c true] (k a t)
    | Rejected e => Run [Event t t c false] t (Rejected e)
    end.
Proof. unfold bind, immediate. cbn zeta. now destruct (answer t). Qed.

Lemma performs_after (c : call) (m : async A) (evs : list event)
      (t : instant) :
  performs c m ->
  exists t1 t2, In (Event t1 t2 c true) (events (after evs (m t))).
Proof.
  intros H. destruct (H t) as (t1 & t2 & Hin). exists t1, t2.
  unfold after. cbn [events]. apply in_app_iff. now right.
Qed.

End ExportSteps.

(** X13. [saveAsPDF] first writes the merged document to
    [merged.adoc], then converts that file, the instant the write has
    settled, with the images directory resolved from the temporary
    directory.  When the browser works, the page it is given is the HTML
    of that conversion, between the head and the tail of the page. *)
Theorem saveAsPDF_shows_the_converted_document
        (w : World) (mergedContent : jsstring) (t : instant) (d : nat)
        (html : jsstring) :
  let tempAdocPath := path_join w [TEMP_DIR; lit "merged.adoc"] in
  let imagesDir := path_resolve w [TEMP_DIR; lit "images"] in
  fs w t (OutputFile tempAdocPath (Some (Text mergedContent)) (lit "utf8"))
  = (d, Fulfilled tt) ->
  asciidoctor_convertFile w (t + d) tempAdocPath (asciidoctor_options imagesDir)
  = Fulfilled html ->
  (forall t' op, mathjax_label op = None ->
                 is_fulfilled (snd (puppeteer w t' op)) = true) ->
  firstn 4 (events (saveAsPDF w mergedContent t))
  = [ Event t (t + d)
            (Fs (OutputFile tempAdocPath (Some (Text mergedContent))
                            (lit "utf8"))) true;
      Event (t + d) (t + d) (ConsoleLog [lit "Images directory:"; imagesDir])
            true;
      Event (t + d) (t + d) (ConsoleLog [lit "Converting AsciiDoc to HTML..."])
            true;
      Event (t + d) (t + d)
            (AsciidoctorConvertFile tempAdocPath (asciidoctor_options imagesDir))
            true ]
  /\ exists t1 t2,
      In (Event t1 t2 (Puppeteer (SetContent (page_head ++ html ++ page_tail)))
                true)
         (events (saveAsPDF w mergedContent t)).
Proof.
  cbn zeta. intros Hfs Hc Hbrowser.
  unfold saveAsPDF, fs_call, console_log. cbv zeta.
  rewrite bind_external, Hfs. rewrite !bind_immediate.
  unfold convertFile. rewrite bind_immediate_answer, Hc.
  rewrite !after_after. cbn [app]. split; [reflexivity|].
  cbv beta.
  match goal with
  | |- exists t1 t2, In _ (events (after ?evs (?m ?t'))) =>
      apply (performs_after _ m evs t')
  end.
  unfold puppeteer_call, page_on. find_call. auto.
Qed.

Lemma saveAsPDF_shows_the_converted_document_witness :
  exists t1 t2,
    In (Event t1 t2
              (Puppeteer (SetContent (page_head ++ lit "<p>book</p>"
                                                ++ page_tail))) true)
       (events (saveAsPDF Faulty.without_mathjax (lit "= Book") 0)).
Proof.
  refine (proj2 (saveAsPDF_shows_the_converted_document
                   Faulty.without_mathjax (lit "= Book") 0 1 (lit "<p>book</p>")
                   eq_refl eq_refl _)).
  intros t' [] H; try reflexivity; try discriminate H.
  destruct script; [discriminate H|reflexivity].
Defined.

(** X14. [saveAsPDF] stops at the first step that fails.  When
    [merged.adoc] cannot be written, that write is its only call.  When
    the write succeeds and the converter throws, [saveAsPDF] is rejected
    with that error after the write and the two logs: no browser is
    launched and nothing is removed. *)
Theorem saveAsPDF_stops_before_the_browser
        (w : World) (mergedContent : jsstring) (t : instant) :
  let tempAdocPath := path_join w [TEMP_DIR; lit "merged.adoc"] in
  let imagesDir := path_resolve w [TEMP_DIR; lit "images"] in
  let write := Fs (OutputFile tempAdocPath (Some (Text mergedContent))
                              (lit "utf8")) in
  let convert := AsciidoctorConvertFile tempAdocPath
                                        (asciidoctor_options imagesDir) in
  (forall d e,
      fs w t (OutputFile tempAdocPath (Some (Text mergedContent)) (lit "utf8"))
      = (d, Rejected e) ->
      saveAsPDF w mergedContent t
      = Run [Event t (t + d) write false] (t + d) (Rejected e))
  /\ (forall d e,
         fs w t (OutputFile tempAdocPath (Some (Text mergedContent))
                            (lit "utf8"))
         = (d, Fulfilled tt) ->
         asciidoctor_convertFile w (t + d) tempAdocPath
                                 (asciidoctor_options imagesDir)
         = Rejected e ->
         saveAsPDF w mergedContent t
         = Run [ Event t (t + d) write true;
                 Event (t + d) (t + d)
                       (ConsoleLog [lit "Images directory:"; imagesDir]) true;
                 Event (t + d) (t + d)
                       (ConsoleLog [lit "Converting AsciiDoc to HTML..."]) true;
                 Event (t + d) (t + d) convert false ]
               (t + d) (Rejected e)).
Proof.
  cbn zeta. split; intros d e Hfs.
  - unfold saveAsPDF, fs_call. cbv zeta. rewrite bind_external, Hfs.
    reflexivity.
  - intros Hc. unfold saveAsPDF, fs_call, console_log. cbv zeta.
    rewrite bind_external, Hfs. rewrite !bind_immediate, !after_after.
    unfold convertFile at 1. unfold bind at 1. unfold immediate.
    cbn [result events finish]. rewrite Hc. reflexivity.
Qed.

Lemma saveAsPDF_stops_before_the_browser_witness :
  saveAsPDF Faulty.read_only_disk (lit "= Book") 0
  = Run [Event 0 1
               (Fs (OutputFile (lit "./temp_adoc_files/merged.adoc")
                               (Some (Text (lit "= Book"))) (lit "utf8")))
               false]
        1 (Rejected (LibraryError 30))
  /\ result (saveAsPDF Faulty.asciidoctor_throws (lit "= Book") 0)
     = Rejected (LibraryError 1)
  /\ length (events (saveAsPDF Faulty.asciidoctor_throws (lit "= Book") 0)) = 4.
Proof.
  destruct (saveAsPDF_stops_before_the_browser
              Faulty.read_only_disk (lit "= Book") 0) as [Hw _].
  destruct (saveAsPDF_stops_before_the_browser
              Faulty.asciidoctor_throws (lit "= Book") 0) as [_ Hc].
  split; [exact (Hw 1 _ eq_refl)|].
  split; [exact (f_equal result (Hc 1 _ eq_refl eq_refl))
         |exact (f_equal (fun r => length (events r)) (Hc 1 _ eq_refl eq_refl))].
Defined.

(** X15. A failure of MathJax does not stop the export.  When the
    filesystem, the converter and the browser work, but for the wait for
    MathJax and the typesetting, which may fail, [saveAsPDF] is
    fulfilled and the page is printed; every call that failed is one of
    those two steps, and the error it failed with was logged, under the
    label of the step, the instant it failed. *)
Theorem saveAsPDF_goes_on_without_mathjax
        (w : World) (mergedContent : jsstring) (t : instant) :
  obliging_but_for_mathjax w ->
  result (saveAsPDF w mergedContent t) = Fulfilled tt
  /\ (exists t1 t2,
         In (Event t1 t2 (Puppeteer (Pdf page_pdf_options)) true)
            (events (saveAsPDF w mergedContent t)))
  /\ failures_logged w (events (saveAsPDF w mergedContent t)).
Proof.
  intros Hw. split; [|split].
  - pose proof (saveAsPDF_succeeds_without_mathjax w Hw mergedContent t) as H.
    now destruct (result _) as [[]|e].
  - apply (saveAsPDF_prints_without_mathjax w Hw).
  - apply (saveAsPDF_tolerant w Hw).
Qed.

Lemma saveAsPDF_goes_on_without_mathjax_witness :
  obliging_but_for_mathjax Faulty.without_mathjax
  /\ result (saveAsPDF Faulty.without_mathjax (lit "= Book") 0) = Fulfilled tt
  /\ In (Event 6 36 (Puppeteer (WaitForFunction mathjax_ready)) false)
        (events (saveAsPDF Faulty.without_mathjax (lit "= Book") 0))
  /\ In (Event 36 36 (ConsoleError (lit "MathJax loading error:")
                                   (LibraryError 408)) true)
        (events (saveAsPDF Faulty.without_mathjax (lit "= Book") 0))
  /\ In (Event 36 37 (Puppeteer (Evaluate TypesetPromise)) false)
        (events (saveAsPDF Faulty.without_mathjax (lit "= Book") 0)).
Proof.
  assert (Hw : obliging_but_for_mathjax Faulty.without_mathjax).
  { split; [|split]; try reflexivity.
    intros t [] H; try reflexivity; try discriminate H.
    destruct script; [discriminate H|reflexivity]. }
  split; [exact Hw|].
  split; [exact (proj1 (saveAsPDF_goes_on_without_mathjax
                          Faulty.without_mathjax (lit "= Book") 0 Hw))|].
  repeat split; vm_compute; in_list.
Defined.

(** X16. [saveAsPDF] closes the browser only when [page.pdf] has
    succeeded, and at that instant: a run that fails anywhere between
    the launch of the browser and the printing never closes it. *)
Theorem saveAsPDF_closes_the_browser_after_printing_only
        (w : World) (mergedContent : jsstring) (t : instant) (ev : event) :
  In ev (events (saveAsPDF w mergedContent t)) ->
  what ev = Puppeteer Close ->
  exists t0,
    In (Event t0 (launched ev) (Puppeteer (Pdf page_pdf_options)) true)
       (events (saveAsPDF w mergedContent t)).
Proof.
  rewrite saveAsPDF_split, bind_run.
  pose proof (render_not_close w mergedContent t) as Hnc.
  pose proof (render_ends_with_pdf w mergedContent t) as Hpdf.
  assert (Hno : In ev (events (render w mergedContent t)) ->
                what ev = Puppeteer Close -> False).
  { intros Hin Hw. rewrite Forall_forall in Hnc.
    specialize (Hnc _ Hin). now rewrite Hw in Hnc. }
  destruct (result (render w mergedContent t)) as [[]|e]; cbn [events].
  2:{ intros Hin Hw. destruct (Hno Hin Hw). }
  destruct (Hpdf eq_refl) as [t0 Ht0].
  destruct (cleanup_events_in w (finish (render w mergedContent t)))
    as (_ & -> & _).
  rewrite in_app_iff. intros [Hin|Hin] Hw; [destruct (Hno Hin Hw)|].
  exists t0. apply in_app_iff. left.
  cbn [app] in Hin. destruct Hin as [<-|[<-|Hin]].
  - exact Ht0.
  - discriminate Hw.
  - destruct (_ && _); [|destruct Hin].
    destruct Hin as [<-|[]]. discriminate Hw.
Qed.

Lemma saveAsPDF_closes_the_browser_after_printing_only_witness :
  In (Event 10 11 (Puppeteer Close) true)
     (events (saveAsPDF Demo.world (lit "= Book") 0))
  /\ (exists t0,
         In (Event t0 10 (Puppeteer (Pdf page_pdf_options)) true)
            (events (saveAsPDF Demo.world (lit "= Book") 0)))
  /\ In (Event 1 2 (Puppeteer (Launch [lit "--no-sandbox";
                                       lit "--disable-setuid-sandbox"])) true)
        (events (saveAsPDF Faulty.page_crashes (lit "= Book") 0))
  /\ ~ In (Puppeteer Close)
          (List.map what
                    (events (saveAsPDF Faulty.page_crashes (lit "= Book") 0))).
Proof.
  assert (Hin : In (Event 10 11 (Puppeteer Close) true)
                   (events (saveAsPDF Demo.world (lit "= Book") 0)))
    by (vm_compute; in_list).
  split; [exact Hin|].
  split; [exact (saveAsPDF_closes_the_browser_after_printing_only
                   Demo.world _ 0 _ Hin eq_refl)|].
  split; [vm_compute; in_list|].
  intros H. apply in_map_iff in H as (ev & Hw & H).
  destruct (saveAsPDF_closes_the_browser_after_printing_only
              Faulty.page_crashes _ 0 ev H Hw) as [t0 Ht0].
  vm_compute in Ht0.
  repeat (destruct Ht0 as [Ht0|Ht0]; [discriminate Ht0|]). exact Ht0.
Defined.

(** X17. Once [page.pdf] has succeeded, at [T], [saveAsPDF] calls
    [browser.close] and [fs.remove] of the temporary directory, both at
    [T] and both whatever the other one answers.  It is fulfilled when
    both succeed, and only then; it then ends when the later of the two
    has settled, with the log [PDF saved as mastering-bitcoin.pdf]. *)
Theorem saveAsPDF_closes_and_removes_together
        (w : World) (mergedContent : jsstring) (t t0 T : instant) :
  In (Event t0 T (Puppeteer (Pdf page_pdf_options)) true)
     (events (saveAsPDF w mergedContent t)) ->
  let closing := puppeteer w T Close in
  let removing := fs w T (Remove TEMP_DIR) in
  let T' := Nat.max (T + fst closing) (T + fst removing) in
  In (Event T (T + fst closing) (Puppeteer Close) (is_fulfilled (snd closing)))
     (events (saveAsPDF w mergedContent t))
  /\ In (Event T (T + fst removing) (Fs (Remove TEMP_DIR))
               (is_fulfilled (snd removing)))
        (events (saveAsPDF w mergedContent t))
  /\ is_fulfilled (result (saveAsPDF w mergedContent t))
     = is_fulfilled (snd closing) && is_fulfilled (snd removing)
  /\ (is_fulfilled (result (saveAsPDF w mergedContent t)) = true ->
      finish (saveAsPDF w mergedContent t) = T'
      /\ In (Event T' T' (ConsoleLog [lit "PDF saved as " ++ OUTPUT_FILE]) true)
            (events (saveAsPDF w mergedContent t))).
Proof.
  rewrite saveAsPDF_split, bind_run.
  pose proof (render_prints_last w mergedContent t) as Hlast.
  intros Hin.
  assert (Hr : In (Event t0 T (Puppeteer (Pdf page_pdf_options)) true)
                  (events (render w mergedContent t))).
  { destruct (result (render w mergedContent t)) as [[]|e]; cbn [events] in Hin;
      [|exact Hin].
    apply in_app_iff in Hin as [Hin|Hin]; [exact Hin|].
    destruct (cleanup_events_in w (finish (render w mergedContent t)))
      as (_ & Hev & _).
    rewrite Hev in Hin. cbn [app] in Hin.
    destruct Hin as [Hin|[Hin|Hin]]; try discriminate Hin.
    destruct (_ && _); [|destruct Hin].
    destruct Hin as [Hin|[]]. discriminate Hin. }
  destruct (Hlast _ Hr eq_refl) as [Hf HT]. cbn [settled] in HT.
  destruct (result (render w mergedContent t)) as [[]|e]; [|discriminate Hf].
  rewrite <- HT. cbn [events result finish]. cbn zeta.
  destruct (cleanup_events_in w T) as (Hres & Hev & Hfin).
  cbn zeta in Hres, Hev, Hfin. rewrite Hev, Hres.
  split; [apply in_app_iff; right; now left|].
  split; [apply in_app_iff; right; right; now left|].
  split; [reflexivity|].
  intros Hb. rewrite Hb. split; [now apply Hfin|].
  apply in_app_iff. right. right. right. now left.
Qed.

Lemma saveAsPDF_closes_and_removes_together_witness :
  In (Event 9 10 (Puppeteer (Pdf page_pdf_options)) true)
     (events (saveAsPDF Faulty.browser_hangs (lit "= Book") 0))
  /\ In (Event 10 19 (Puppeteer Close) false)
        (events (saveAsPDF Faulty.browser_hangs (lit "= Book") 0))
  /\ In (Event 10 11 (Fs (Remove TEMP_DIR)) true)
        (events (saveAsPDF Faulty.browser_hangs (lit "= Book") 0))
  /\ is_fulfilled (result (saveAsPDF Faulty.browser_hangs (lit "= Book") 0))
     = false.
Proof.
  assert (Hin : In (Event 9 10 (Puppeteer (Pdf page_pdf_options)) true)
                   (events (saveAsPDF Faulty.browser_hangs (lit "= Book") 0)))
    by (vm_compute; in_list).
  destruct (saveAsPDF_closes_and_removes_together
              Faulty.browser_hangs (lit "= Book") 0 9 10 Hin)
    as (Hc & Hr & Hres & _).
  split; [exact Hin|]. split; [exact Hc|]. split; [exact Hr|exact Hres].
Defined.

(* ================================================================== *)
(** * Further properties: the runs of [main] *)
(* ================================================================== *)

Section MainRuns.

Variable w : World.

Lemma main_shape_run (t : instant) :
  main w t
  = let r := main_shape w t in
    match result r with
    | Fulfilled _ => r
    | Rejected e =>
        if ended r then r
        else Run (events r ++ [caught (finish r) e]) (finish r) (Fulfilled tt)
    end.
Proof. rewrite main_run, main_try_run. reflexivity. Qed.

Lemma fetchRepoContents_requests (folder : option jsstring) (t : instant) :
  requests (events (fetchRepoContents w folder t)) = [listing_call folder].
Proof.
  rewrite fetchRepoContents_run. cbn zeta.
  now destruct (axios_get_listing w t (listing_url folder)) as [d [l|e]].
Qed.

Lemma listings_requests (t : instant) :
  requests (events (getCodeFiles w t)) = [listing_call (Some (lit "code"))]
  /\ requests (events (getImageFiles w t))
     = [listing_call (Some (lit "images"))]
  /\ requests (events (getChapterFiles w t)) = [listing_call None].
Proof.
  rewrite getCodeFiles_run, getImageFiles_run, getChapterFiles_run.
  cbn zeta. cbn [events]. now rewrite !fetchRepoContents_requests.
Qed.

End MainRuns.

Section HappyPath.

Variable w : World.
Hypothesis Hw : obliging w.

Lemma getChapterFiles_succeeds : succeeds (getChapterFiles w).
Proof.
  unfold getChapterFiles. succeeds_tac. now apply fetchRepoContents_succeeds.
Qed.

Lemma mergeFiles_succeeds (files : list remote_file) :
  succeeds (mergeFiles w files).
Proof.
  intros t. destruct (result (mergeFiles w files t)) as [merged|e] eqn:E;
    [reflexivity|].
  apply mergeFiles_rejected_joined, downloads_rejected_inv in E
    as (file & _ & Hr).
  pose proof (obliging_file w Hw t (downloadUrl file) (download_config None))
    as Hf.
  rewrite Hr in Hf. discriminate Hf.
Qed.

Lemma main_try_succeeds : succeeds (main_try w).
Proof.
  intros t. rewrite main_try_run. unfold main_shape.
  pose proof (obliging_fs w Hw t (EnsureDir TEMP_DIR)) as Hfs.
  destruct (fs w t (EnsureDir TEMP_DIR)) as [d [[]|e]]; [|discriminate Hfs].
  cbn zeta.
  pose proof (getCodeFiles_succeeds w Hw (t + d)) as Hrc.
  destruct (result (getCodeFiles w (t + d))) as [codeFiles|e];
    [|discriminate Hrc].
  set (t1 := finish (getCodeFiles w (t + d))).
  pose proof (createCodeFiles_succeeds w Hw codeFiles t1) as Hsc.
  rewrite (unobserved_fulfilled _ (getImageFiles w t1) Hsc).
  pose proof (getImageFiles_succeeds w Hw t1) as Hri.
  destruct (result (getImageFiles w t1)) as [imageFiles|e];
    [|discriminate Hri].
  set (t2 := finish (getImageFiles w t1)).
  pose proof (createImageFiles_succeeds w Hw imageFiles t2) as Hsi.
  pose proof (getChapterFiles_succeeds t2) as Hlc.
  unfold promise_all3, all2. cbn [promise_of state settles].
  destruct (result (createCodeFiles w codeFiles t1)) as [[]|e];
    [|discriminate Hsc].
  destruct (result (createImageFiles w imageFiles t2)) as [[]|e];
    [|discriminate Hsi].
  destruct (result (getChapterFiles w t2)) as [chapterFiles|e];
    [|discriminate Hlc].
  cbn [state settles snd result].
  assert (Hx : succeeds (export w chapterFiles)).
  { unfold export, console_log. succeeds_tac.
    - apply mergeFiles_succeeds.
    - now apply saveAsPDF_succeeds. }
  apply Hx.
Qed.

End HappyPath.

Section Footprint.

Variable w : World.

Lemma calls_no_request {A : Type} (m : async A) (t : instant) :
  calls not_request m -> requests (events (m t)) = [].
Proof.
  intros H. specialize (H t). unfold requests.
  induction H as [|ev evs Hev _ IH]; [reflexivity|].
  cbn [List.filter]. unfold is_request at 1.
  destruct (what ev); try exact IH. destruct Hev.
Qed.

Lemma saveAsPDF_not_request (mergedContent : jsstring) :
  calls not_request
        (bind (saveAsPDF w mergedContent)
              (fun _ => console_log [lit "Process completed successfully!"])).
Proof.
  unfold saveAsPDF, fs_call, console_log, console_error, convertFile,
    puppeteer_call, page_on.
  calls_tac.
Qed.

Lemma export_requests (chapterFiles : list remote_file) (t : instant) :
  requests (events (export w chapterFiles t))
  = List.map (download_request None) chapterFiles.
Proof.
  rewrite export_run. cbn zeta.
  pose proof (mergeFiles_requests w chapterFiles t) as Hm.
  destruct (result (mergeFiles w chapterFiles t)) as [merged|e];
    [|exact Hm].
  unfold after. cbn [events]. rewrite !requests_app, Hm.
  rewrite (calls_no_request _ _ (saveAsPDF_not_request merged)).
  cbn [requests List.filter List.map is_request what app].
  now rewrite !app_nil_r.
Qed.

End Footprint.

Section DataFlow.

Variable w : World.

(** A [saveAsPDF] that is fulfilled has written the merged document,
    first of all. *)
Lemma saveAsPDF_first_write (mergedContent : jsstring) (t : instant) :
  is_fulfilled (result (saveAsPDF w mergedContent t)) = true ->
  In (Event t (t + fst (fs w t (merged_write w mergedContent)))
            (Fs (merged_write w mergedContent)) true)
     (events (saveAsPDF w mergedContent t)).
Proof.
  unfold saveAsPDF, fs_call, merged_write. cbv zeta. rewrite bind_external.
  destruct (fs w t _) as [d [[]|e]]; [|discriminate].
  intros _. unfold after. cbn [events fst]. now left.
Qed.

End DataFlow.

Section UnhandledRejections.

Variable w : World.

Lemma not_caught_event (ev : event) :
  not_caught (what ev) -> logged_by_main ev = false.
Proof.
  unfold logged_by_main. destruct (what ev) as [| | | | |label e|]; auto.
  cbn [not_caught]. intros H.
  destruct (JsString.eqb label (lit "Error:")) eqn:E; [|reflexivity].
  apply eqb_eq in E. contradiction.
Qed.

Lemma no_log_of_main (evs : list event) :
  Forall (fun ev => not_caught (what ev)) evs ->
  existsb logged_by_main evs = false.
Proof.
  intros H. destruct (existsb logged_by_main evs) eqn:E; [|reflexivity].
  apply existsb_exists in E as (ev & Hin & Hev).
  rewrite Forall_forall in H. rewrite (not_caught_event ev (H _ Hin)) in Hev.
  discriminate Hev.
Qed.

Lemma fetchRepoContents_not_caught (folder : option jsstring) :
  calls not_caught (fetchRepoContents w folder).
Proof.
  unfold fetchRepoContents, axios_get, console_error. calls_tac.
Qed.

Lemma downloadFile_not_caught (url : jsstring) (hint : option jsstring) :
  calls not_caught (downloadFile w url hint).
Proof.
  unfold downloadFile, axios_get_with, console_error. calls_tac.
Qed.

Lemma staging_not_caught (files : list remote_file) :
  calls not_caught (getCodeFiles w)
  /\ calls not_caught (getImageFiles w)
  /\ calls not_caught (createCodeFiles w files).
Proof.
  unfold getCodeFiles, getImageFiles, createCodeFiles, fs_call.
  repeat split; calls_tac;
    first [apply fetchRepoContents_not_caught|apply downloadFile_not_caught].
Qed.

Lemma requests_made_by (s : instant) (evs : list event) :
  incl (requests (made_by s evs)) (requests evs).
Proof.
  intros c Hc. unfold requests in *. apply in_map_iff in Hc as (ev & <- & Hin).
  apply in_map. apply filter_In in Hin as [Hin Hr].
  apply filter_In. split; [|exact Hr]. now apply In_made_by in Hin.
Qed.

End UnhandledRejections.

(** X18. When the temporary directory cannot be made, [main] does
    nothing more: it has logged that it creates the directory, the call
    fails, the handler logs the error, and [main] is fulfilled.  No
    request was made. *)
Theorem main_stops_when_the_directory_cannot_be_made
        (w : World) (t : instant) (d : nat) (e : error) :
  fs w t (EnsureDir TEMP_DIR) = (d, Rejected e) ->
  main w t
  = Run (prelude_events t d false ++ [caught (t + d) e]) (t + d) (Fulfilled tt).
Proof.
  intros H. rewrite main_shape_run. unfold main_shape. now rewrite H.
Qed.

Lemma main_stops_when_the_directory_cannot_be_made_witness :
  main Faulty.read_only_disk 0
  = Run [ Event 0 0 (ConsoleLog [lit "Creating temporary directory..."]) true;
          Event 0 1 (Fs (EnsureDir TEMP_DIR)) false;
          Event 1 1 (ConsoleError (lit "Error:") (LibraryError 30)) true ]
        1 (Fulfilled tt).
Proof.
  exact (main_stops_when_the_directory_cannot_be_made
           Faulty.read_only_disk 0 1 (LibraryError 30) eq_refl).
Defined.

(** X19. When the listing of the [code] folder fails, [main] stops
    there: after the directory and the three [Processing ...] logs, the
    one request fails, [fetchRepoContents] logs it, the handler of [main]
    logs it again, and [main] is fulfilled.  The images and the chapters
    are never listed and nothing is downloaded. *)
Theorem main_stops_when_the_code_cannot_be_listed
        (w : World) (t : instant) (d d' : nat) (e : error) :
  fs w t (EnsureDir TEMP_DIR) = (d, Fulfilled tt) ->
  axios_get_listing w (t + d) (listing_url (Some (lit "code")))
  = (d', Rejected e) ->
  let t1 := t + d + d' in
  main w t
  = Run (started_events t d
           ++ [ Event (t + d) t1 (listing_call (Some (lit "code"))) false;
                Event t1 t1
                      (ConsoleError (lit "Error fetching repository contents:")
                                    e) true;
                caught t1 e ])
        t1 (Fulfilled tt).
Proof.
  intros Hfs Hl. cbn zeta. rewrite main_shape_run. unfold main_shape.
  rewrite Hfs. cbn zeta. rewrite getCodeFiles_run. cbn zeta.
  rewrite fetchRepoContents_run. cbn zeta. rewrite Hl.
  cbn [result events finish]. rewrite <- app_assoc. reflexivity.
Qed.

Lemma main_stops_when_the_code_cannot_be_listed_witness :
  fs Faulty.without_code_folder 0 (EnsureDir TEMP_DIR) = (1, Fulfilled tt)
  /\ axios_get_listing Faulty.without_code_folder 1
                       (listing_url (Some (lit "code")))
     = (3, Rejected (LibraryError 404))
  /\ requests (events (main Faulty.without_code_folder 0))
     = [listing_call (Some (lit "code"))]
  /\ fs_ops (events (main Faulty.without_code_folder 0))
     = [EnsureDir TEMP_DIR].
Proof.
  split; [reflexivity|]. split; [reflexivity|].
  rewrite (main_stops_when_the_code_cannot_be_listed
             Faulty.without_code_folder 0 1 3 (LibraryError 404)
             eq_refl eq_refl).
  split; reflexivity.
Defined.

(** X20. When the code folder is listed, the staging of its files is
    fulfilled, and the listing of the [images] folder fails, [main] ends
    when that listing has failed, with the error logged by its handler,
    and it neither waits for nor observes the staging of the code files,
    which it had started: the requests of the run are the listing of the
    code folder, one download for each code file, and the listing that
    failed.  The chapters are never listed.  (A staging that is rejected
    is another matter: nothing handles its rejection, and the process
    ends on it.) *)
Theorem main_leaves_the_code_staging_behind
        (w : World) (t : instant) (d : nat) (codeFiles : list remote_file)
        (e : error) :
  fs w t (EnsureDir TEMP_DIR) = (d, Fulfilled tt) ->
  result (getCodeFiles w (t + d)) = Fulfilled codeFiles ->
  let t1 := finish (getCodeFiles w (t + d)) in
  result (createCodeFiles w codeFiles t1) = Fulfilled tt ->
  result (getImageFiles w t1) = Rejected e ->
  let t2 := finish (getImageFiles w t1) in
  main w t
  = Run (started_events t d
           ++ events (getCodeFiles w (t + d))
           ++ events (createCodeFiles w codeFiles t1)
           ++ events (getImageFiles w t1)
           ++ [caught t2 e])
        t2 (Fulfilled tt)
  /\ requests (events (main w t))
     = listing_call (Some (lit "code"))
         :: List.map (download_request None) codeFiles
         ++ [listing_call (Some (lit "images"))].
Proof.
  intros Hfs Hrc t1 Hsc Hri t2.
  assert (Hu : unobserved (createCodeFiles w codeFiles t1)
                          (getImageFiles w t1) = None)
    by (apply unobserved_fulfilled; now rewrite Hsc).
  assert (Htry : main_try w t
                 = Run (started_events t d
                          ++ events (getCodeFiles w (t + d))
                          ++ events (createCodeFiles w codeFiles t1)
                          ++ events (getImageFiles w t1))
                       t2 (Rejected e)).
  { rewrite main_try_run. unfold main_shape. rewrite Hfs. cbn zeta.
    rewrite Hrc. fold t1. rewrite Hu, Hri. unfold never_observed.
    now rewrite Hsc. }
  assert (Halive : ended (main_try w t) = false).
  { destruct (main_try_ended_cases w t)
      as [H|(d' & codeFiles' & e' & Hfs' & Hrc' & Hu')]; [exact H|].
    rewrite Hfs in Hfs'. injection Hfs' as <-.
    rewrite Hrc in Hrc'. injection Hrc' as <-.
    fold t1 in Hu'. rewrite Hu in Hu'. discriminate Hu'. }
  assert (Hrun : main w t
                 = Run (started_events t d
                          ++ events (getCodeFiles w (t + d))
                          ++ events (createCodeFiles w codeFiles t1)
                          ++ events (getImageFiles w t1)
                          ++ [caught t2 e])
                       t2 (Fulfilled tt)).
  { rewrite main_run. cbn zeta. rewrite Halive, Htry.
    cbn [result events finish]. now rewrite <- !app_assoc. }
  split; [exact Hrun|]. rewrite Hrun. cbn [events].
  rewrite !requests_app.
  destruct (listings_requests w (t + d)) as (-> & _ & _).
  destruct (listings_requests w t1) as (_ & -> & _).
  rewrite createCodeFiles_requests. reflexivity.
Qed.

Lemma main_leaves_the_code_staging_behind_witness :
  let w := Faulty.without_images_folder in
  fs w 0 (EnsureDir TEMP_DIR) = (1, Fulfilled tt)
  /\ result (getCodeFiles w 1) = Fulfilled Demo.code_files
  /\ result (createCodeFiles w Demo.code_files 4) = Fulfilled tt
  /\ result (getImageFiles w 4) = Rejected (LibraryError 404)
  /\ requests (events (main w 0))
     = [ listing_call (Some (lit "code"));
         download_request None (RemoteFile (lit "hello.py")
                                           (Demo.raw "code/hello.py"));
         listing_call (Some (lit "images")) ]
  /\ finish (main w 0) = 7
  /\ finish (createCodeFiles w Demo.code_files 4) = 8.
Proof.
  cbn zeta.
  destruct (main_leaves_the_code_staging_behind
              Faulty.without_images_folder 0 1 Demo.code_files
              (LibraryError 404) eq_refl eq_refl eq_refl eq_refl)
    as [Hrun Hreq].
  split; [reflexivity|]. split; [reflexivity|]. split; [reflexivity|].
  split; [reflexivity|]. split; [exact Hreq|].
  split; [exact (f_equal finish Hrun)|reflexivity].
Defined.

(** X21. In a run of [main] whose [try] block is fulfilled, the
    requests are, in this order: the listing of the [code] folder, one
    download for each of its files; the listing of the [images] folder,
    one download, as ['arraybuffer'], for each of its files; the listing
    of the root, one download for each chapter file.  Every file is
    asked for once, and the export asks for nothing. *)
Theorem main_requests_every_file_once
        (w : World) (t : instant) (d : nat) (u : unit) :
  fs w t (EnsureDir TEMP_DIR) = (d, Fulfilled tt) ->
  result (main_try w t) = Fulfilled u ->
  exists codeFiles imageFiles chapterFiles,
    result (getCodeFiles w (t + d)) = Fulfilled codeFiles
    /\ result (getImageFiles w (finish (getCodeFiles w (t + d))))
       = Fulfilled imageFiles
    /\ result (getChapterFiles
                 w (finish (getImageFiles w (finish (getCodeFiles w (t + d))))))
       = Fulfilled chapterFiles
    /\ requests (events (main w t))
       = listing_call (Some (lit "code"))
           :: List.map (download_request None) codeFiles
           ++ listing_call (Some (lit "images"))
           :: List.map (download_request (Some (lit "arraybuffer"))) imageFiles
           ++ listing_call None
           :: List.map (download_request None) chapterFiles.
Proof.
  intros Hfs Hok.
  assert (Hev : events (main w t) = events (main_try w t))
    by (unfold main, try_catch; now rewrite Hok).
  rewrite Hev. clear Hev. revert Hok. rewrite main_try_run.
  unfold main_shape. rewrite Hfs. cbn zeta.
  destruct (result (getCodeFiles w (t + d))) as [codeFiles|e] eqn:Erc;
    [|discriminate].
  set (t1 := finish (getCodeFiles w (t + d))).
  destruct (unobserved _ _) as [e|]; [discriminate|].
  destruct (result (getImageFiles w t1)) as [imageFiles|e] eqn:Eri;
    [|discriminate].
  set (t2 := finish (getImageFiles w t1)).
  destruct (state (promise_all3 _ _ _)) as [j|e] eqn:Ej; [|discriminate].
  pose proof Ej as Ej'.
  apply all2_fulfilled_inv in Ej' as (_ & Ej' & _).
  apply all2_fulfilled_inv in Ej' as (_ & Hlc & _).
  cbn [promise_of state] in Hlc.
  cbn [result events]. intros _.
  exists codeFiles, imageFiles, (snd (snd j)).
  split; [reflexivity|]. split; [reflexivity|]. split; [exact Hlc|].
  rewrite !requests_app, export_requests.
  destruct (listings_requests w (t + d)) as (-> & _ & _).
  destruct (listings_requests w t1) as (_ & -> & _).
  destruct (listings_requests w t2) as (_ & _ & ->).
  rewrite createCodeFiles_requests, createImageFiles_requests.
  change (requests (started_events t d)) with (@nil call). cbn [app].
  f_equal. rewrite <- app_assoc. f_equal. cbn [app]. f_equal.
  now rewrite <- app_assoc.
Qed.

Lemma main_requests_every_file_once_witness :
  fs Demo.world 0 (EnsureDir TEMP_DIR) = (1, Fulfilled tt)
  /\ result (main_try Demo.world 0) = Fulfilled tt
  /\ List.map (fun c => match c with AxiosGet url _ => url | _ => [] end)
              (requests (events (main Demo.world 0)))
     = [ API_URL ++ lit "/code"; Demo.raw "code/hello.py";
         API_URL ++ lit "/images"; Demo.raw "images/foo.png";
         API_URL ++ lit "/"; Demo.raw "ch01.adoc"; Demo.raw "ch02.adoc" ].
Proof.
  assert (Hok : result (main_try Demo.world 0) = Fulfilled tt)
    by (vm_compute; reflexivity).
  destruct (main_requests_every_file_once Demo.world 0 1 tt eq_refl Hok)
    as (codeFiles & imageFiles & chapterFiles & Hc & Hi & Hl & Hreq).
  split; [reflexivity|]. split; [exact Hok|].
  rewrite Hreq.
  change (Fulfilled Demo.code_files = Fulfilled codeFiles) in Hc.
  change (Fulfilled Demo.image_files = Fulfilled imageFiles) in Hi.
  change (Fulfilled Demo.chapters = Fulfilled chapterFiles) in Hl.
  injection Hc as <-. injection Hi as <-. injection Hl as <-.
  reflexivity.
Defined.

(** X22. In a run of [main] whose [try] block is fulfilled, the
    document written to [merged.adoc] is the one [mergeFiles] returned
    for the chapter files that [getChapterFiles] selected: the merge is
    started when the listing of the chapters has arrived, and the
    document is written when the merge is done. *)
Theorem main_exports_the_merged_chapters
        (w : World) (t : instant) (u : unit) :
  result (main_try w t) = Fulfilled u ->
  exists chapterFiles merged tl tm,
    result (getChapterFiles w tl) = Fulfilled chapterFiles
    /\ result (mergeFiles w chapterFiles tm) = Fulfilled merged
    /\ finish (getChapterFiles w tl) <= tm
    /\ exists t1 t2,
        finish (mergeFiles w chapterFiles tm) <= t1
        /\ In (Event t1 t2 (Fs (merged_write w merged)) true)
              (events (main w t)).
Proof.
  intros Hok.
  assert (Hev : events (main w t) = events (main_try w t))
    by (unfold main, try_catch; now rewrite Hok).
  rewrite Hev. clear Hev. revert Hok. rewrite main_try_run.
  unfold main_shape.
  destruct (fs w t (EnsureDir TEMP_DIR)) as [d [[]|e]]; [|discriminate].
  cbn zeta.
  destruct (result (getCodeFiles w (t + d))) as [codeFiles|e];
    [|discriminate].
  set (t1 := finish (getCodeFiles w (t + d))).
  destruct (unobserved _ _) as [e|]; [discriminate|].
  destruct (result (getImageFiles w t1)) as [imageFiles|e]; [|discriminate].
  set (t2 := finish (getImageFiles w t1)).
  destruct (state (promise_all3 _ _ _)) as [j|e] eqn:Ej; [|discriminate].
  pose proof Ej as Ej'.
  apply all2_fulfilled_inv in Ej' as (_ & Ej' & Hmax1).
  apply all2_fulfilled_inv in Ej' as (_ & Hlc & Hmax2).
  cbn [promise_of state settles] in Hlc, Hmax1, Hmax2.
  unfold promise_all3. rewrite Hmax1, Hmax2.
  set (tj := Nat.max t2 _).
  cbn [result events]. rewrite export_run. cbn zeta.
  destruct (result (mergeFiles w (snd (snd j)) tj)) as [merged|e] eqn:Em;
    [|discriminate].
  unfold after. cbn [result events]. intros Hx.
  exists (snd (snd j)), merged, t2, tj.
  split; [exact Hlc|]. split; [exact Em|].
  split; [unfold tj, instant in *; lia|].
  set (tm := finish (mergeFiles w (snd (snd j)) tj)) in *.
  assert (Hs : is_fulfilled (result (saveAsPDF w merged tm)) = true).
  { revert Hx. rewrite bind_run.
    destruct (result (saveAsPDF w merged tm)); [reflexivity|discriminate]. }
  exists tm, (tm + fst (fs w tm (merged_write w merged))).
  split; [lia|].
  apply in_app_iff. right. apply in_app_iff. right.
  rewrite bind_run.
  pose proof (saveAsPDF_first_write w merged tm Hs) as Hin.
  destruct (result (saveAsPDF w merged tm)); [|discriminate Hs].
  cbn [events]. apply in_app_iff. now left.
Qed.

Lemma main_exports_the_merged_chapters_witness :
  result (main_try Demo.world 0) = Fulfilled tt
  /\ exists chapterFiles merged tl tm,
      result (getChapterFiles Demo.world tl) = Fulfilled chapterFiles
      /\ result (mergeFiles Demo.world chapterFiles tm) = Fulfilled merged
      /\ exists t1 t2,
          In (Event t1 t2 (Fs (merged_write Demo.world merged)) true)
             (events (main Demo.world 0)).
Proof.
  assert (Hok : result (main_try Demo.world 0) = Fulfilled tt)
    by (vm_compute; reflexivity).
  split; [exact Hok|].
  destruct (main_exports_the_merged_chapters Demo.world 0 tt Hok)
    as (chapterFiles & merged & tl & tm & Hl & Hm & _ & t1 & t2 & _ & Hin).
  exists chapterFiles, merged, tl, tm. split; [exact Hl|].
  split; [exact Hm|]. exists t1, t2. exact Hin.
Defined.

(** X23. When no call to a library fails, the [try] block of [main]
    is fulfilled, whatever the listings hold: the page is printed, the
    last thing [main] does is to log [Process completed successfully!],
    and the temporary directory is not there in the end. *)
Theorem main_completes_when_nothing_fails (w : World) (t : instant) :
  obliging w ->
  result (main_try w t) = Fulfilled tt
  /\ (exists evs T,
         events (main w t)
         = evs ++ [Event T T (ConsoleLog [lit "Process completed successfully!"])
                         true])
  /\ (exists t1 t2,
         In (Event t1 t2 (Puppeteer (Pdf page_pdf_options)) true)
            (events (main w t)))
  /\ temp_dir_may_exist (events (main w t)) = false.
Proof.
  intros Hw.
  assert (Hok : result (main_try w t) = Fulfilled tt).
  { pose proof (main_try_succeeds w Hw t) as H.
    now destruct (result (main_try w t)) as [[]|e]. }
  assert (Hev : events (main w t) = events (main_try w t))
    by (unfold main, try_catch; now rewrite Hok).
  split; [exact Hok|]. rewrite Hev.
  destruct (main_try_fulfilled w t tt Hok)
    as (evs & T & dc & dr & d & -> & Hwithin & _ & _ & t0 & Hpdf).
  split; [|split].
  - unfold closing_events. rewrite app_assoc. eexists _, _. reflexivity.
  - exists t0, T. apply in_app_iff. now left.
  - eapply temp_dir_removed; eauto.
Qed.

Lemma main_completes_when_nothing_fails_witness :
  obliging Demo.world
  /\ result (main_try Demo.world 0) = Fulfilled tt
  /\ temp_dir_may_exist (events (main Demo.world 0)) = false.
Proof.
  assert (Hw : obliging Demo.world) by (repeat split; intros; reflexivity).
  destruct (main_completes_when_nothing_fails Demo.world 0 Hw)
    as (Hok & _ & _ & Hgone).
  split; [exact Hw|]. split; [exact Hok|exact Hgone].
Defined.

(** X24. A listing or a download that fails is logged where it failed
    and thrown again as it is: the run is the one request, the one
    [console.error] with the error, and a rejection with that same
    error; the request is not made a second time.  When the [try] block
    of [main] is rejected and the process has not ended, the handler of
    [main] logs the error and [main] is fulfilled, with nothing else
    done; when the block is fulfilled the handler does not run. *)
Theorem failures_are_logged_and_rethrown_once (w : World) (t : instant) :
  (forall folder d e,
      axios_get_listing w t (listing_url folder) = (d, Rejected e) ->
      fetchRepoContents w folder t
      = Run [Event t (t + d) (AxiosGet (listing_url folder) None) false;
             Event (t + d) (t + d)
                   (ConsoleError (lit "Error fetching repository contents:") e)
                   true]
            (t + d) (Rejected e))
  /\ (forall url hint d e,
         axios_get_file w t url (download_config hint) = (d, Rejected e) ->
         downloadFile w url hint t
         = Run [Event t (t + d) (AxiosGet url (Some (download_config hint)))
                      false;
                Event (t + d) (t + d)
                      (ConsoleError (lit "Error downloading file:") e) true]
               (t + d) (Rejected e))
  /\ (forall e,
         result (main_try w t) = Rejected e ->
         ended (main_try w t) = false ->
         main w t
         = Run (events (main_try w t) ++ [caught (finish (main_try w t)) e])
               (finish (main_try w t)) (Fulfilled tt))
  /\ (forall u,
         result (main_try w t) = Fulfilled u -> main w t = main_try w t).
Proof.
  split; [|split; [|split]].
  - intros folder d e H. rewrite fetchRepoContents_run. cbn zeta.
    now rewrite H.
  - intros url hint d e H. rewrite downloadFile_run. cbn zeta.
    now rewrite H.
  - intros e E Ea. rewrite main_run. cbn zeta. now rewrite E, Ea.
  - intros u E. rewrite main_run. cbn zeta. now rewrite E.
Qed.

Lemma failures_are_logged_and_rethrown_once_witness :
  axios_get_listing Demo.offline 0 (listing_url None)
  = (5, Rejected (LibraryError 503))
  /\ result (fetchRepoContents Demo.offline None 0)
     = Rejected (LibraryError 503)
  /\ axios_get_file Demo.offline 0 (Demo.raw "ch01.adoc") (download_config None)
     = (5, Rejected (LibraryError 503))
  /\ result (downloadFile Demo.offline (Demo.raw "ch01.adoc") None 0)
     = Rejected (LibraryError 503)
  /\ result (main_try Demo.offline 0) = Rejected (LibraryError 503)
  /\ ended (main_try Demo.offline 0) = false
  /\ result (main Demo.offline 0) = Fulfilled tt
  /\ In (caught 6 (LibraryError 503)) (events (main Demo.offline 0)).
Proof.
  destruct (failures_are_logged_and_rethrown_once Demo.offline 0)
    as (Hlist & Hfile & Hcaught & _).
  assert (Hrej : result (main_try Demo.offline 0) = Rejected (LibraryError 503))
    by (vm_compute; reflexivity).
  assert (Ha : ended (main_try Demo.offline 0) = false)
    by (vm_compute; reflexivity).
  split; [reflexivity|].
  split; [exact (f_equal result (Hlist None 5 _ eq_refl))|].
  split; [reflexivity|].
  split; [exact (f_equal result (Hfile (Demo.raw "ch01.adoc") None 5 _ eq_refl))|].
  split; [exact Hrej|]. split; [exact Ha|].
  rewrite (Hcaught _ Hrej Ha). split; [reflexivity|].
  cbn [events]. apply in_app_iff. right. left. reflexivity.
Defined.

(** X25. When the staging of the code files is rejected before the
    listing of the images has settled, the run of [main] ends there, on
    the rejection that nothing handles: the calls made until then are
    followed by the end of the process.  The handler of [main] logs
    nothing, and nothing is asked for but the listing of the code
    folder, the code files and the listing of the images: no image is
    downloaded and the chapters are never listed. *)
Theorem main_ends_on_the_rejection_it_does_not_await
        (w : World) (t : instant) (d : nat) (codeFiles : list remote_file)
        (e : error) :
  fs w t (EnsureDir TEMP_DIR) = (d, Fulfilled tt) ->
  result (getCodeFiles w (t + d)) = Fulfilled codeFiles ->
  let t1 := finish (getCodeFiles w (t + d)) in
  let staging_code := createCodeFiles w codeFiles t1 in
  result staging_code = Rejected e ->
  finish staging_code < finish (getImageFiles w t1) ->
  let s := finish staging_code in
  main w t
  = Run (started_events t d
           ++ events (getCodeFiles w (t + d))
           ++ made_by s (events staging_code ++ events (getImageFiles w t1))
           ++ [exit_event s e])
        s (Rejected e)
  /\ ended (main w t) = true
  /\ existsb logged_by_main (events (main w t)) = false
  /\ incl (requests (events (main w t)))
          (listing_call (Some (lit "code"))
             :: List.map (download_request None) codeFiles
             ++ [listing_call (Some (lit "images"))]).
Proof.
  intros Hfs Hrc t1 sc Hsc Hlt s.
  assert (Hu : unobserved sc (getImageFiles w t1) = Some e)
    by (apply unobserved_some; split; [exact Hsc|fold s; lia]).
  pose proof (main_try_killed w t d codeFiles e Hfs Hrc Hu) as Htry.
  cbn zeta in Htry. fold t1 in Htry. fold sc in Htry. fold s in Htry.
  assert (Hend : ended (main_try w t) = true).
  { rewrite Htry. rewrite !app_assoc. apply ended_at_exit. }
  assert (Hrun : main w t = main_try w t).
  { rewrite main_run. cbn zeta. rewrite Hend.
    now destruct (result (main_try w t)). }
  rewrite Hrun. split; [exact Htry|]. split; [exact Hend|].
  rewrite Htry. cbn [events].
  destruct (staging_not_caught w codeFiles) as (Hc & Hi & Hs).
  split.
  - apply no_log_of_main.
    apply Forall_app. split; [now repeat constructor|].
    apply Forall_app. split; [apply Hc|].
    apply Forall_app. split.
    + apply Forall_made_by. apply Forall_app. split; [apply Hs|apply Hi].
    + now repeat constructor.
  - rewrite !requests_app.
    destruct (listings_requests w (t + d)) as (-> & _ & _).
    change (requests (started_events t d)) with (@nil call).
    change (requests [exit_event s e]) with (@nil call).
    rewrite app_nil_r. cbn [app].
    intros c [<-|Hin]; [now left|]. right.
    apply requests_made_by in Hin. rewrite requests_app in Hin.
    destruct (listings_requests w t1) as (_ & Hri & _).
    rewrite Hri in Hin. unfold sc in Hin.
    now rewrite createCodeFiles_requests in Hin.
Qed.

Lemma main_ends_on_the_rejection_it_does_not_await_witness :
  let w := Demo.world_without_hello in
  fs w 0 (EnsureDir TEMP_DIR) = (1, Fulfilled tt)
  /\ result (getCodeFiles w 1) = Fulfilled Demo.code_files
  /\ result (createCodeFiles w Demo.code_files 4) = Rejected (LibraryError 404)
  /\ finish (createCodeFiles w Demo.code_files 4) = 5
  /\ finish (getImageFiles w 4) = 7
  /\ finish (main w 0) = 5
  /\ ended (main w 0) = true
  /\ existsb logged_by_main (events (main w 0)) = false.
Proof.
  cbn zeta.
  destruct (main_ends_on_the_rejection_it_does_not_await
              Demo.world_without_hello 0 1 Demo.code_files (LibraryError 404)
              eq_refl eq_refl eq_refl)
    as (Hrun & Hend & Hlog & _).
  - vm_compute. lia.
  - split; [reflexivity|]. split; [reflexivity|]. split; [reflexivity|].
    split; [reflexivity|]. split; [reflexivity|].
    split; [exact (f_equal finish Hrun)|]. split; [exact Hend|exact Hlog].
Defined.

(** X26. When the listing of the images fails and the staging of the
    code files, which goes on, is rejected after that, [main] is
    fulfilled when the listing has failed, with the error logged by its
    handler; nothing handles the rejection of the staging, and the
    process ends on it, later: the calls of the staging made until then
    are in the run, and the end of the process. *)
Theorem main_is_outlived_by_the_code_staging
        (w : World) (t : instant) (d : nat) (codeFiles : list remote_file)
        (e e' : error) :
  fs w t (EnsureDir TEMP_DIR) = (d, Fulfilled tt) ->
  result (getCodeFiles w (t + d)) = Fulfilled codeFiles ->
  let t1 := finish (getCodeFiles w (t + d)) in
  result (getImageFiles w t1) = Rejected e' ->
  let t2 := finish (getImageFiles w t1) in
  let staging_code := createCodeFiles w codeFiles t1 in
  result staging_code = Rejected e ->
  t2 < finish staging_code ->
  let s := finish staging_code in
  main w t
  = Run (started_events t d
           ++ events (getCodeFiles w (t + d))
           ++ made_by s (events staging_code)
           ++ events (getImageFiles w t1)
           ++ [exit_event s e; caught t2 e'])
        t2 (Fulfilled tt).
Proof.
  intros Hfs Hrc t1 Hri t2 sc Hsc Hlt s.
  assert (Hu : unobserved sc (getImageFiles w t1) = None)
    by (apply unobserved_later; fold t2; lia).
  assert (Htry : main_try w t
                 = Run (started_events t d
                          ++ events (getCodeFiles w (t + d))
                          ++ made_by s (events sc)
                          ++ events (getImageFiles w t1)
                          ++ [exit_event s e])
                       t2 (Rejected e')).
  { rewrite main_try_run. unfold main_shape. rewrite Hfs. cbn zeta.
    rewrite Hrc. fold t1. fold sc. rewrite Hu, Hri. unfold never_observed.
    now rewrite Hsc. }
  assert (Halive : ended (main_try w t) = false).
  { destruct (main_try_ended_cases w t)
      as [H|(d' & codeFiles' & e0 & Hfs' & Hrc' & Hu')]; [exact H|].
    rewrite Hfs in Hfs'. injection Hfs' as <-.
    rewrite Hrc in Hrc'. injection Hrc' as <-.
    fold t1 in Hu'. fold sc in Hu'. rewrite Hu in Hu'. discriminate Hu'. }
  rewrite main_run. cbn zeta. rewrite Halive, Htry.
  cbn [result events finish]. now rewrite <- !app_assoc.
Qed.

Lemma main_is_outlived_by_the_code_staging_witness :
  main Faulty.without_images_nor_room 0
  = Run [ Event 0 0 (ConsoleLog [lit "Creating temporary directory..."]) true;
          Event 0 1 (Fs (EnsureDir TEMP_DIR)) true;
          Event 1 1 (ConsoleLog [lit "Processing code files..."]) true;
          Event 1 1 (ConsoleLog [lit "Processing image files..."]) true;
          Event 1 1 (ConsoleLog [lit "Processing chapter files..."]) true;
          Event 1 4 (AxiosGet (listing_url (Some (lit "code"))) None) true;
          Event 4 6 (AxiosGet (Demo.raw "code/hello.py")
                              (Some (download_config None))) true;
          Event 6 7 (Fs (EnsureDir (code_dir Faulty.without_images_nor_room))) true;
          Event 7 8 (Fs (code_write Faulty.without_images_nor_room
                           (RemoteFile (lit "hello.py")
                                       (Demo.raw "code/hello.py"))
                           (Text (lit "print('hello')")))) false;
          Event 4 7 (AxiosGet (listing_url (Some (lit "images"))) None) false;
          Event 7 7 (ConsoleError (lit "Error fetching repository contents:")
                                  (LibraryError 404)) true;
          Event 8 8 (UnhandledRejection (LibraryError 28)) true;
          Event 7 7 (ConsoleError (lit "Error:") (LibraryError 404)) true ]
        7 (Fulfilled tt).
Proof.
  rewrite (main_is_outlived_by_the_code_staging
             Faulty.without_images_nor_room 0 1 Demo.code_files
             (LibraryError 28) (LibraryError 404) eq_refl eq_refl eq_refl
             eq_refl).
  - reflexivity.
  - vm_compute. lia.
Defined.
